(** * NeuroKit [hrv_rsa]: respiratory sinus arrhythmia, a shallow embedding

    The development follows [src/neurokit2/hrv/hrv_rsa.py], and after it
    [src/neurokit2/eda/eda_intervalrelated.py] and
    [src/neurokit2/hrv/hrv_time.py]:

    - [Py]      Python exceptions, the warning channel, numpy's doubles;
    - [Np]      the numpy / pandas routines the module calls;
    - [Window]  [_get_multipeak_window], generic in the arithmetic;
    - [Rsa]     [_hrv_rsa_cycles], [_hrv_rsa_p2t], [_hrv_rsa_pb],
                [_hrv_rsa_gates] and [hrv_rsa] itself;
    - [Format]  [_hrv_rsa_formatinput];
    - [Eda]     [eda_intervalrelated] and [_eda_intervalrelated_formatinput];
    - [HrvTime] [hrv_time];
    - the vocabulary of the properties, then the properties, one part per
      function.

    Input.  [hrv_rsa] is modelled from the values [_hrv_rsa_formatinput]
    hands over ([Rsa.formatted]); the formatter is modelled on its own, on
    tables with the default index and string labels.

    Numbers.  A double is modelled by [npfloat]: NaN, the two infinities, or
    an exact rational in lowest terms ([Qc]).  Arithmetic on finite values
    is exact (rounding and signed zeros are not modelled); NaN and infinity
    follow IEEE 754.  The transcendental functions ([np.log], [np.sqrt],
    ...) are parameters ([Libm]).  Collaborators from other modules of the
    package ([signal_resample], [signal_filter], [signal_interpolate],
    [signal_timefrequency], [_hrv_get_rri]) and scipy's factorisations are
    parameters as well, and are taken to return normally; the collaborators
    of the formatter and [np.histogram] are parameters that may raise. *)

From Stdlib Require Import ZArith QArith Qcanon Qround List Lia Reals Psatz.
From stdpp Require Import base option gmap strings list sorting.

Set Default Proof Using "Type".

(* ===================================================================== *)
(** ** Python values: exceptions, warnings, doubles *)
(* ===================================================================== *)

Module Py.

(** The exceptions the modelled code can raise. *)
Inductive exn := IndexError | TypeError | ValueError | ZeroDivisionError.

Inductive result (A : Type) := Ok (a : A) | Raise (e : exn).
Arguments Ok {A} a.
Arguments Raise {A} e.

#[global] Instance result_ret : MRet result := fun A a => Ok a.
#[global] Instance result_bind : MBind result := fun A B k r =>
  match r with Ok a => k a | Raise e => Raise e end.

(** [warn(..., category=NeuroKitWarning)]: the two messages of [hrv_rsa]. *)
Inductive warning :=
| CyclesWarning                    (* "Couldn't find rsp cycles onsets and centers..." *)
| ShortRecordingWarning (window : Z). (* "The duration of recording is shorter than..." *)

(** A computation that may warn and may raise: warnings issued before an
    exception stay issued. *)
Definition W (A : Type) : Type := list warning -> result A * list warning.

Definition wret {A} (a : A) : W A := fun ws => (Ok a, ws).
Definition wbind {A B} (c : W A) (k : A -> W B) : W B :=
  fun ws => match c ws with
            | (Ok a, ws') => k a ws'
            | (Raise e, ws') => (Raise e, ws')
            end.
Definition warn (w : warning) : W unit := fun ws => (Ok tt, ws ++ [w]).
Definition lift {A} (r : result A) : W A := fun ws => (r, ws).
Definition run {A} (c : W A) : result A * list warning := c [].

(** numpy's float64. *)
Inductive npfloat := NaN | PInf | NInf | Fin (q : Qc).

Definition isnan (x : npfloat) : bool :=
  match x with NaN => true | _ => false end.

Definition of_Z (z : Z) : npfloat := Fin (Q2Qc (inject_Z z)).

(** Sign of a value: [None] for NaN. *)
Definition fsgn (x : npfloat) : option Z :=
  match x with
  | NaN => None
  | PInf => Some 1%Z
  | NInf => Some (-1)%Z
  | Fin q => Some (Z.sgn (Qnum q))
  end.

(** The infinity of a given sign; a zero sign gives NaN (inf * 0, 0 / 0). *)
Definition finf (s : Z) : npfloat :=
  if (0 <? s)%Z then PInf else if (s <? 0)%Z then NInf else NaN.

Definition fneg (x : npfloat) : npfloat :=
  match x with
  | NaN => NaN
  | PInf => NInf
  | NInf => PInf
  | Fin q => Fin (- q)%Qc
  end.

Definition fadd (x y : npfloat) : npfloat :=
  match x, y with
  | NaN, _ | _, NaN => NaN
  | Fin a, Fin b => Fin (a + b)%Qc
  | PInf, NInf | NInf, PInf => NaN
  | PInf, _ | _, PInf => PInf
  | NInf, _ | _, NInf => NInf
  end.

Definition fsub (x y : npfloat) : npfloat := fadd x (fneg y).

Definition fmul (x y : npfloat) : npfloat :=
  match x, y with
  | Fin a, Fin b => Fin (a * b)%Qc
  | _, _ =>
      match fsgn x, fsgn y with
      | Some s, Some t => finf (s * t)
      | _, _ => NaN
      end
  end.

(** numpy division: a zero divisor gives an infinity or NaN, never an
    exception. *)
Definition fdiv (x y : npfloat) : npfloat :=
  match x, y with
  | NaN, _ | _, NaN => NaN
  | Fin a, Fin b =>
      if Qeq_bool b 0 then finf (Z.sgn (Qnum a)) else Fin (a / b)%Qc
  | Fin _, _ => Fin 0%Qc
  | _, Fin b =>
      match fsgn x with
      | Some s => finf (s * (if Qeq_bool b 0 then 1 else Z.sgn (Qnum b)))
      | None => NaN
      end
  | _, _ => NaN
  end.

(** [x == y] on doubles: NaN equals nothing. *)
Definition feqb (x y : npfloat) : bool :=
  match x, y with
  | Fin a, Fin b => Qeq_bool a b
  | PInf, PInf | NInf, NInf => true
  | _, _ => false
  end.

(** The same double: the same rational, or the same special value. *)
Definition fsame (x y : npfloat) : bool :=
  match x, y with
  | NaN, NaN => true
  | _, _ => feqb x y
  end.

Fixpoint fsame_list (a b : list npfloat) : bool :=
  match a, b with
  | [], [] => true
  | x :: a', y :: b' => fsame x y && fsame_list a' b'
  | _, _ => false
  end.

(** [x <= y] on doubles: false as soon as one side is NaN. *)
Definition fleb (x y : npfloat) : bool :=
  match x, y with
  | NaN, _ | _, NaN => false
  | NInf, _ | _, PInf => true
  | _, NInf | PInf, _ => false
  | Fin a, Fin b => Qle_bool a b
  end.

(** [np.maximum], [np.minimum]: NaN wins. *)
Definition fmax (x y : npfloat) : npfloat :=
  if isnan x || isnan y then NaN else if fleb x y then y else x.

Definition fmin (x y : npfloat) : npfloat :=
  if isnan x || isnan y then NaN else if fleb x y then x else y.

(** [libm]: the transcendental functions, as numpy applies them to a double. *)
Record Libm := {
  np_log : npfloat -> npfloat;
  np_sqrt : npfloat -> npfloat;
  np_exp : npfloat -> npfloat;
  np_cos : npfloat -> npfloat;
  np_sin : npfloat -> npfloat;
  np_log10 : npfloat -> npfloat;
  np_power : npfloat -> npfloat -> npfloat;
  np_pi : npfloat
}.

(** Values stored in the summary dictionary. *)
Inductive pyval :=
| VFloat (x : npfloat)
| VInt (n : Z).

End Py.
Export Py.

Notation "'let!' x ':=' c 'in' k" := (wbind c (fun x => k))
  (at level 10, x name, c at level 100, k at level 200).
Notation "'do!' c 'in' k" := (wbind c (fun _ => k))
  (at level 10, c at level 100, k at level 200).

(* ===================================================================== *)
(** ** numpy and pandas routines *)
(* ===================================================================== *)

Module Np.

(** [np.where(cond)[0]] and [np.argwhere(cond)[:, 0]]: the positions at
    which a boolean array holds, in increasing order. *)
Fixpoint where_from (i : Z) (cond : list bool) : list Z :=
  match cond with
  | [] => []
  | b :: rest =>
      if b then i :: where_from (i + 1) rest else where_from (i + 1) rest
  end.

Definition np_where (cond : list bool) : list Z := where_from 0 cond.

(** [a[mask]] for a boolean mask of the right length. *)
Fixpoint compress {A} (mask : list bool) (a : list A) : list A :=
  match mask, a with
  | b :: mask', x :: a' =>
      if b then x :: compress mask' a' else compress mask' a'
  | _, _ => []
  end.

(** [a[mask]]: numpy refuses a mask whose length differs from the array's. *)
Definition bool_index {A} (a : list A) (mask : list bool) : result (list A) :=
  if (length a =? length mask)%nat then Ok (compress mask a)
  else Raise IndexError.

(** [np.intersect1d(ar1, ar2, assume_unique=True)], as numpy computes it:
    [aux = concatenate((ar1, ar2)); aux.sort();
     mask = aux[1:] == aux[:-1]; return aux[:-1][mask]]. *)
Definition intersect1d (ar1 ar2 : list Z) : list Z :=
  let aux := merge_sort Z.le (ar1 ++ ar2) in
  let mask := zip_with Z.eqb (tail aux) (removelast aux) in
  compress mask (removelast aux).

(** [np.diff(a)]: [a[1:] - a[:-1]] (zipping with [a] stops at [a[:-1]]). *)
Definition np_diff (a : list Z) : list Z := zip_with Z.sub (tail a) a.

(** [np.full(n, x)]. *)
Definition np_full {A} (n : nat) (x : A) : list A := replicate n x.

(** [np.sum] in exact arithmetic. *)
Definition np_sum (a : list npfloat) : npfloat := fold_left fadd a (Fin 0%Qc).

(** [np.max], [np.min]; an empty array is a [ValueError]. *)
Definition np_max (a : list npfloat) : result npfloat :=
  match a with
  | [] => Raise ValueError
  | x :: rest => Ok (fold_left fmax rest x)
  end.

Definition np_min (a : list npfloat) : result npfloat :=
  match a with
  | [] => Raise ValueError
  | x :: rest => Ok (fold_left fmin rest x)
  end.

(** [a[i]] and [a[-1]]: out of range is an [IndexError]. *)
Definition getitem {A} (a : list A) (i : nat) : result A :=
  match a !! i with
  | Some x => Ok x
  | None => Raise IndexError
  end.

Definition getlast {A} (a : list A) : result A :=
  match last a with
  | Some x => Ok x
  | None => Raise IndexError
  end.

(** [np.log], [np.sqrt] of a double: NaN goes to NaN, the rest to libm. *)
Definition log (lm : Libm) (x : npfloat) : npfloat :=
  if isnan x then NaN else np_log lm x.

Definition sqrt (lm : Libm) (x : npfloat) : npfloat :=
  if isnan x then NaN else np_sqrt lm x.

(** numpy's [_replace_nan(a, 0)]: the array with NaN replaced, and the mask. *)
Definition replace_nan (a : list npfloat) : list npfloat * list bool :=
  (map (fun x => if isnan x then Fin 0%Qc else x) a, map isnan a).

(** [np.sum(~mask)]. *)
Definition count_valid (mask : list bool) : Z :=
  Z.of_nat (length (filter (fun b => negb b) mask)).

(** [np.nanmean]: NaN entries are replaced by zero, the sum is divided by
    the number of entries that were not NaN (0 / 0 is NaN). *)
Definition nanmean (a : list npfloat) : npfloat :=
  let '(arr, mask) := replace_nan a in
  let cnt := count_valid mask in
  fdiv (np_sum arr) (of_Z cnt).

(** [np.nanvar(a, ddof)], numpy's [_nanvar]: deviations from the mean of
    the valid entries, zero at the masked ones; NaN when [cnt - ddof <= 0]. *)
Definition nanvar (a : list npfloat) (ddof : Z) : npfloat :=
  let '(arr, mask) := replace_nan a in
  let cnt := count_valid mask in
  let avg := fdiv (np_sum arr) (of_Z cnt) in
  let dev := zip_with (fun x (m : bool) => if m then Fin 0%Qc else fsub x avg) arr mask in
  let sqr := map (fun x => fmul x x) dev in
  let dof := (cnt - ddof)%Z in
  if (dof <=? 0)%Z then NaN else fdiv (np_sum sqr) (of_Z dof).

(** [np.nanstd(a, ddof)]. *)
Definition nanstd (lm : Libm) (a : list npfloat) (ddof : Z) : npfloat :=
  sqrt lm (nanvar a ddof).

(** [len(pd.Series(a).index[pd.Series(a).isnull()])]. *)
Definition count_null (a : list npfloat) : Z :=
  Z.of_nat (length (filter isnan a)).

(** Python's [dict.update] on the objects [hrv_rsa] hands to it. *)
Inductive pyobj :=
| ODict (d : gmap string pyval)
| OFloat (x : npfloat)
| OArray (a : list npfloat)
| ONone.

Definition dict_update (d : gmap string pyval) (other : pyobj)
  : result (gmap string pyval) :=
  match other with
  | ODict m => Ok (m ∪ d)
  | OArray [] => Ok d
  | OFloat _ | OArray _ | ONone => Raise TypeError
  end.

End Np.

(* ===================================================================== *)
(** ** The peak matched multiple windows *)
(* ===================================================================== *)

Module Window.

(** The arithmetic [_get_multipeak_window] uses.  Two instances follow:
    the real numbers, and doubles over a [Libm]. *)
Class FloatOps (F : Type) := {
  f_of_Z : Z -> F;
  f_add : F -> F -> F;
  f_sub : F -> F -> F;
  f_mul : F -> F -> F;
  f_div : F -> F -> F;
  f_neg : F -> F;
  f_pow : F -> F -> F;
  f_exp : F -> F;
  f_cos : F -> F;
  f_sin : F -> F;
  f_log10 : F -> F;
  f_sqrt : F -> F;
  f_pi : F;
  f_sort_leb : F -> F -> bool   (* the order of [np.sort] *)
}.

(** A two-dimensional array, by row and column. *)
Definition matrix (F : Type) : Type := nat -> nat -> F.

(** [scipy.linalg]: the factorisations of an [n] by [n] matrix. *)
Record LinAlg (F : Type) := {
  cholesky : nat -> matrix F -> matrix F;  (* upper factor *)
  inv : nat -> matrix F -> matrix F;
  schur : nat -> matrix F -> matrix F       (* the unitary factor, [schur(C)[1]] *)
}.
Arguments cholesky {F} _ _ _.
Arguments inv {F} _ _ _.
Arguments schur {F} _ _ _.

Section generator.
Context {F : Type} {ops : FloatOps F} (la : LinAlg F).

Local Notation "x + y" := (f_add x y).
Local Notation "x - y" := (f_sub x y).
Local Notation "x * y" := (f_mul x y).
Local Notation "x / y" := (f_div x y).
Local Notation "- x" := (f_neg x).
Local Notation "# z" := (f_of_Z z) (at level 5, format "# z").

Definition f_sum (a : list F) : F := fold_left f_add a #0.

Definition dot (n : nat) (A B : matrix F) : matrix F :=
  fun i j => f_sum (map (fun k => A i k * B k j) (seq 0 n)).

Definition transpose (A : matrix F) : matrix F := fun i j => A j i.

(** [scipy.linalg.toeplitz(c)] for a real first column. *)
Definition toeplitz (c : list F) : matrix F :=
  fun i j => nth (if (i <? j)%nat then (j - i)%nat else (i - j)%nat) c #0.

Definition column (n : nat) (A : matrix F) (j : nat) : list F :=
  map (fun i => A i j) (seq 0 n).

Definition vdot (u v : list F) : F := f_sum (zip_with f_mul u v).

Definition leF (x y : F) : Prop := Is_true (f_sort_leb x y).

(** [np.sort] and [np.argsort], by merge sort (numpy leaves the order of
    equal values to the sorting routine). *)
Definition np_sort (a : list F) : list F := merge_sort leF a.

Definition np_argsort (a : list F) : list nat :=
  map fst (merge_sort (fun p q : nat * F => leF (snd p) (snd q))
                      (zip (seq 0 (length a)) a)).

(** Lines 449-451: each column of [F], in the order [h], over its norm. *)
Definition normalised_column (n : nat) (Fm : matrix F) (c : nat) : list F :=
  let v := column n Fm c in
  map (fun x => x / f_sqrt (vdot v v)) v.

(** Lines 413-436: the covariance function of the peaked spectrum and of
    the penalty, for [nperseg > 0]. *)
Definition covariances (nperseg : Z) (window_number : nat) : list F * list F :=
  let K1 := 20%Z in
  let K2 := 30%Z in
  let n := Z.to_nat nperseg in
  let B := #(Z.of_nat window_number + 2) / #nperseg in
  let loge := f_log10 (f_exp #1) in
  let C := #(2 * K1) / #10 / B / loge in
  let length := map (fun k => #(Z.of_nat k)) (seq 1 (n - 1)) in
  let e := f_exp (- C * B / #2) in
  let r0 := #2 / C * (#1 - e) in
  let r_num := map (fun l =>
    #2 * C - e * (#2 * C * f_cos (f_pi * B * l)
                  - #4 * f_pi * l * f_sin (f_pi * B * l))) length in
  let r_den := map (fun l => f_pow C #2 + f_pow (#2 * f_pi * l) #2) length in
  let r := zip_with f_div r_num r_den in
  let rpeak := r0 :: r in
  let r := map (fun l => #2 * f_sin (f_pi * B * l) / (#2 * f_pi * l)) length in
  let rbox := B :: r in
  let p := f_pow #10 (#K2 / #10) in
  let rpen := zip_with (fun d b => p * d - (p - #1) * b)
                       (#1 :: replicate (n - 1) #0) rbox in
  (rpeak, rpen).

(** Lines 438-445: the basis [F] of the generalised eigenproblem and the
    diagonal [RD]. *)
Definition generalised_basis (n : nat) (rpeak rpen : list F) : matrix F * list F :=
  let Ry := toeplitz rpeak in
  let Rx := toeplitz rpen in
  let RR := cholesky la n Rx in
  let C := dot n (dot n (inv la n (transpose RR)) Ry) (inv la n RR) in
  let Q := schur la n C in
  let Fm := dot n (inv la n RR) Q in
  let RDm := dot n (dot n (transpose Fm) Ry) Fm in
  let RD := map (fun i => RDm i i) (seq 0 n) in
  (Fm, RD).

(** Lines 446-457: the columns in decreasing order of [RD], the smallest
    left out, the first [window_number] kept. *)
Definition select_windows (n window_number : nat) (Fm : matrix F) (RD : list F)
  : list (list F) * list F :=
  let RDN := np_sort RD in
  let h := np_argsort RD in
  let FN := map (fun i => normalised_column n Fm (nth i h 0%nat))
                (seq 0 (length RD)) in
  let RDN := rev (tail RDN) in           (* RDN[len(RD) - 1 : 0 : -1] *)
  let FN := rev (tail FN) in             (* FN[:, len(RD) - 1 : 0 : -1] *)
  let top := take window_number RDN in
  let weight := map (fun x => x / f_sum top) top in
  let multipeak := take window_number FN in
  (multipeak, weight).

Definition _get_multipeak_window (nperseg : Z) (window_number : nat)
  : result (list (list F) * list F) :=
  if (nperseg =? 0)%Z then Raise ZeroDivisionError      (* B *)
  else if (nperseg <? 0)%Z then Raise ValueError        (* np.zeros((nperseg - 1, 1)) *)
  else
    let n := Z.to_nat nperseg in
    let '(rpeak, rpen) := covariances nperseg window_number in
    let '(Fm, RD) := generalised_basis n rpeak rpen in
    Ok (select_windows n window_number Fm RD).

End generator.

(** Real arithmetic. *)
#[export] Instance R_ops : FloatOps R := {|
  f_of_Z := IZR;
  f_add := Rplus;
  f_sub := Rminus;
  f_mul := Rmult;
  f_div := Rdiv;
  f_neg := Ropp;
  f_pow := Rpower;
  f_exp := exp;
  f_cos := cos;
  f_sin := sin;
  f_log10 := fun x => (ln x / ln 10)%R;
  f_sqrt := R_sqrt.sqrt;
  f_pi := PI;
  f_sort_leb := fun x y => if Rle_dec x y then true else false
|}.

(** Doubles, with the transcendental functions of a [Libm]; [np.sort] puts
    NaN last. *)
Definition npfloat_ops (lm : Libm) : FloatOps npfloat := {|
  f_of_Z := of_Z;
  f_add := fadd;
  f_sub := fsub;
  f_mul := fmul;
  f_div := fdiv;
  f_neg := fneg;
  f_pow := np_power lm;
  f_exp := np_exp lm;
  f_cos := np_cos lm;
  f_sin := np_sin lm;
  f_log10 := np_log10 lm;
  f_sqrt := Np.sqrt lm;
  f_pi := np_pi lm;
  f_sort_leb := fun x y => isnan y || fleb x y
|}.

End Window.

(* ===================================================================== *)
(** ** The module [hrv_rsa] *)
(* ===================================================================== *)

Module Rsa.
Import Np.

(** *** Collaborators from the rest of the package *)

Record filter_args := {
  fa_sampling_rate : Z;
  fa_lowcut : option Q;
  fa_highcut : option Q;
  fa_method : option string;
  fa_order : option Z;
  fa_window_size : option Z
}.

Record timefrequency_args := {
  tf_sampling_rate : Z;
  tf_min_frequency : Q;
  tf_max_frequency : Q;
  tf_method : string;
  tf_window : Z;
  tf_window_type : list npfloat;
  tf_overlap : Z;
  tf_show : bool
}.

(** [x_new] of [signal_interpolate]: sample positions, or a length. *)
Inductive x_new := XArray (x : list Z) | XLength (n : nat).

Record SignalUtils := {
  signal_resample : list npfloat -> Z -> Z -> list npfloat;
  signal_filter : list npfloat -> filter_args -> list npfloat;
  signal_interpolate :
    list Z -> list npfloat -> x_new -> option string -> list npfloat;
  (* the time axis and the power, one row per frequency *)
  signal_timefrequency :
    list npfloat -> timefrequency_args -> list Q * list (list npfloat);
  (* the interpolated intervals and their sampling rate *)
  _hrv_get_rri : list Z -> Z -> bool -> list npfloat * Z
}.

(** *** Data *)

(** One sample of the table [signals]: the columns [hrv_rsa] reads. *)
Record sample := {
  RSP_Phase : npfloat;
  RSP_Phase_Completion : npfloat;
  RSP_Peaks : npfloat
}.

(** The dictionary [_hrv_rsa_cycles] returns. *)
Record cycles := {
  RSP_Inspiration_Onsets : list Z;
  RSP_Expiration_Onsets : list Z;
  RSP_Cycles_Length : list Z
}.

(** What [hrv_rsa] returns: the summary dictionary, or the data frame with
    the columns [RSA_P2T] and [RSA_Gates]. *)
Inductive rsa_result :=
| Summary (d : gmap string pyval)
| Continuous (RSA_P2T RSA_Gates : list npfloat).

(** A zero-dimensional or one-dimensional array. *)
Inductive ndarray := Scalar (x : npfloat) | Arr (a : list npfloat).

Definition ravel (a : ndarray) : list npfloat :=
  match a with Scalar x => [x] | Arr l => l end.

Definition amap (f : npfloat -> npfloat) (a : ndarray) : ndarray :=
  match a with Scalar x => Scalar (f x) | Arr l => Arr (map f l) end.

(** [a[0]], [a[-1]] of such an array. *)
Definition afirst (a : ndarray) : result npfloat :=
  match a with Scalar _ => Raise IndexError | Arr l => getitem l 0 end.

Definition alast (a : ndarray) : result npfloat :=
  match a with Scalar _ => Raise IndexError | Arr l => getlast l end.

(** *** [_hrv_rsa_cycles] *)

Definition column_eq (col : sample -> npfloat) (v : Z) (signals : list sample)
  : list bool :=
  map (fun s => feqb (col s) (of_Z v)) signals.

Definition _hrv_rsa_cycles (signals : list sample) : cycles :=
  let inspiration_onsets :=
    intersect1d (np_where (column_eq RSP_Phase 1 signals))
                (np_where (column_eq RSP_Phase_Completion 0 signals)) in
  let expiration_onsets :=
    intersect1d (np_where (column_eq RSP_Phase 0 signals))
                (np_where (column_eq RSP_Phase_Completion 0 signals)) in
  let cycles_length := np_diff inspiration_onsets in
  {| RSP_Inspiration_Onsets := inspiration_onsets;
     RSP_Expiration_Onsets := expiration_onsets;
     RSP_Cycles_Length := cycles_length |}.

(** *** [_hrv_rsa_p2t] *)

(** [rpeaks[np.logical_and(rpeaks >= cycle_init, rpeaks < cycle_end)]]. *)
Definition peaks_within (rpeaks : list Z) (cycle_init cycle_end : Z) : list Z :=
  compress (map (fun r => (cycle_init <=? r)%Z && (r <? cycle_end)%Z) rpeaks)
           rpeaks.

(** The first loop, [for idx in range(len(rsp_onsets) - 1)]. *)
Fixpoint collect_cycles (rsp_onsets rpeaks : list Z) (idxs : list nat)
    (cycles_rri : list (list Z)) : result (list (list Z)) :=
  match idxs with
  | [] => Ok cycles_rri
  | idx :: rest =>
      cycle_init ← getitem rsp_onsets idx;
      cycle_end ← getitem rsp_onsets (idx + 1);
      collect_cycles rsp_onsets rpeaks rest
        (cycles_rri ++ [peaks_within rpeaks cycle_init cycle_end])
  end.

(** [np.diff(cycle) / sampling_rate]. *)
Definition intervals (cycle : list Z) (sampling_rate : Z) : list npfloat :=
  map (fun d => fdiv (of_Z d) (of_Z sampling_rate)) (np_diff cycle).

(** The second loop, [for i, cycle in enumerate(cycles_rri)]. *)
Fixpoint cycle_values (sampling_rate : Z) (i : nat) (cycles_rri : list (list Z))
    (rsa_values : list npfloat) : result (list npfloat) :=
  match cycles_rri with
  | [] => Ok rsa_values
  | cycle :: rest =>
      let RRis := intervals cycle sampling_rate in
      if (1 <? length RRis)%nat then
        hi ← np_max RRis;
        lo ← np_min RRis;
        cycle_values sampling_rate (S i) rest (<[i := fsub hi lo]> rsa_values)
      else cycle_values sampling_rate (S i) rest rsa_values
  end.

(** The per-cycle estimates (lines 209-222). *)
Definition p2t_values (rsp_onsets rpeaks : list Z) (sampling_rate : Z)
  : result (list npfloat) :=
  cycles_rri ← collect_cycles rsp_onsets rpeaks
                 (seq 0 (length rsp_onsets - 1)) [];
  cycle_values sampling_rate 0 cycles_rri (np_full (length cycles_rri) NaN).

Definition _hrv_rsa_p2t (lm : Libm) (su : SignalUtils)
    (rsp_onsets rpeaks : list Z) (sampling_rate : Z) (continuous : bool)
    (ecg_period : list npfloat) (rsp_peaks : list Z) : result pyobj :=
  rsa_values ← p2t_values rsp_onsets rpeaks sampling_rate;
  if negb continuous then
    let mean := nanmean rsa_values in
    let rsa : gmap string pyval := {[ "RSA_P2T_Mean" := VFloat mean ]} in
    let rsa := <[ "RSA_P2T_Mean_log" := VFloat (log lm mean) ]> rsa in
    let rsa := <[ "RSA_P2T_SD" := VFloat (nanstd lm rsa_values 1) ]> rsa in
    let rsa := <[ "RSA_P2T_NoRSA" := VInt (count_null rsa_values) ]> rsa in
    Ok (ODict rsa)
  else
    let valid := map (fun v => negb (isnan v)) rsa_values in
    x_values ← bool_index rsp_peaks valid;
    y_values ← bool_index rsa_values valid;
    Ok (OArray (signal_interpolate su x_values y_values
                  (XArray (map Z.of_nat (seq 0 (length ecg_period)))) None)).

(** *** [_hrv_rsa_pb] *)

(** [time // 30] for [time = i / 2]. *)
Definition epoch_index (i : nat) : Z :=
  Qfloor (inject_Z (Z.of_nat i) / 2 / 30).

(** [time.loc[e]]: the samples whose epoch index is [e]. *)
Definition epoch (signal : list npfloat) (e : nat) : list npfloat :=
  compress (map (fun i => (epoch_index i =? Z.of_nat e)%Z) (seq 0 (length signal)))
           signal.

(** [np.log(epoch.var(axis=0) / 1000)]; pandas' variance skips NaN and has
    [ddof=1]. *)
Definition epoch_log_variance (lm : Libm) (ep : list npfloat) : npfloat :=
  log lm (fdiv (nanvar ep 1) (of_Z 1000)).

(** [int(np.max(time.index.values)) + 1]: the number of epochs; the maximum
    of an empty index is a [ValueError]. *)
Definition epoch_count (n : nat) : result nat :=
  match n with
  | O => Raise ValueError
  | S _ => Ok (Z.to_nat (foldr Z.max 0%Z (map epoch_index (seq 0 n))) + 1)%nat
  end.

(** [pd.concat(variance).mean()]: nothing to concatenate is a [ValueError]. *)
Definition concat_mean (variance : list npfloat) : result npfloat :=
  match variance with
  | [] => Raise ValueError
  | _ => Ok (nanmean variance)
  end.

(** Lines 244-255: the heart period at 2 Hz, detrended and band-passed. *)
Definition pb_residual (su : SignalUtils) (ecg_period : list npfloat)
    (sampling_rate : Z) : list npfloat :=
  let resampled := signal_resample su ecg_period sampling_rate 2 in
  let trend := signal_filter su resampled
    {| fa_sampling_rate := 2; fa_lowcut := Some (95 # 1000);
       fa_highcut := None; fa_method := Some "savgol";
       fa_order := Some 3%Z; fa_window_size := Some 21%Z |} in
  let zero_mean := zip_with fsub resampled trend in
  signal_filter su zero_mean
    {| fa_sampling_rate := 2; fa_lowcut := Some (12 # 100);
       fa_highcut := Some (40 # 100); fa_method := None;
       fa_order := None; fa_window_size := None |}.

(** Lines 257-265: the log-variance of every 30-second epoch. *)
Definition epoch_log_variances (lm : Libm) (zero_mean_filtered : list npfloat)
  : result (list npfloat) :=
  n ← epoch_count (length zero_mean_filtered);
  let epochs := map (epoch zero_mean_filtered) (seq 0 n) in
  Ok (map (epoch_log_variance lm) epochs).

Definition _hrv_rsa_pb (lm : Libm) (su : SignalUtils)
    (ecg_period : list npfloat) (sampling_rate : Z) (continuous : bool)
  : result pyobj :=
  if continuous then Ok ONone
  else
    let zero_mean_filtered := pb_residual su ecg_period sampling_rate in
    variance ← epoch_log_variances lm zero_mean_filtered;
    let variance := filter (fun row => isnan row = false) variance in
    m ← concat_mean variance;
    Ok (ODict {[ "RSA_PorgesBohrer" := VFloat m ]}).

(** *** [_hrv_rsa_gates] *)

Definition matrix_shape (m : list (list npfloat)) : list nat := map length m.

(** [psd * w]. *)
Definition mscale (m : list (list npfloat)) (w : npfloat) : list (list npfloat) :=
  map (map (fun x => fmul x w)) m.

(** [a + b] for arrays of one shape; other shapes are refused (numpy would
    first try to broadcast axes of length one, which the spectrograms of
    one series do not need). *)
Definition madd (a b : list (list npfloat)) : result (list (list npfloat)) :=
  if bool_decide (matrix_shape a = matrix_shape b)
  then Ok (zip_with (zip_with fadd) a b)
  else Raise ValueError.

Definition zeros_like (m : list (list npfloat)) : list (list npfloat) :=
  map (map (fun _ => Fin 0%Qc)) m.

(** The body of [for i in range(4)], over the indices still to visit; the
    state is the pair [time], [rsa]. *)
Fixpoint gates_loop (su : SignalUtils) (rri : list npfloat)
    (desired_sampling_rate window overlap : Z)
    (multipeak : list (list npfloat)) (weight : list npfloat)
    (idxs : list nat) (st : list Q * list (list npfloat))
  : result (list Q * list (list npfloat)) :=
  match idxs with
  | [] => Ok st
  | i :: rest =>
      taper ← getitem multipeak i;
      let '(time, psd) := signal_timefrequency su rri
        {| tf_sampling_rate := desired_sampling_rate;
           tf_min_frequency := 12 # 100;
           tf_max_frequency := 40 # 100;
           tf_method := "stft";
           tf_window := window;
           tf_window_type := taper;
           tf_overlap := overlap;
           tf_show := false |} in
      let rsa := if (i =? 0)%nat then zeros_like psd else snd st in
      w ← getitem weight i;
      rsa ← madd (mscale psd w) rsa;
      gates_loop su rri desired_sampling_rate window overlap multipeak weight
                 rest (time, rsa)
  end.

(** Python's [sum(rsa)]: [0 + rsa[0] + rsa[1] + ...] over the rows. *)
Definition py_sum_rows (rows : list (list npfloat)) : ndarray :=
  match rows with
  | [] => Scalar (of_Z 0)
  | r :: rs => Arr (fold_left (zip_with fadd) rs (map (fadd (of_Z 0)) r))
  end.

(** [np.arange(start, stop)] with step one. *)
Definition arange (start stop : Q) : list Q :=
  map (fun k => (start + inject_Z (Z.of_nat k))%Q)
      (seq 0 (Z.to_nat (Qceiling (stop - start)))).

(** [x.astype(int)]: towards zero. *)
Definition astype_int (x : Q) : Z := Z.quot (Qnum x) (Z.pos (Qden x)).

Definition _hrv_rsa_gates (lm : Libm) (su : SignalUtils)
    (la : Window.LinAlg npfloat)
    (ecg_signals_len : nat) (rpeaks : list Z) (sampling_rate : Z)
    (window : Z) (window_number : option nat) (continuous : bool)
  : result pyobj :=
  let '(rri, sampling_rate) := _hrv_get_rri su rpeaks sampling_rate true in
  let desired_sampling_rate := 4%Z in
  let rri := signal_resample su rri sampling_rate desired_sampling_rate in
  let overlap := ((window - 1) * desired_sampling_rate)%Z in
  let nperseg := (window * desired_sampling_rate)%Z in
  let window_number := default 8%nat window_number in
  '(multipeak, weight) ←
    Window._get_multipeak_window (ops := Window.npfloat_ops lm) la
      nperseg window_number;
  '(time, rsa) ← gates_loop su rri desired_sampling_rate window overlap
                   multipeak weight (seq 0 4) ([], []);
  let meanRSA :=
    amap (fun s => log lm (fdiv (fmul (of_Z 2) s) (of_Z nperseg)))
         (py_sum_rows rsa) in
  if negb continuous then
    let mean := nanmean (ravel meanRSA) in
    let rsa : gmap string pyval := {[ "RSA_Gates_Mean" := VFloat mean ]} in
    let rsa := <[ "RSA_Gates_Mean_log" := VFloat (log lm mean) ]> rsa in
    let rsa := <[ "RSA_Gates_SD" := VFloat (nanstd lm (ravel meanRSA) 1) ]> rsa in
    Ok (ODict rsa)
  else
    let pad_length := (inject_Z window / 2)%Q in
    let time_start := arange 0 pad_length in
    t_last ← getlast time;
    let time_end := tail (arange t_last (t_last + pad_length)) in
    let time := time_start ++ time ++ time_end in
    first ← afirst meanRSA;
    let rsa_start := np_full (length time_start) first in
    final ← alast meanRSA;
    let rsa_end := np_full (length time_end) final in
    let meanRSA := rsa_start ++ ravel meanRSA ++ rsa_end in
    let time := map (fun t => (t * inject_Z sampling_rate)%Q) time in
    Ok (OArray (signal_interpolate su (map astype_int time) meanRSA
                  (XLength ecg_signals_len) (Some "monotone_cubic"))).

(** *** [hrv_rsa] *)

(** What [_hrv_rsa_formatinput] hands over: the table [signals], the heart
    period, the R-peaks, and the length of [ecg_signals]. *)
Record formatted := {
  signals : list sample;
  ecg_period : list npfloat;
  rpeaks : list Z;
  ecg_signals_len : nat
}.

(** [len(x)] of the objects at hand. *)
Definition py_len (x : pyobj) : result nat :=
  match x with
  | ODict d => Ok (size d)
  | OArray a => Ok (length a)
  | OFloat _ | ONone => Raise TypeError
  end.

(** [pd.DataFrame({"RSA_P2T": p, "RSA_Gates": g})] of two arrays: they must
    have one length. *)
Definition data_frame (p g : pyobj) : result rsa_result :=
  match p, g with
  | OArray a, OArray b =>
      if (length a =? length b)%nat then Ok (Continuous a b)
      else Raise ValueError
  | _, _ => Raise ValueError
  end.

(** [rsp_peaks[rsp_peaks > onset]]. *)
Definition peaks_after (rsp_peaks : list Z) (onset : Z) : list Z :=
  compress (map (fun p => (onset <? p)%Z) rsp_peaks) rsp_peaks.

Definition hrv_rsa (lm : Libm) (su : SignalUtils) (la : Window.LinAlg npfloat)
    (input : formatted) (sampling_rate : Z) (continuous : bool)
    (window : option Z) (window_number : option nat) : W rsa_result :=
  let signals := signals input in
  let ecg_period := ecg_period input in
  let rpeaks := rpeaks input in
  (* Extract cycles *)
  let rsp_cycles := _hrv_rsa_cycles signals in
  let rsp_onsets := RSP_Inspiration_Onsets rsp_cycles in
  let rsp_peaks := np_where (column_eq RSP_Peaks 1 signals) in
  let! onset0 := lift (getitem rsp_onsets 0) in
  let rsp_peaks := peaks_after rsp_peaks onset0 in
  let rsp_peaks :=
    if (Z.of_nat (length rsp_peaks) - Z.of_nat (length rsp_onsets) =? 0)%Z
    then removelast rsp_peaks else rsp_peaks in
  do! (if negb (Z.of_nat (length rsp_peaks) - Z.of_nat (length rsp_onsets) =? -1)%Z
       then warn CyclesWarning else wret tt) in
  (* Peak-to-Trough *)
  let! rsa_p2t := lift (_hrv_rsa_p2t lm su rsp_onsets rpeaks sampling_rate
                          continuous ecg_period rsp_peaks) in
  (* Porges-Bohrer *)
  let! rsa_pb := lift (_hrv_rsa_pb lm su ecg_period sampling_rate continuous) in
  (* RSAsecondbysecond *)
  let window := default 32%Z window in
  let! rpeak_last := lift (getlast rpeaks) in
  let input_duration := fdiv (of_Z rpeak_last) (of_Z sampling_rate) in
  let! rsa_gates :=
    if fleb (of_Z window) input_duration then
      lift (_hrv_rsa_gates lm su la (ecg_signals_len input) rpeaks sampling_rate
              window window_number continuous)
    else
      do! warn (ShortRecordingWarning window) in
      if negb continuous then wret (OFloat NaN)
      else let! n := lift (py_len rsa_p2t) in wret (OArray (np_full n NaN)) in
  if negb continuous then
    let rsa : gmap string pyval := ∅ in
    let! rsa := lift (dict_update rsa rsa_p2t) in
    let! rsa := lift (dict_update rsa rsa_pb) in
    let! rsa := lift (dict_update rsa rsa_gates) in
    wret (Summary rsa)
  else lift (data_frame rsa_p2t rsa_gates).

End Rsa.

(* ===================================================================== *)
(** ** The input formatter [_hrv_rsa_formatinput] *)
(* ===================================================================== *)

Module Format.
Import Np.

(** *** Python objects and exceptions *)

(** The exceptions of the formatter: the built-in ones above, and those of
    a missing attribute, key or name.  [UnboundLocalError] is a subclass of
    [NameError]. *)
Inductive pyexn :=
| Builtin (e : exn)
| KeyError
| AttributeError
| NameError
| UnboundLocalError.

Definition is_name_error (e : pyexn) : bool :=
  match e with NameError | UnboundLocalError => true | _ => false end.

Inductive outcome (A : Type) := Return (a : A) | Throw (e : pyexn).
Arguments Return {A} a.
Arguments Throw {A} e.

(** The two messages of the formatter. *)
Inductive fwarning :=
| RspMissingWarning   (* "RSP signal not found. For this time, we will derive..." *)
| RspColumnsWarning.  (* "RSP signal not found. RSP signal is derived from ECG..." *)

Definition M (A : Type) : Type := list fwarning -> outcome A * list fwarning.

Definition fret {A} (a : A) : M A := fun ws => (Return a, ws).
Definition fbind {A B} (c : M A) (k : A -> M B) : M B :=
  fun ws => match c ws with
            | (Return a, ws') => k a ws'
            | (Throw e, ws') => (Throw e, ws')
            end.
Definition throw {A} (e : pyexn) : M A := fun ws => (Throw e, ws).
Definition fwarn (w : fwarning) : M unit := fun ws => (Return tt, ws ++ [w]).
Definition flift {A} (r : outcome A) : M A := fun ws => (r, ws).
Definition frun {A} (c : M A) : outcome A * list fwarning := c [].

Declare Scope format_scope.
Delimit Scope format_scope with format.
Notation "'let!' x ':=' c 'in' k" := (fbind c (fun x => k))
  (at level 10, x name, c at level 100, k at level 200) : format_scope.
Notation "'do!' c 'in' k" := (fbind c (fun _ => k))
  (at level 10, c at level 100, k at level 200) : format_scope.
Local Open Scope format_scope.

(** A [pd.DataFrame] with the default index and string labels: the number
    of rows and the columns in order.  Labels may repeat. *)
Record frame := {
  nrows : nat;
  cols : list (string * list npfloat)
}.

Definition columns (df : frame) : list string := map fst (cols df).

(** [df[name].values]: one column gives a one-dimensional array, a repeated
    label a two-dimensional one, an absent label a [KeyError]. *)
Inductive values :=
| Values1 (a : list npfloat)
| Values2 (by_column : list (list npfloat)).

Definition frame_values (df : frame) (name : string) : outcome values :=
  match List.filter (fun c => String.eqb (fst c) name) (cols df) with
  | [] => Throw KeyError
  | [c] => Return (Values1 (snd c))
  | cs => Return (Values2 (map snd cs))
  end.

(** What callers pass for [ecg_signals], [rsp_signals] and [rpeaks]. *)
#[warnings="-register-all"]
Inductive pyarg :=
| ANone
| AFrame (df : frame)
| ATuple (items : list pyarg)
| ADict (d : list (string * list Z))
| AArray (a : list Z).

(** [needle in hay] on strings: a substring test. *)
Fixpoint py_in (needle hay : string) : bool :=
  String.prefix needle hay ||
  match hay with
  | EmptyString => false
  | String _ rest => py_in needle rest
  end.

(** [[col for col in df.columns if needle in col]]. *)
Definition columns_with (needle : string) (df : frame) : list string :=
  List.filter (py_in needle) (columns df).

(** [x.columns]: only a frame has the attribute. *)
Definition get_columns (x : pyarg) : outcome frame :=
  match x with
  | AFrame df => Return df
  | _ => Throw AttributeError
  end.

(** [pd.concat(objs, axis=1)] of frames with the default index: [None]
    entries are dropped; nothing left is a [ValueError], anything but a
    frame a [TypeError]; the columns are put side by side, the shorter ones
    filled with NaN. *)
Definition pad (n : nat) (c : string * list npfloat) : string * list npfloat :=
  (fst c, snd c ++ replicate (n - length (snd c)) NaN).

Fixpoint frames_of (objs : list pyarg) : outcome (list frame) :=
  match objs with
  | [] => Return []
  | ANone :: rest => frames_of rest
  | AFrame df :: rest =>
      match frames_of rest with
      | Return dfs => Return (df :: dfs)
      | Throw e => Throw e
      end
  | _ :: _ => Throw (Builtin TypeError)
  end.

Definition pd_concat (objs : list pyarg) : outcome frame :=
  if forallb (fun o => match o with ANone => true | _ => false end) objs
  then Throw (Builtin ValueError)
  else
    match frames_of objs with
    | Return dfs =>
        let n := foldr Nat.max 0%nat (map nrows dfs) in
        Return {| nrows := n; cols := map (pad n) (concat (map cols dfs)) |}
    | Throw e => Throw e
    end.

(** *** Collaborators from the rest of the package *)

Record Collaborators := {
  (* signal_rate(rpeaks, sampling_rate, desired_length) *)
  signal_rate : pyarg -> Z -> nat -> outcome (list npfloat);
  (* ecg_rsp(ecg_period, sampling_rate) *)
  ecg_rsp : values -> Z -> outcome (list npfloat);
  (* rsp_process(edr, sampling_rate)[0] *)
  rsp_process : list npfloat -> Z -> outcome frame;
  _signal_formatpeaks_sanitize : pyarg -> outcome (list Z)
}.

(** *** [_hrv_rsa_formatinput] *)

(** Reading a local variable that no branch has bound. *)
Definition read_local {A} (x : option A) : M A :=
  match x with
  | Some a => fret a
  | None => throw UnboundLocalError
  end.

(** Lines 486-488. *)
Definition unpack_ecg (ecg_signals rpeaks : pyarg) : M (pyarg * pyarg) :=
  match ecg_signals with
  | ATuple [] => throw (Builtin IndexError)
  | ATuple (first :: _) => fret (first, ANone)
  | _ => fret (ecg_signals, rpeaks)
  end.

(** Lines 490-502: the heart period, when [ecg_signals] is a frame. *)
Definition heart_period (co : Collaborators) (ecg_signals rpeaks : pyarg)
    (sampling_rate : Z) : M (option values) :=
  match ecg_signals with
  | AFrame df =>
      match columns_with "ECG_Rate" df with
      | col :: _ =>
          let! v := flift (frame_values df col) in fret (Some v)
      | [] =>
          match columns_with "ECG_R_Peaks" df with
          | _ :: _ =>
              let! r := flift (signal_rate co rpeaks sampling_rate (nrows df)) in
              fret (Some (Values1 r))
          | [] => throw (Builtin ValueError)
          end
      end
  | _ => fret None
  end.

(** Lines 506-513 and 520-525: the respiration derived from the ECG, with
    the warning [w]. *)
Definition derive_rsp (co : Collaborators) (ecg_period : option values)
    (sampling_rate : Z) (w : fwarning) : M pyarg :=
  let! period := read_local ecg_period in
  let! edr := flift (ecg_rsp co period sampling_rate) in
  let! rsp_signals := flift (rsp_process co edr sampling_rate) in
  do! fwarn w in
  fret (AFrame rsp_signals).

(** Lines 503-515. *)
Definition rsp_from_argument (co : Collaborators) (ecg_signals rsp_signals : pyarg)
    (ecg_period : option values) (sampling_rate : Z) : M pyarg :=
  match rsp_signals with
  | ANone =>
      let! df := flift (get_columns ecg_signals) in
      if negb (length (columns_with "RSP_Phase" df) =? 2)%nat
      then derive_rsp co ecg_period sampling_rate RspMissingWarning
      else fret ANone
  | ATuple [] => throw (Builtin IndexError)
  | ATuple (first :: _) => fret first
  | _ => fret rsp_signals
  end.

(** Lines 517-525. *)
Definition rsp_checked (co : Collaborators) (rsp_signals : pyarg)
    (ecg_period : option values) (sampling_rate : Z) : M pyarg :=
  match rsp_signals with
  | AFrame df =>
      if negb (length (columns_with "RSP_Phase" df) =? 2)%nat
      then derive_rsp co ecg_period sampling_rate RspColumnsWarning
      else fret rsp_signals
  | _ => fret rsp_signals
  end.

(** Lines 527-535: [except NameError] also catches its subclass. *)
Definition sanitized_rpeaks (co : Collaborators) (ecg_signals rpeaks : pyarg)
  : M (list Z) :=
  match rpeaks with
  | ANone =>
      match _signal_formatpeaks_sanitize co ecg_signals with
      | Return r => fret r
      | Throw e => if is_name_error e then throw (Builtin ValueError) else throw e
      end
  | _ => flift (_signal_formatpeaks_sanitize co rpeaks)
  end.

(** Lines 540-547. *)
Definition rsp_signal_of (signals : frame) : M (option values) :=
  if bool_decide ("RSP_Clean" ∈ columns signals) then
    let! v := flift (frame_values signals "RSP_Clean") in fret (Some v)
  else if bool_decide ("RSP_Raw" ∈ columns signals) then
    let! v := flift (frame_values signals "RSP_Raw") in fret (Some v)
  else if bool_decide ("RSP" ∈ columns signals) then
    let! v := flift (frame_values signals "RSP") in fret (Some v)
  else fret None.

Definition _hrv_rsa_formatinput (co : Collaborators)
    (ecg_signals rsp_signals rpeaks : pyarg) (sampling_rate : Z)
  : M (frame * values * list Z * option values) :=
  let! unpacked := unpack_ecg ecg_signals rpeaks in
  let ecg_signals := fst unpacked in
  let rpeaks := snd unpacked in
  let! ecg_period := heart_period co ecg_signals rpeaks sampling_rate in
  let! rsp_signals :=
    rsp_from_argument co ecg_signals rsp_signals ecg_period sampling_rate in
  let! rsp_signals := rsp_checked co rsp_signals ecg_period sampling_rate in
  let! rpeaks := sanitized_rpeaks co ecg_signals rpeaks in
  let! signals := flift (pd_concat [ecg_signals; rsp_signals]) in
  let! rsp_signal := rsp_signal_of signals in
  let! ecg_period := read_local ecg_period in
  fret (signals, ecg_period, rpeaks, rsp_signal).

End Format.


(* ===================================================================== *)
(** ** [eda_intervalrelated] *)
(* ===================================================================== *)

Module Eda.
Import Np Format.

(** What callers pass for [data]: a table, a dictionary of tables (of
    any objects, in insertion order, the keys distinct), or something else. *)
Inductive edata :=
| EFrame (df : frame)
| EDict (items : list (string * pyarg))
| EOther.

(** The label of a row of the result: [0] for a table, the key for a
    dictionary. *)
Inductive row_label := RowInt (i : Z) | RowKey (key : string).

(** [np.sum(v)] and [np.nansum(v)] of the values of a column, of all the
    entries when the label repeats. *)
Definition values_entries (v : values) : list npfloat :=
  match v with
  | Values1 a => a
  | Values2 by_column => concat by_column
  end.

Definition values_sum (v : values) : npfloat := np_sum (values_entries v).

Definition values_nansum (v : values) : npfloat :=
  np_sum (fst (replace_nan (values_entries v))).

(** [_eda_intervalrelated_formatinput(interval, output)]. *)
Definition _eda_intervalrelated_formatinput (interval : pyarg)
    (output : gmap string npfloat) : outcome (gmap string npfloat) :=
  match get_columns interval with
  | Throw e => Throw e
  | Return df =>
      if (length (columns_with "SCR_Peaks" df) =? 0)%nat
      then Throw (Builtin ValueError)
      else if (length (columns_with "SCR_Amplitude" df) =? 0)%nat
      then Throw (Builtin ValueError)
      else
        match frame_values df "SCR_Peaks" with
        | Throw e => Throw e
        | Return peaks =>
            match frame_values df "SCR_Amplitude" with
            | Throw e => Throw e
            | Return amplitude =>
                let output := <[ "SCR_Peaks_N" := values_sum peaks ]> output in
                if feqb (values_sum peaks) (of_Z 0)
                then Return (<[ "SCR_Peaks_Amplitude_Mean" := NaN ]> output)
                else Return (<[ "SCR_Peaks_Amplitude_Mean" :=
                                  fdiv (values_sum amplitude) (values_sum peaks) ]>
                               output)
            end
        end
  end.

(** The loop [for index in data] (lines 77-80): the first interval that is
    refused ends it. *)
Fixpoint format_intervals (items : list (string * pyarg))
  : outcome (list (row_label * gmap string npfloat)) :=
  match items with
  | [] => Return []
  | (index, interval) :: rest =>
      match _eda_intervalrelated_formatinput interval ∅ with
      | Throw e => Throw e
      | Return row =>
          match format_intervals rest with
          | Throw e => Throw e
          | Return rows => Return ((RowKey index, row) :: rows)
          end
      end
  end.

(** The result is a data frame with the two columns [SCR_Peaks_N] and
    [SCR_Peaks_Amplitude_Mean]: its rows, each with its label. *)
Definition eda_intervalrelated (data : edata)
  : outcome (list (row_label * gmap string npfloat)) :=
  match data with
  | EFrame df =>
      match columns_with "SCR_Peaks" df with
      | [peaks_col] =>
          match frame_values df peaks_col with
          | Throw e => Throw e
          | Return peaks =>
              let intervals : gmap string npfloat :=
                {[ "Peaks_N" := values_sum peaks ]} in
              match columns_with "SCR_Amplitude" df with
              | [amp_col] =>
                  match frame_values df amp_col with
                  | Throw e => Throw e
                  | Return amplitude =>
                      let intervals :=
                        <[ "Peaks_Amplitude_Mean" :=
                             fdiv (values_nansum amplitude) (values_sum peaks) ]>
                          intervals in
                      (* .T.add_prefix("SCR_") *)
                      Return [(RowInt 0,
                               kmap (String.append "SCR_") intervals)]
                  end
              | _ => Throw (Builtin ValueError)
              end
          end
      | _ => Throw (Builtin ValueError)
      end
  | EDict items => format_intervals items
  | EOther => Throw UnboundLocalError
  end.

End Eda.

(* ===================================================================== *)
(** ** [hrv_time] *)
(* ===================================================================== *)

Module HrvTime.
Import Np.

(** What callers pass for [peaks]: a dictionary from labels to arrays of
    sample positions (in insertion order, the keys distinct), or something
    else. *)
Inductive peaks_arg :=
| PDict (items : list (string * list Z))
| POther.

(** The routines [hrv_time] takes from numpy and from [stats.mad]. *)
Record Stats := {
  np_median : list npfloat -> npfloat;
  mad : list npfloat -> npfloat;
  (* np.histogram(a, bins="auto"): the counts and the bin edges; a range
     that is not finite is refused *)
  np_histogram_auto : list npfloat -> result (list npfloat * list npfloat)
}.

(** [np.diff] of an array of doubles. *)
Definition fdiff (a : list npfloat) : list npfloat := zip_with fsub (tail a) a.

Definition fabs (x : npfloat) : npfloat :=
  match x with
  | NaN => NaN
  | PInf | NInf => PInf
  | Fin q => if Qle_bool 0 q then Fin q else Fin (- q)%Qc
  end.

(** [x > y] on doubles: false as soon as one side is NaN. *)
Definition fgtb (x y : npfloat) : bool := fleb y x && negb (feqb x y).

(** [np.mean(a)]: the sum over the length, NaN for an empty array. *)
Definition np_mean (a : list npfloat) : npfloat :=
  fdiv (np_sum a) (of_Z (Z.of_nat (length a))).

(** [np.std(a, ddof)], numpy's [_var]: the squared deviations from the
    mean, over [max(n - ddof, 0)]. *)
Definition np_std (lm : Libm) (a : list npfloat) (ddof : Z) : npfloat :=
  let arrmean := np_mean a in
  let x := map (fun v => fsub v arrmean) a in
  let ret := np_sum (map (fun v => fmul v v) x) in
  let rcount := Z.max (Z.of_nat (length a) - ddof) 0 in
  sqrt lm (fdiv ret (of_Z rcount)).

(** [np.sum(cond)] of a boolean array. *)
Definition count_true (cond : list bool) : Z :=
  Z.of_nat (length (List.filter (fun b : bool => b) cond)).

Definition hrv_time (lm : Libm) (st : Stats) (peaks : peaks_arg) (sampling_rate : Z)
  : result (gmap string npfloat) :=
  match peaks with
  | POther => Raise ValueError
  | PDict items =>
      if negb (length items =? 1)%nat then Raise ValueError
      else
        match items with
        | (key, peaks) :: _ =>
            if negb (bool_decide (key ∈ ["ECG_R_Peaks"; "PPG_Peaks"]))
            then Raise ValueError
            else
              (* Compute heart period in milliseconds. *)
              let heart_period :=
                map (fun d => fmul (fdiv (of_Z d) (of_Z sampling_rate)) (of_Z 1000))
                    (np_diff peaks) in
              let diff_period := fdiff heart_period in
              let out : gmap string npfloat := ∅ in
              (* Mean based *)
              let RMSSD :=
                sqrt lm (np_mean (map (fun v => fmul v v) diff_period)) in
              let out := <[ "RMSSD" := RMSSD ]> out in
              let MeanNN := np_mean heart_period in
              let out := <[ "MeanNN" := MeanNN ]> out in
              let SDNN := np_std lm heart_period 1 in
              let out := <[ "SDNN" := SDNN ]> out in
              let out := <[ "SDSD" := np_std lm diff_period 1 ]> out in
              let out := <[ "CVNN" := fdiv SDNN MeanNN ]> out in
              let out := <[ "CVSD" := fdiv RMSSD MeanNN ]> out in
              (* Robust *)
              let MedianNN := np_median st (map fabs heart_period) in
              let out := <[ "MedianNN" := MedianNN ]> out in
              let MadNN := mad st heart_period in
              let out := <[ "MadNN" := MadNN ]> out in
              let out := <[ "MCVNN" := fdiv MadNN MedianNN ]> out in
              (* Extreme-based *)
              let nn50 :=
                count_true (map (fun v => fgtb (fabs v) (of_Z 50)) diff_period) in
              let nn20 :=
                count_true (map (fun v => fgtb (fabs v) (of_Z 20)) diff_period) in
              let n := of_Z (Z.of_nat (length heart_period)) in
              let out := <[ "pNN50" := fmul (fdiv (of_Z nn50) n) (of_Z 100) ]> out in
              let out := <[ "pNN20" := fmul (fdiv (of_Z nn20) n) (of_Z 100) ]> out in
              (* Geometrical domain *)
              '(bar_y, bar_x) ← np_histogram_auto st heart_period;
              hi ← np_max bar_x;
              lo ← np_min bar_x;
              let out := <[ "TINN" := fsub hi lo ]> out in
              top ← np_max bar_y;
              let out := <[ "HTI" := fdiv n top ]> out in
              Ok out
        | [] => Raise ValueError
        end
  end.

End HrvTime.


(* ===================================================================== *)
(** ** The vocabulary of the properties *)
(* ===================================================================== *)

Import Np Rsa.

(** *** The cycle extractor *)

(** The selection step of [intersect1d]: the values equal to their successor. *)
Definition adjacent_equal (aux : list Z) : list Z :=
  compress (zip_with Z.eqb (tail aux) (removelast aux)) (removelast aux).

(** A double that holds the integer [z]. *)
Definition holds (x : npfloat) (z : Z) : Prop := x = of_Z z.

(** Sample [i] starts a phase [phase]: the phase column holds [phase] and
    the completion column holds 0. *)
Definition onset_at (phase : Z) (signals : list sample) (i : Z) : Prop :=
  ∃ (k : nat) (s : sample),
    i = Z.of_nat k ∧ signals !! k = Some s ∧
    holds (RSP_Phase s) phase ∧ holds (RSP_Phase_Completion s) 0.

(** *** The peak-to-trough estimator *)

(** The words of the specification: the R-peaks of a cycle, and their
    successive intervals in seconds. *)
Definition beats_between (rpeaks : list Z) (onset next_onset : Z) : list Z :=
  filter (fun r => (onset <= r < next_onset)%Z) rpeaks.

Definition seconds (samples sampling_rate : Z) : Qc :=
  (Q2Qc (inject_Z samples) / Q2Qc (inject_Z sampling_rate))%Qc.

Definition interbeat_seconds (beats : list Z) (sampling_rate : Z) : list Qc :=
  zip_with (fun next prev => seconds (next - prev) sampling_rate)
           (tail beats) beats.

(** The estimate of one cycle, as the second loop leaves it. *)
Definition fold_max (a : list npfloat) : npfloat :=
  match a with [] => NaN | x :: rest => fold_left fmax rest x end.

Definition fold_min (a : list npfloat) : npfloat :=
  match a with [] => NaN | x :: rest => fold_left fmin rest x end.

Definition cycle_estimate (sampling_rate : Z) (cycle : list Z) : npfloat :=
  let RRis := intervals cycle sampling_rate in
  if (1 <? length RRis)%nat then fsub (fold_max RRis) (fold_min RRis) else NaN.

(** The words of the specification: the defined values, their mean, and
    their sample variance ([ddof = 1]). *)
Definition defined (a : list npfloat) : list npfloat :=
  filter (fun v => isnan v = false) a.

Definition mean (a : list npfloat) : npfloat :=
  fdiv (np_sum a) (of_Z (Z.of_nat (length a))).

Definition sample_variance (a : list npfloat) : npfloat :=
  let m := mean a in
  if (length a <=? 1)%nat then NaN
  else fdiv (np_sum (map (fun x => fmul (fsub x m) (fsub x m)) a))
            (of_Z (Z.of_nat (length a) - 1)).

(** *** The orchestrator *)

(** What follows the cycle check (lines 158-200), for the warnings issued so
    far. *)
Definition hrv_rsa_methods (lm : Libm) (su : SignalUtils)
    (la : Window.LinAlg npfloat) (input : formatted) (sampling_rate : Z)
    (continuous : bool) (window : option Z) (window_number : option nat)
    (rsp_onsets rsp_peaks : list Z) : W rsa_result :=
  let! rsa_p2t := lift (_hrv_rsa_p2t lm su rsp_onsets (rpeaks input) sampling_rate
                          continuous (ecg_period input) rsp_peaks) in
  let! rsa_pb := lift (_hrv_rsa_pb lm su (ecg_period input) sampling_rate continuous) in
  let window := default 32%Z window in
  let! rpeak_last := lift (getlast (rpeaks input)) in
  let input_duration := fdiv (of_Z rpeak_last) (of_Z sampling_rate) in
  let! rsa_gates :=
    if fleb (of_Z window) input_duration then
      lift (_hrv_rsa_gates lm su la (ecg_signals_len input) (rpeaks input)
              sampling_rate window window_number continuous)
    else
      do! warn (ShortRecordingWarning window) in
      if negb continuous then wret (OFloat NaN)
      else let! n := lift (py_len rsa_p2t) in wret (OArray (np_full n NaN)) in
  if negb continuous then
    let rsa : gmap string pyval := ∅ in
    let! rsa := lift (dict_update rsa rsa_p2t) in
    let! rsa := lift (dict_update rsa rsa_pb) in
    let! rsa := lift (dict_update rsa rsa_gates) in
    wret (Summary rsa)
  else lift (data_frame rsa_p2t rsa_gates).

(** The respiration peaks as the estimators receive them: the last one is
    dropped when there are as many peaks as onsets. *)
Definition trimmed_peaks (rsp_peaks rsp_onsets : list Z) : list Z :=
  if (Z.of_nat (length rsp_peaks) - Z.of_nat (length rsp_onsets) =? 0)%Z
  then removelast rsp_peaks else rsp_peaks.

Definition cycles_mismatch (rsp_peaks rsp_onsets : list Z) : bool :=
  negb (Z.of_nat (length (trimmed_peaks rsp_peaks rsp_onsets))
        - Z.of_nat (length rsp_onsets) =? -1)%Z.

(** The keys of the summary dictionary. *)
Definition summary_keys : gset string :=
  {[ "RSA_P2T_Mean"; "RSA_P2T_Mean_log"; "RSA_P2T_SD"; "RSA_P2T_NoRSA";
     "RSA_PorgesBohrer";
     "RSA_Gates_Mean"; "RSA_Gates_Mean_log"; "RSA_Gates_SD" ]}.

(** *** The Gates estimator *)

(** Two arrays hold the same doubles. *)
Definition fsame_matrix (a b : list (list npfloat)) : bool :=
  bool_decide (length a = length b)
  && forallb (fun ok : bool => ok) (zip_with fsame_list a b).

(** The loop ended with the power [expected]. *)
Definition power_is (r : result (list Q * list (list npfloat)))
    (expected : list (list npfloat)) : bool :=
  match r with
  | Ok (_, rsa) => fsame_matrix rsa expected
  | Raise _ => false
  end.

(** The call returned a dictionary whose entry [key] is the double
    [expected]. *)
Definition entry_is (r : result pyobj) (key : string) (expected : npfloat) : bool :=
  match r with
  | Ok (ODict d) =>
      match d !! key with
      | Some (VFloat x) => fsame x expected
      | _ => false
      end
  | _ => false
  end.

(** *** The window generator in real arithmetic *)

(** Factorisations that return the identity matrix. *)
Definition eyeR : Window.matrix R :=
  fun i j => if (i =? j)%nat then 1%R else 0%R.

Definition identity_la : Window.LinAlg R :=
  {| Window.cholesky := fun _ _ => eyeR;
     Window.inv := fun _ _ => eyeR;
     Window.schur := fun _ _ => eyeR |}.

(** *** Collaborators for the examples

    A [Libm], a [SignalUtils] and a [LinAlg] to run the model on concrete
    recordings.  They stand for nothing: every theorem below holds for all
    collaborators, these only show that its hypotheses can be met. *)

Module Stub.

Definition lm : Libm := {|
  np_log := fun x => x;
  np_sqrt := fun x => x;
  np_exp := fun _ => Fin (Q2Qc (1 # 2));
  np_cos := fun _ => Fin 1%Qc;
  np_sin := fun _ => Fin 0%Qc;
  np_log10 := fun _ => Fin 1%Qc;
  np_power := fun x _ => x;
  np_pi := of_Z 3
|}.

Definition su : SignalUtils := {|
  signal_resample := fun signal _ _ => signal;
  signal_filter := fun signal _ => signal;
  signal_interpolate := fun _ _ x _ =>
    match x with
    | XArray l => replicate (length l) (of_Z 0)
    | XLength n => replicate n (of_Z 0)
    end;
  signal_timefrequency := fun _ _ => ([0%Q; 1%Q], [[of_Z 1; of_Z 1]]);
  _hrv_get_rri := fun rpeaks sampling_rate _ =>
    (intervals rpeaks sampling_rate, sampling_rate)
|}.

Definition eye : Window.matrix npfloat :=
  fun i j => if (i =? j)%nat then of_Z 1 else of_Z 0.

Definition la : Window.LinAlg npfloat := {|
  Window.cholesky := fun _ _ => eye;
  Window.inv := fun _ _ => eye;
  Window.schur := fun _ _ => eye
|}.

(** A table of [n] samples: inspiration starts at the samples [onsets], the
    respiration peaks are at [peaks]. *)
Definition table (n : nat) (onsets peaks : list nat) : list sample :=
  map (fun i =>
         {| RSP_Phase := of_Z 1;
            RSP_Phase_Completion :=
              if bool_decide (i ∈ onsets) then of_Z 0 else Fin (Q2Qc (1 # 2));
            RSP_Peaks := if bool_decide (i ∈ peaks) then of_Z 1 else of_Z 0 |})
      (seq 0 n).

Definition recording (n : nat) (onsets peaks : list nat) (rpeaks : list Z)
  : formatted :=
  {| signals := table n onsets peaks;
     ecg_period := replicate n (of_Z 800);
     rpeaks := rpeaks;
     ecg_signals_len := n |}.

End Stub.

(** *** Tactics *)

(** Case analysis on the innermost scrutinee of the goal. *)
Ltac destruct_innermost :=
  match goal with
  | |- context [match ?x with _ => _ end] =>
      lazymatch x with
      | context [match _ with _ => _ end] => fail
      | _ => destruct x eqn:?; simpl
      end
  end.

(** *** The continuous peak-to-trough series *)

(** The knots of the interpolation: the respiration peak and the estimate
    of every cycle with a defined estimate. *)
Definition defined_knots (rsp_peaks : list Z) (rsa_values : list npfloat)
  : list (Z * npfloat) :=
  filter (fun knot => isnan knot.2 = false) (zip rsp_peaks rsa_values).

(** *** The epochs of the Porges-Bohrer estimator *)

(** Consecutive blocks of [size] samples, the last one possibly shorter. *)
Definition blocks (size : nat) (signal : list npfloat) : list (list npfloat) :=
  map (fun e => take size (drop (size * e) signal))
      (seq 0 ((length signal + size - 1) / size)).

(** *** The input formatter *)

(** A frame whose columns all have [nrows] entries. *)
Definition well_formed (df : Format.frame) : Prop :=
  Forall (fun c => length (snd c) = Format.nrows df) (Format.cols df).

(** The table an argument carries: the argument itself, or the first item
    of a tuple. *)
Definition table_of (ecg_signals : Format.pyarg) : option Format.frame :=
  match ecg_signals with
  | Format.AFrame df => Some df
  | Format.ATuple (Format.AFrame df :: _) => Some df
  | _ => None
  end.

(** Collaborators for the examples. *)
Module FormatStub.
Import Format.

Definition co : Collaborators := {|
  signal_rate := fun _ _ n => Return (replicate n (of_Z 60));
  ecg_rsp := fun _ _ => Return [];
  rsp_process := fun _ _ =>
    Return {| nrows := 0;
              cols := [("RSP_Phase", []); ("RSP_Phase_Completion", [])] |};
  _signal_formatpeaks_sanitize := fun x =>
    match x with
    | AArray a => Return a
    | _ => Return []
    end
|}.

(** A table of three rows with the columns of [ecg_process] and
    [rsp_process]. *)
Definition bio : frame := {|
  nrows := 3;
  cols := [("ECG_Rate", [of_Z 60; of_Z 61; of_Z 62]);
           ("ECG_R_Peaks", [of_Z 0; of_Z 1; of_Z 0]);
           ("RSP_Clean", [of_Z 1; of_Z 2; of_Z 3]);
           ("RSP_Phase", [of_Z 1; of_Z 1; of_Z 0]);
           ("RSP_Phase_Completion", [of_Z 0; Fin (Q2Qc (1 # 2)); of_Z 0])]
|}.

End FormatStub.

(** *** [eda_intervalrelated] and [hrv_time] *)

(** The two columns of the result of [eda_intervalrelated]. *)
Definition eda_row (n mean : npfloat) : gmap string npfloat :=
  <[ "SCR_Peaks_Amplitude_Mean" := mean ]> {[ "SCR_Peaks_N" := n ]}.

(** A table of four rows for the examples. *)
Definition eda_table (peaks_label : string) : Format.frame := {|
  Format.nrows := 4;
  Format.cols := [("EDA_Tonic", [of_Z 5; of_Z 5; of_Z 6; of_Z 6]);
                  (peaks_label, [of_Z 0; of_Z 1; of_Z 0; of_Z 1]);
                  ("SCR_Amplitude", [of_Z 0; of_Z 3; of_Z 0; of_Z 1])]
|}.

(** Collaborators for the examples. *)
Module TimeStub.

Definition st : HrvTime.Stats := {|
  HrvTime.np_median := fun a => nth 0 a NaN;
  HrvTime.mad := fun _ => of_Z 1;
  HrvTime.np_histogram_auto := fun a =>
    Ok ([of_Z (Z.of_nat (length a))], [of_Z 0; of_Z 1])
|}.

End TimeStub.

(** Unfolds the steps of the formatter. *)
Ltac run_formatter :=
  unfold Format.frun, Format._hrv_rsa_formatinput, Format.unpack_ecg,
    Format.heart_period, Format.rsp_from_argument, Format.rsp_checked,
    Format.derive_rsp, Format.sanitized_rpeaks, Format.rsp_signal_of,
    Format.read_local, Format.get_columns, Format.fbind, Format.fret,
    Format.throw, Format.fwarn, Format.flift.

(* ===================================================================== *)
(** ** Properties *)
(* ===================================================================== *)

(** *** The cycle extractor *)

Example cycles_example :
  let s p c := {| RSP_Phase := of_Z p; RSP_Phase_Completion := Fin (Q2Qc c);
                  RSP_Peaks := of_Z 0 |} in
  _hrv_rsa_cycles [s 1%Z 0%Q; s 1%Z (1 # 2)%Q; s 0%Z 0%Q; s 0%Z (1 # 2)%Q;
                   s 1%Z 0%Q; s 0%Z 0%Q]
  = {| RSP_Inspiration_Onsets := [0; 4]%Z;
       RSP_Expiration_Onsets := [2; 5]%Z;
       RSP_Cycles_Length := [4]%Z |}.
Proof. vm_compute. reflexivity. Qed.

Lemma elem_of_where_from i cond j :
  j ∈ where_from i cond ↔ ∃ k : nat, cond !! k = Some true ∧ j = (i + Z.of_nat k)%Z.
Proof.
  revert i. induction cond as [|b rest IH]; intros i; simpl.
  - split; [intros H; inversion H | intros (k & H & _); destruct k; discriminate].
  - assert (Hrest : j ∈ where_from (i + 1) rest ↔
                    ∃ k : nat, rest !! k = Some true ∧ j = (i + Z.of_nat (S k))%Z).
    { rewrite IH. split; intros (k & Hk & ->); exists k; split; auto; lia. }
    destruct b.
    + rewrite elem_of_cons, Hrest. split.
      * intros [-> | (k & Hk & ->)]; [exists 0%nat | exists (S k)]; split; auto; lia.
      * intros ([|k] & Hk & ->); [left; lia | right; eauto].
    + rewrite Hrest. split.
      * intros (k & Hk & ->). exists (S k); auto.
      * intros ([|k] & Hk & ->); [discriminate | eauto].
Qed.

Lemma where_from_sorted i cond : StronglySorted Z.lt (where_from i cond).
Proof.
  revert i. induction cond as [|b rest IH]; intros i; simpl; [constructor|].
  destruct b; [|apply IH].
  constructor; [apply IH|].
  apply Forall_forall. intros j Hj.
  apply elem_of_where_from in Hj as (k & _ & ->). lia.
Qed.

Lemma adjacent_equal_cons x y r :
  adjacent_equal (x :: y :: r) =
  (if (y =? x)%Z then [x] else []) ++ adjacent_equal (y :: r).
Proof.
  unfold adjacent_equal. simpl. destruct (y =? x)%Z; reflexivity.
Qed.

Lemma count_occ_sorted_lt (a : Z) (l : list Z) :
  Forall (Z.lt a) l → count_occ Z.eq_dec l a = 0%nat.
Proof.
  intros H. apply count_occ_not_In. intros Hin.
  rewrite Forall_forall in H. apply list_elem_of_In in Hin. specialize (H _ Hin). lia.
Qed.

Lemma elem_of_adjacent_equal aux x :
  StronglySorted Z.le aux →
  x ∈ adjacent_equal aux ↔ (2 <= count_occ Z.eq_dec aux x)%nat.
Proof.
  induction aux as [|a [|b r] IH]; intros Hs.
  - simpl. split; [intros H; inversion H | lia].
  - unfold adjacent_equal. simpl. split; [intros H; inversion H|].
    destruct (Z.eq_dec a x); lia.
  - rewrite adjacent_equal_cons.
    apply StronglySorted_inv in Hs as [Hs Hall].
    specialize (IH Hs).
    rewrite elem_of_app, IH.
    apply Forall_cons in Hall as [Hab Hall].
    assert (Hbr : Forall (Z.le b) r) by (apply StronglySorted_inv in Hs; tauto).
    change (count_occ Z.eq_dec (a :: b :: r) x)
      with (if Z.eq_dec a x then S (count_occ Z.eq_dec (b :: r) x)
            else count_occ Z.eq_dec (b :: r) x).
    destruct (Z.eqb_spec b a) as [->|Hne].
    + destruct (Z.eq_dec a x) as [->|Hax].
      * simpl. destruct (Z.eq_dec x x); [|congruence].
        split; [lia | intros _; left; apply list_elem_of_singleton; reflexivity].
      * split; [intros [H|H]; [apply list_elem_of_singleton in H; congruence | exact H] | auto].
    + destruct (Z.eq_dec a x) as [->|Hax].
      * assert (count_occ Z.eq_dec (b :: r) x = 0%nat) as ->.
        { apply count_occ_sorted_lt. constructor; [lia|].
          eapply Forall_impl; [exact Hbr|]. simpl. intros; lia. }
        split; [intros [H|H]; [inversion H | lia] | lia].
      * split; [intros [H|H]; [inversion H | exact H] | auto].
Qed.

Lemma adjacent_equal_sorted aux :
  StronglySorted Z.le aux →
  (∀ x, count_occ Z.eq_dec aux x <= 2)%nat →
  StronglySorted Z.lt (adjacent_equal aux).
Proof.
  induction aux as [|a [|b r] IH]; intros Hs Hc; try constructor.
  rewrite adjacent_equal_cons.
  pose proof Hs as Hs0.
  apply StronglySorted_inv in Hs as [Hs Hall].
  assert (IH' : StronglySorted Z.lt (adjacent_equal (b :: r))).
  { apply IH; [exact Hs|]. intros x. specialize (Hc x).
    change (count_occ Z.eq_dec (a :: b :: r) x)
      with (if Z.eq_dec a x then S (count_occ Z.eq_dec (b :: r) x)
            else count_occ Z.eq_dec (b :: r) x) in Hc.
    destruct (Z.eq_dec a x); lia. }
  destruct (Z.eqb_spec b a) as [->|Hne]; simpl; [|exact IH'].
  constructor; [exact IH'|].
  apply Forall_forall. intros x Hx.
  pose proof Hx as Hx2. apply elem_of_adjacent_equal in Hx2; [|exact Hs].
  assert (a <= x)%Z.
  { rewrite Forall_forall in Hall. apply Hall.
    destruct (decide (x ∈ a :: r)) as [|Hn]; [assumption|].
    exfalso. rewrite list_elem_of_In in Hn. 
    rewrite (proj1 (count_occ_not_In Z.eq_dec _ _) Hn) in Hx2. lia. }
  specialize (Hc x).
  change (count_occ Z.eq_dec (a :: a :: r) x)
    with (if Z.eq_dec a x then S (count_occ Z.eq_dec (a :: r) x)
          else count_occ Z.eq_dec (a :: r) x) in Hc.
  destruct (Z.eq_dec a x); lia.
Qed.

Lemma count_occ_strictly_sorted (l : list Z) x :
  StronglySorted Z.lt l → (count_occ Z.eq_dec l x <= 1)%nat.
Proof.
  induction 1 as [|a l Hs IH Hall]; simpl; [lia|].
  destruct (Z.eq_dec a x) as [->|]; [|exact IH].
  rewrite (count_occ_sorted_lt x l Hall). lia.
Qed.

Lemma strictly_sorted_le (l : list Z) :
  StronglySorted Z.lt l → StronglySorted Z.le l.
Proof.
  induction 1 as [|a l Hs IH Hall]; constructor; [exact IH|].
  eapply Forall_impl; [exact Hall|]. simpl. intros; lia.
Qed.

Lemma count_occ_pos_elem_of (l : list Z) x :
  (0 < count_occ Z.eq_dec l x)%nat ↔ x ∈ l.
Proof. rewrite list_elem_of_In. symmetry. apply count_occ_In. Qed.

Lemma intersect1d_spec l1 l2 :
  StronglySorted Z.lt l1 → StronglySorted Z.lt l2 →
  StronglySorted Z.lt (intersect1d l1 l2) ∧
  ∀ x, x ∈ intersect1d l1 l2 ↔ x ∈ l1 ∧ x ∈ l2.
Proof.
  intros H1 H2. unfold intersect1d.
  set (aux := merge_sort Z.le (l1 ++ l2)).
  assert (Hs : StronglySorted Z.le aux) by (apply StronglySorted_merge_sort; apply _).
  assert (Hc : ∀ x, count_occ Z.eq_dec aux x =
                    (count_occ Z.eq_dec l1 x + count_occ Z.eq_dec l2 x)%nat).
  { intros x. rewrite <- count_occ_app.
    apply Permutation_count_occ. apply merge_sort_Permutation. }
  fold (adjacent_equal aux). split.
  - apply adjacent_equal_sorted; [exact Hs|]. intros x. rewrite Hc.
    pose proof (count_occ_strictly_sorted l1 x H1).
    pose proof (count_occ_strictly_sorted l2 x H2). lia.
  - intros x. rewrite elem_of_adjacent_equal by exact Hs. rewrite Hc.
    rewrite <- !count_occ_pos_elem_of.
    pose proof (count_occ_strictly_sorted l1 x H1).
    pose proof (count_occ_strictly_sorted l2 x H2). lia.
Qed.

Lemma np_diff_length a : length (np_diff a) = (length a - 1)%nat.
Proof.
  unfold np_diff. rewrite length_zip_with. destruct a; simpl; lia.
Qed.

Lemma np_diff_lookup a k x y :
  a !! k = Some x → a !! S k = Some y → np_diff a !! k = Some (y - x)%Z.
Proof.
  intros Hx Hy. unfold np_diff. rewrite lookup_zip_with.
  destruct a as [|a0 a]; [discriminate|]. simpl in *.
  rewrite Hy. simpl. rewrite Hx. reflexivity.
Qed.

Lemma np_diff_positive a :
  StronglySorted Z.lt a → Forall (fun d => 0 < d)%Z (np_diff a).
Proof.
  induction 1 as [|x l Hs IH Hall]; [constructor|].
  unfold np_diff in *. destruct l as [|y l]; simpl; [constructor|].
  constructor; [|exact IH].
  apply Forall_cons in Hall as [Hxy _]. lia.
Qed.

Lemma feqb_eq x y : feqb x y = true ↔ x = y ∧ x ≠ NaN.
Proof.
  destruct x, y; simpl; split; try discriminate; try (intros [? ?]; congruence);
    try (intros _; split; [reflexivity | discriminate]).
  - intros H. apply Qeq_bool_iff, Qc_is_canon in H. subst. split; [reflexivity | discriminate].
  - intros [[= ->] _]. apply Qeq_bool_iff. reflexivity.
Qed.

Lemma feqb_holds x z : feqb x (of_Z z) = true ↔ holds x z.
Proof.
  unfold holds. rewrite feqb_eq. split; [tauto|].
  intros ->. split; [reflexivity | discriminate].
Qed.

Lemma elem_of_np_where_column col v signals i :
  i ∈ np_where (column_eq col v signals) ↔
  ∃ (k : nat) (s : sample), i = Z.of_nat k ∧ signals !! k = Some s ∧ holds (col s) v.
Proof.
  unfold np_where, column_eq. rewrite elem_of_where_from. split.
  - intros (k & Hk & ->). rewrite list_lookup_fmap in Hk.
    destruct (signals !! k) as [s|] eqn:Hs; [|discriminate].
    simpl in Hk. injection Hk as Hk. exists k, s.
    split; [lia|]. split; [exact Hs|]. apply feqb_holds, Hk.
  - intros (k & s & -> & Hs & Hh). exists k. split; [|lia].
    rewrite list_lookup_fmap, Hs. simpl. f_equal. apply feqb_holds, Hh.
Qed.

Lemma onsets_spec phase signals :
  let onsets := intersect1d (np_where (column_eq RSP_Phase phase signals))
                  (np_where (column_eq RSP_Phase_Completion 0 signals)) in
  StronglySorted Z.lt onsets ∧ ∀ i, i ∈ onsets ↔ onset_at phase signals i.
Proof.
  intros onsets.
  destruct (intersect1d_spec
              (np_where (column_eq RSP_Phase phase signals))
              (np_where (column_eq RSP_Phase_Completion 0 signals)))
    as [Hs Hm]; try apply where_from_sorted.
  split; [exact Hs|]. intros i. unfold onsets. rewrite Hm.
  rewrite !elem_of_np_where_column. unfold onset_at. split.
  - intros [(k & s & -> & Hs1 & H1) (k' & s' & Hk & Hs2 & H2)].
    apply Nat2Z.inj in Hk. subst k'. rewrite Hs1 in Hs2. injection Hs2 as <-.
    eauto 10.
  - intros (k & s & -> & Hs1 & H1 & H2). split; eauto 10.
Qed.

(** C6.  The inspiration onsets are exactly the sample indices whose phase
    holds 1 and whose phase completion holds 0, in increasing order; the
    expiration onsets likewise with phase 0; the cycle lengths are the
    differences of consecutive inspiration onsets, one fewer than the onsets
    (none for zero or one onset), all positive.  The extractor is a function
    of the table alone. *)
Theorem hrv_rsa_cycles_spec (signals : list sample) :
  let c := _hrv_rsa_cycles signals in
  let onsets := RSP_Inspiration_Onsets c in
  (StronglySorted Z.lt onsets ∧ ∀ i, i ∈ onsets ↔ onset_at 1 signals i) ∧
  (StronglySorted Z.lt (RSP_Expiration_Onsets c) ∧
   ∀ i, i ∈ RSP_Expiration_Onsets c ↔ onset_at 0 signals i) ∧
  length (RSP_Cycles_Length c) = (length onsets - 1)%nat ∧
  (∀ k a b, onsets !! k = Some a → onsets !! S k = Some b →
            RSP_Cycles_Length c !! k = Some (b - a)%Z) ∧
  Forall (fun d => 0 < d)%Z (RSP_Cycles_Length c).
Proof.
  intros c onsets.
  pose proof (onsets_spec 1 signals) as Hin.
  pose proof (onsets_spec 0 signals) as Hex.
  simpl in Hin, Hex.
  split; [exact Hin|]. split; [exact Hex|].
  unfold c, onsets. simpl.
  split; [apply np_diff_length|].
  split; [intros k a b; apply np_diff_lookup|].
  apply np_diff_positive, Hin.
Qed.

(** *** The peak-to-trough estimator: the per-cycle estimates *)

Lemma getitem_Ok {A} (a : list A) i x : a !! i = Some x → getitem a i = Ok x.
Proof. unfold getitem. intros ->. reflexivity. Qed.

Lemma getitem_Raise {A} (a : list A) i : a !! i = None → getitem a i = Raise IndexError.
Proof. unfold getitem. intros ->. reflexivity. Qed.

(** The first loop leaves, for every pair of consecutive onsets, the peaks
    between them. *)
Lemma collect_cycles_spec rsp_onsets rpeaks n : ∀ i acc,
  (i + n <= length rsp_onsets - 1)%nat →
  length acc = i →
  (∀ k a b, rsp_onsets !! k = Some a → rsp_onsets !! S k = Some b → (k < i)%nat →
            acc !! k = Some (peaks_within rpeaks a b)) →
  ∃ cycles_rri,
    collect_cycles rsp_onsets rpeaks (seq i n) acc = Ok cycles_rri ∧
    length cycles_rri = (i + n)%nat ∧
    ∀ k a b, rsp_onsets !! k = Some a → rsp_onsets !! S k = Some b →
             (k < i + n)%nat →
             cycles_rri !! k = Some (peaks_within rpeaks a b).
Proof.
  induction n as [|n IH]; intros i acc Hlen Hacc Hpre; simpl.
  - exists acc. split; [reflexivity|]. split; [lia|].
    intros k a b Ha Hb Hk. apply Hpre; auto. lia.
  - destruct (lookup_lt_is_Some_2 rsp_onsets i) as [a Ha]; [lia|].
    destruct (lookup_lt_is_Some_2 rsp_onsets (i + 1)) as [b Hb]; [lia|].
    rewrite (getitem_Ok _ _ _ Ha), (getitem_Ok _ _ _ Hb). simpl.
    destruct (IH (S i) (acc ++ [peaks_within rpeaks a b])) as (c & Hc & Hl & Hk).
    + lia.
    + rewrite length_app. simpl. lia.
    + intros k a' b' Ha' Hb' Hlt.
      destruct (decide (k = i)) as [->|Hne].
      * replace (i + 1)%nat with (S i) in Hb by lia.
        rewrite Ha in Ha'. rewrite Hb in Hb'. injection Ha' as <-. injection Hb' as <-.
        rewrite lookup_app_r by lia. rewrite Hacc, Nat.sub_diag. reflexivity.
      * rewrite lookup_app_l by lia. apply Hpre; auto. lia.
    + exists c. split; [exact Hc|]. split; [lia|].
      intros k a' b' Ha' Hb' Hlt. apply Hk; auto. lia.
Qed.

Lemma collect_cycles_total rsp_onsets rpeaks :
  ∃ cycles_rri,
    collect_cycles rsp_onsets rpeaks (seq 0 (length rsp_onsets - 1)) [] = Ok cycles_rri ∧
    length cycles_rri = (length rsp_onsets - 1)%nat ∧
    ∀ k a b, rsp_onsets !! k = Some a → rsp_onsets !! S k = Some b →
             cycles_rri !! k = Some (peaks_within rpeaks a b).
Proof.
  destruct (collect_cycles_spec rsp_onsets rpeaks (length rsp_onsets - 1) 0 [])
    as (c & Hc & Hl & Hk); try (simpl; lia).
  exists c. split; [exact Hc|]. split; [exact Hl|].
  intros k a b Ha Hb. apply Hk; auto.
  apply lookup_lt_Some in Hb. lia.
Qed.

Lemma cycle_values_spec sampling_rate cycles_rri : ∀ i done,
  length done = i →
  cycle_values sampling_rate i cycles_rri (done ++ np_full (length cycles_rri) NaN)
  = Ok (done ++ map (cycle_estimate sampling_rate) cycles_rri).
Proof.
  induction cycles_rri as [|cycle rest IH]; intros i done Hi; simpl.
  - reflexivity.
  - unfold cycle_estimate at 1.
    destruct (1 <? length (intervals cycle sampling_rate))%nat eqn:Hlen.
    + destruct (intervals cycle sampling_rate) as [|x xs] eqn:HR;
        [simpl in Hlen; discriminate|].
      simpl.
      replace (<[i:=_]> (done ++ NaN :: np_full (length rest) NaN))
        with ((done ++ [fsub (fold_left fmax xs x) (fold_left fmin xs x)])
              ++ np_full (length rest) NaN).
      * rewrite IH by (rewrite length_app; simpl; lia).
        rewrite <- app_assoc. reflexivity.
      * rewrite <- app_assoc. simpl. subst i.
        rewrite insert_app_r_alt by lia. rewrite Nat.sub_diag. reflexivity.
    + replace (done ++ NaN :: np_full (length rest) NaN)
        with ((done ++ [NaN]) ++ np_full (length rest) NaN)
        by (rewrite <- app_assoc; reflexivity).
      rewrite IH by (rewrite length_app; simpl; lia).
      rewrite <- app_assoc. reflexivity.
Qed.

(** Lines 209-222 in closed form: one estimate per pair of consecutive
    onsets. *)
Lemma p2t_values_closed rsp_onsets rpeaks sampling_rate :
  ∃ cycles_rri,
    length cycles_rri = (length rsp_onsets - 1)%nat ∧
    (∀ k a b, rsp_onsets !! k = Some a → rsp_onsets !! S k = Some b →
              cycles_rri !! k = Some (peaks_within rpeaks a b)) ∧
    p2t_values rsp_onsets rpeaks sampling_rate
    = Ok (map (cycle_estimate sampling_rate) cycles_rri).
Proof.
  destruct (collect_cycles_total rsp_onsets rpeaks) as (c & Hc & Hl & Hk).
  exists c. split; [exact Hl|]. split; [exact Hk|].
  unfold p2t_values. rewrite Hc. simpl.
  apply (cycle_values_spec sampling_rate c 0 []). reflexivity.
Qed.
Lemma peaks_within_filter rpeaks a b :
  peaks_within rpeaks a b = beats_between rpeaks a b.
Proof.
  unfold peaks_within, beats_between.
  induction rpeaks as [|r rest IH]; [reflexivity|].
  simpl. rewrite filter_cons, IH.
  destruct (decide (a <= r < b)%Z) as [H|H].
  - replace ((a <=? r)%Z && (r <? b)%Z) with true; [reflexivity|].
    symmetry. apply andb_true_iff. split; [apply Z.leb_le | apply Z.ltb_lt]; lia.
  - replace ((a <=? r)%Z && (r <? b)%Z) with false; [reflexivity|].
    symmetry. apply andb_false_iff.
    destruct (Z.leb_spec a r); [right; apply Z.ltb_ge; lia | left; reflexivity].
Qed.

Lemma inject_Z_nonzero (z : Z) : z ≠ 0%Z → Qeq_bool (Qred (inject_Z z)) 0 = false.
Proof.
  intros Hz. destruct (Qeq_bool (Qred (inject_Z z)) 0) eqn:E; [|reflexivity].
  apply Qeq_bool_iff in E. rewrite Qred_correct in E.
  unfold Qeq in E. simpl in E. lia.
Qed.

Lemma intervals_seconds cycle sampling_rate :
  sampling_rate ≠ 0%Z →
  intervals cycle sampling_rate = map Fin (interbeat_seconds cycle sampling_rate).
Proof.
  intros Hsr. unfold intervals, interbeat_seconds, np_diff.
  generalize (tail cycle). intros t. revert t.
  induction cycle as [|x rest IH]; intros [|y t]; simpl; try reflexivity.
  rewrite IH. f_equal.
  unfold fdiv, of_Z, seconds. rewrite (inject_Z_nonzero _ Hsr). reflexivity.
Qed.

Lemma fold_fmax_finite qs : ∀ q0,
  ∃ hi, fold_left fmax (map Fin qs) (Fin q0) = Fin hi ∧
        hi ∈ q0 :: qs ∧ ∀ q, q ∈ q0 :: qs → (q <= hi)%Qc.
Proof.
  induction qs as [|q qs IH]; intros q0; simpl.
  - exists q0. split; [reflexivity|]. split; [left|].
    intros q Hq. apply list_elem_of_singleton in Hq as ->. apply Qcle_refl.
  - unfold fmax at 2. simpl.
    destruct (Qle_bool q0 q) eqn:E.
    + destruct (IH q) as (hi & Hf & Hin & Hub).
      exists hi. split; [exact Hf|]. split; [right; exact Hin|].
      intros x Hx. apply elem_of_cons in Hx as [->|Hx]; [|apply Hub, Hx].
      apply Qle_bool_iff in E. eapply Qcle_trans; [exact E|]. apply Hub. left.
    + destruct (IH q0) as (hi & Hf & Hin & Hub).
      assert (q <= q0)%Q.
      { destruct (Qclt_le_dec q0 q) as [Hlt|Hle]; [|exact Hle].
        apply Qclt_le_weak, Qle_bool_iff in Hlt. congruence. }
      exists hi. split; [exact Hf|]. split.
      * apply elem_of_cons in Hin as [->|Hin]; [left | right; right; exact Hin].
      * intros x Hx. apply elem_of_cons in Hx as [->|Hx]; [apply Hub; left|].
        apply elem_of_cons in Hx as [->|Hx].
        -- eapply Qcle_trans; [eassumption|]. apply Hub. left.
        -- apply Hub. right. exact Hx.
Qed.

Lemma fold_fmin_finite qs : ∀ q0,
  ∃ lo, fold_left fmin (map Fin qs) (Fin q0) = Fin lo ∧
        lo ∈ q0 :: qs ∧ ∀ q, q ∈ q0 :: qs → (lo <= q)%Qc.
Proof.
  induction qs as [|q qs IH]; intros q0; simpl.
  - exists q0. split; [reflexivity|]. split; [left|].
    intros q Hq. apply list_elem_of_singleton in Hq as ->. apply Qcle_refl.
  - unfold fmin at 2. simpl.
    destruct (Qle_bool q0 q) eqn:E.
    + destruct (IH q0) as (lo & Hf & Hin & Hlb).
      apply Qle_bool_iff in E.
      exists lo. split; [exact Hf|]. split.
      * apply elem_of_cons in Hin as [->|Hin]; [left | right; right; exact Hin].
      * intros x Hx. apply elem_of_cons in Hx as [->|Hx]; [apply Hlb; left|].
        apply elem_of_cons in Hx as [->|Hx].
        -- eapply Qcle_trans; [|exact E]. apply Hlb. left.
        -- apply Hlb. right. exact Hx.
    + destruct (IH q) as (lo & Hf & Hin & Hlb).
      assert (q <= q0)%Q.
      { destruct (Qclt_le_dec q0 q) as [Hlt|Hle]; [|exact Hle].
        apply Qclt_le_weak, Qle_bool_iff in Hlt. congruence. }
      exists lo. split; [exact Hf|]. split; [right; exact Hin|].
      intros x Hx. apply elem_of_cons in Hx as [->|Hx]; [|apply Hlb, Hx].
      eapply Qcle_trans; [|eassumption]. apply Hlb. left.
Qed.

(** The estimate of a cycle with a positive sampling rate. *)
Lemma cycle_estimate_spec sampling_rate cycle :
  (0 < sampling_rate)%Z →
  let RRis := interbeat_seconds cycle sampling_rate in
  ((2 <= length RRis)%nat →
     ∃ hi lo, hi ∈ RRis ∧ lo ∈ RRis ∧ (∀ q, q ∈ RRis → (lo <= q <= hi)%Qc) ∧
              cycle_estimate sampling_rate cycle = Fin (hi - lo)%Qc) ∧
  ((length RRis < 2)%nat → cycle_estimate sampling_rate cycle = NaN).
Proof.
  intros Hsr RRis. unfold cycle_estimate.
  rewrite intervals_seconds by lia. fold RRis. rewrite length_map.
  split; intros Hlen.
  - replace (1 <? length RRis)%nat with true by (symmetry; apply Nat.ltb_lt; lia).
    destruct RRis as [|q0 qs]; [simpl in Hlen; lia|]. simpl.
    destruct (fold_fmax_finite qs q0) as (hi & -> & Hhi & Hub).
    destruct (fold_fmin_finite qs q0) as (lo & -> & Hlo & Hlb).
    exists hi, lo. repeat split; auto.
  - replace (1 <? length RRis)%nat with false by (symmetry; apply Nat.ltb_ge; lia).
    reflexivity.
Qed.

Lemma cycle_estimate_nonneg sampling_rate cycle :
  (0 < sampling_rate)%Z →
  cycle_estimate sampling_rate cycle = NaN ∨
  ∃ q, cycle_estimate sampling_rate cycle = Fin q ∧ (0 <= q)%Qc.
Proof.
  intros Hsr.
  destruct (cycle_estimate_spec sampling_rate cycle Hsr) as [Hge Hlt].
  destruct (le_lt_dec 2 (length (interbeat_seconds cycle sampling_rate))) as [H|H].
  - destruct (Hge H) as (hi & lo & Hhi & Hlo & Hb & ->). right.
    exists (hi - lo)%Qc. split; [reflexivity|].
    destruct (Hb hi Hhi) as [Hle _]. apply Qcle_minus_iff in Hle. exact Hle.
  - left. apply Hlt. exact H.
Qed.

Example p2t_values_example :
  match p2t_values [0; 1000; 2000; 3000]%Z
          [100; 400; 800; 1300; 1700; 1900; 2100; 2900; 3500]%Z 100 with
  | Ok rsa_values => fsame_list rsa_values [of_Z 1; of_Z 2; NaN]
  | Raise _ => false
  end = true.
Proof. vm_compute. reflexivity. Qed.

(** C4.  With a positive sampling rate, the estimator succeeds with one
    value per pair of consecutive inspiration onsets.  The value of a cycle
    is computed from the R-peaks [r] with [onset <= r < next_onset] and their
    successive intervals in seconds: it is the largest interval minus the
    smallest when there are at least two intervals, and NaN when there are
    fewer.  Hence every value is NaN or non-negative. *)
Theorem p2t_cycle_estimates (rsp_onsets rpeaks : list Z) (sampling_rate : Z) :
  (0 < sampling_rate)%Z →
  ∃ rsa_values,
    p2t_values rsp_onsets rpeaks sampling_rate = Ok rsa_values ∧
    length rsa_values = (length rsp_onsets - 1)%nat ∧
    (∀ k onset next_onset,
       rsp_onsets !! k = Some onset → rsp_onsets !! S k = Some next_onset →
       let RRis :=
         interbeat_seconds (beats_between rpeaks onset next_onset) sampling_rate in
       ∃ v, rsa_values !! k = Some v ∧
            ((2 <= length RRis)%nat →
               ∃ hi lo, hi ∈ RRis ∧ lo ∈ RRis ∧
                        (∀ q, q ∈ RRis → (lo <= q <= hi)%Qc) ∧
                        v = Fin (hi - lo)%Qc) ∧
            ((length RRis < 2)%nat → v = NaN)) ∧
    (∀ v, v ∈ rsa_values → v = NaN ∨ ∃ q, v = Fin q ∧ (0 <= q)%Qc).
Proof.
  intros Hsr.
  destruct (p2t_values_closed rsp_onsets rpeaks sampling_rate) as (c & Hl & Hk & Hv).
  exists (map (cycle_estimate sampling_rate) c).
  split; [exact Hv|]. split; [rewrite length_map; exact Hl|]. split.
  - intros k a b Ha Hb RRis.
    exists (cycle_estimate sampling_rate (peaks_within rpeaks a b)).
    split.
    + rewrite list_lookup_fmap, (Hk k a b Ha Hb). reflexivity.
    + rewrite peaks_within_filter. apply cycle_estimate_spec, Hsr.
  - intros v Hv'. apply list_elem_of_fmap in Hv' as (cyc & -> & _).
    apply cycle_estimate_nonneg, Hsr.
Qed.

Lemma p2t_cycle_estimates_witness :
  ∃ rsa_values,
    p2t_values [0; 1000; 2000]%Z [100; 400; 800; 1300; 1700]%Z 100
    = Ok rsa_values ∧
    length rsa_values = 2%nat ∧
    ∀ v, v ∈ rsa_values → v = NaN ∨ ∃ q, v = Fin q ∧ (0 <= q)%Qc.
Proof.
  destruct (p2t_cycle_estimates [0; 1000; 2000]%Z [100; 400; 800; 1300; 1700]%Z 100
              ltac:(lia)) as (vals & Hv & Hl & _ & Hpos).
  exists vals. split; [exact Hv|]. split; [exact Hl | exact Hpos].
Defined.

(** *** The peak-to-trough estimator: the summary *)

Lemma fadd_0_r (x : npfloat) : fadd x (Fin 0%Qc) = x.
Proof. destruct x; simpl; try reflexivity. rewrite Qcplus_0_r. reflexivity. Qed.

Lemma defined_cons x a :
  defined (x :: a) = if isnan x then defined a else x :: defined a.
Proof.
  unfold defined. rewrite filter_cons.
  destruct (isnan x); case_decide; congruence.
Qed.

Lemma sum_replace_nan a : ∀ acc,
  fold_left fadd (fst (replace_nan a)) acc = fold_left fadd (defined a) acc.
Proof.
  induction a as [|x a IH]; intros acc; [reflexivity|].
  rewrite defined_cons. simpl in *.
  destruct (isnan x); simpl; [rewrite fadd_0_r|]; apply IH.
Qed.

Lemma count_valid_defined a :
  count_valid (snd (replace_nan a)) = Z.of_nat (length (defined a)).
Proof.
  unfold count_valid. f_equal. simpl.
  induction a as [|x a IH]; [reflexivity|].
  rewrite defined_cons. simpl. rewrite filter_cons.
  destruct (isnan x); case_decide; simpl in *; try tauto; rewrite IH; reflexivity.
Qed.

(** numpy's [nanmean] is the mean of the defined values. *)
Lemma nanmean_defined a : nanmean a = mean (defined a).
Proof.
  unfold nanmean, mean.
  pose proof (sum_replace_nan a (Fin 0%Qc)) as Hs.
  pose proof (count_valid_defined a) as Hc.
  destruct (replace_nan a) as [arr mask]. simpl in Hs, Hc.
  unfold np_sum. rewrite Hs, Hc. reflexivity.
Qed.

Lemma sum_squares_replace_nan a avg : ∀ acc,
  fold_left fadd
    (map (fun x => fmul x x)
       (zip_with (fun x (m : bool) => if m then Fin 0%Qc else fsub x avg)
                 (fst (replace_nan a)) (snd (replace_nan a)))) acc
  = fold_left fadd
      (map (fun x => fmul (fsub x avg) (fsub x avg)) (defined a)) acc.
Proof.
  induction a as [|x a IH]; intros acc; [reflexivity|].
  rewrite defined_cons. simpl in *.
  destruct (isnan x) eqn:E; simpl.
  - rewrite Qcmult_0_l, fadd_0_r. apply IH.
  - apply IH.
Qed.

(** numpy's [nanvar] with [ddof = 1] is the sample variance of the defined
    values. *)
Lemma nanvar_defined a : nanvar a 1 = sample_variance (defined a).
Proof.
  unfold nanvar, sample_variance, mean.
  pose proof (sum_replace_nan a (Fin 0%Qc)) as Hs.
  pose proof (count_valid_defined a) as Hc.
  pose proof (sum_squares_replace_nan a) as Hq.
  destruct (replace_nan a) as [arr mask]. simpl in Hs, Hc, Hq.
  unfold np_sum. rewrite Hs, Hc, Hq.
  destruct (Nat.leb_spec (length (defined a)) 1) as [H|H].
  - replace (Z.of_nat (length (defined a)) - 1 <=? 0)%Z with true; [reflexivity|].
    symmetry. apply Z.leb_le. lia.
  - replace (Z.of_nat (length (defined a)) - 1 <=? 0)%Z with false; [reflexivity|].
    symmetry. apply Z.leb_gt. lia.
Qed.

Lemma count_null_defined a :
  (count_null a + Z.of_nat (length (defined a)))%Z = Z.of_nat (length a).
Proof.
  unfold count_null. rewrite <- Nat2Z.inj_add. f_equal.
  induction a as [|x a IH]; [reflexivity|].
  rewrite defined_cons, filter_cons.
  destruct (isnan x); case_decide; simpl in *; try tauto; lia.
Qed.

Lemma count_null_filter a :
  count_null a = Z.of_nat (length (filter (fun v => isnan v = true) a)).
Proof.
  unfold count_null. do 2 f_equal.
  induction a as [|x a IH]; [reflexivity|].
  rewrite !filter_cons.
  destruct (isnan x); repeat case_decide; simpl in *;
    try tauto; try congruence; rewrite IH; reflexivity.
Qed.

(** The summary dictionary of [_hrv_rsa_p2t]. *)
Lemma hrv_rsa_p2t_summary lm su rsp_onsets rpeaks sampling_rate ecg_period rsp_peaks
    rsa_values :
  p2t_values rsp_onsets rpeaks sampling_rate = Ok rsa_values →
  _hrv_rsa_p2t lm su rsp_onsets rpeaks sampling_rate false ecg_period rsp_peaks
  = Ok (ODict
      (<[ "RSA_P2T_NoRSA" := VInt (count_null rsa_values) ]>
       (<[ "RSA_P2T_SD" := VFloat (nanstd lm rsa_values 1) ]>
        (<[ "RSA_P2T_Mean_log" := VFloat (Np.log lm (nanmean rsa_values)) ]>
         {[ "RSA_P2T_Mean" := VFloat (nanmean rsa_values) ]})))).
Proof. intros H. unfold _hrv_rsa_p2t. rewrite H. reflexivity. Qed.

(** C7.  In summary mode the estimator returns a dictionary in which
    [RSA_P2T_Mean] is the mean of the defined (non-NaN) per-cycle values,
    [RSA_P2T_Mean_log] the logarithm of that mean, [RSA_P2T_SD] the square
    root of their sample variance ([ddof = 1]), and [RSA_P2T_NoRSA] the
    number of undefined cycles: the three statistics are functions of the
    defined values alone. *)
Theorem p2t_summary_statistics (lm : Libm) (su : SignalUtils)
    (rsp_onsets rpeaks : list Z) (sampling_rate : Z)
    (ecg_period : list npfloat) (rsp_peaks : list Z) :
  ∃ rsa rsa_values,
    _hrv_rsa_p2t lm su rsp_onsets rpeaks sampling_rate false ecg_period rsp_peaks
    = Ok (ODict rsa) ∧
    p2t_values rsp_onsets rpeaks sampling_rate = Ok rsa_values ∧
    let valid := defined rsa_values in
    rsa !! "RSA_P2T_Mean" = Some (VFloat (mean valid)) ∧
    rsa !! "RSA_P2T_Mean_log" = Some (VFloat (Np.log lm (mean valid))) ∧
    rsa !! "RSA_P2T_SD" = Some (VFloat (Np.sqrt lm (sample_variance valid))) ∧
    rsa !! "RSA_P2T_NoRSA"
    = Some (VInt (Z.of_nat (length rsa_values) - Z.of_nat (length valid))).
Proof.
  destruct (p2t_values_closed rsp_onsets rpeaks sampling_rate) as (c & _ & _ & Hv).
  eexists _, _. split; [apply hrv_rsa_p2t_summary, Hv|]. split; [exact Hv|].
  set (vals := map (cycle_estimate sampling_rate) c).
  intros valid. unfold nanstd.
  rewrite nanmean_defined, nanvar_defined. fold valid.
  pose proof (count_null_defined vals) as Hn. fold valid in Hn.
  replace (count_null vals) with (Z.of_nat (length vals) - Z.of_nat (length valid))%Z by lia.
  repeat split; reflexivity.
Qed.

(** C10.  In summary mode [RSA_P2T_NoRSA] plus the number of cycles with a
    defined value is the number of breath cycles, the number of onsets less
    one (zero for fewer than two onsets): each cycle is either counted as
    undefined or is one of the values the mean and the deviation are taken
    over. *)
Theorem p2t_norsa_partition (lm : Libm) (su : SignalUtils)
    (rsp_onsets rpeaks : list Z) (sampling_rate : Z)
    (ecg_period : list npfloat) (rsp_peaks : list Z) :
  ∃ rsa rsa_values no_rsa,
    _hrv_rsa_p2t lm su rsp_onsets rpeaks sampling_rate false ecg_period rsp_peaks
    = Ok (ODict rsa) ∧
    p2t_values rsp_onsets rpeaks sampling_rate = Ok rsa_values ∧
    rsa !! "RSA_P2T_NoRSA" = Some (VInt no_rsa) ∧
    no_rsa = Z.of_nat (length (filter (fun v => isnan v = true) rsa_values)) ∧
    (no_rsa + Z.of_nat (length (defined rsa_values)))%Z
    = Z.of_nat (length rsp_onsets - 1) ∧
    rsa !! "RSA_P2T_Mean" = Some (VFloat (mean (defined rsa_values))).
Proof.
  destruct (p2t_values_closed rsp_onsets rpeaks sampling_rate) as (c & Hl & _ & Hv).
  eexists _, _, _. split; [apply hrv_rsa_p2t_summary, Hv|]. split; [exact Hv|].
  split; [reflexivity|]. split; [apply count_null_filter|]. split.
  - rewrite count_null_defined, length_map, Hl. reflexivity.
  - rewrite nanmean_defined. reflexivity.
Qed.


(** *** The Porges-Bohrer estimator *)

(** C9 (the code departs from the claim).  When every epoch is discarded,
    that is when every per-epoch log-variance is NaN, nothing is left to
    concatenate and [_hrv_rsa_pb] raises [ValueError]: it does not return a
    NaN [RSA_PorgesBohrer]. *)
Theorem pb_all_epochs_discarded_raises (lm : Libm) (su : SignalUtils)
    (ecg_period : list npfloat) (sampling_rate : Z) (variance : list npfloat) :
  epoch_log_variances lm (pb_residual su ecg_period sampling_rate) = Ok variance →
  Forall (fun v => isnan v = true) variance →
  _hrv_rsa_pb lm su ecg_period sampling_rate false = Raise ValueError.
Proof.
  intros Hv Hall. unfold _hrv_rsa_pb. simpl. rewrite Hv. simpl.
  replace (filter (fun row => isnan row = false) variance) with (@nil npfloat);
    [reflexivity|].
  symmetry. clear Hv. induction Hall as [|v l Hv _ IH]; [reflexivity|].
  rewrite filter_cons. case_decide; [congruence | exact IH].
Qed.

Lemma pb_all_epochs_discarded_raises_witness :
  _hrv_rsa_pb Stub.lm Stub.su (replicate 100 NaN) 100 false = Raise ValueError.
Proof.
  apply (pb_all_epochs_discarded_raises Stub.lm Stub.su (replicate 100 NaN) 100
           [NaN; NaN]).
  - vm_compute. reflexivity.
  - repeat constructor.
Defined.

(** The estimator does return the mean as soon as one epoch is kept. *)
Lemma pb_returns lm su ecg_period sampling_rate variance v kept :
  epoch_log_variances lm (pb_residual su ecg_period sampling_rate) = Ok variance →
  filter (fun row => isnan row = false) variance = v :: kept →
  _hrv_rsa_pb lm su ecg_period sampling_rate false
  = Ok (ODict {[ "RSA_PorgesBohrer" := VFloat (nanmean (v :: kept)) ]}).
Proof.
  intros Hv Hk. unfold _hrv_rsa_pb. simpl. rewrite Hv. simpl. rewrite Hk.
  reflexivity.
Qed.

(** *** The orchestrator [hrv_rsa] *)

Arguments _hrv_rsa_p2t : simpl never.
Arguments _hrv_rsa_pb : simpl never.
Arguments _hrv_rsa_gates : simpl never.
Arguments fleb : simpl never.
Arguments fdiv : simpl never.

(** [hrv_rsa], step by step. *)
Lemma hrv_rsa_run lm su la input sampling_rate continuous window window_number :
  let rsp_onsets := RSP_Inspiration_Onsets (_hrv_rsa_cycles (signals input)) in
  let rsp_peaks := np_where (column_eq RSP_Peaks 1 (signals input)) in
  run (hrv_rsa lm su la input sampling_rate continuous window window_number) =
  match rsp_onsets !! 0%nat with
  | None => (Raise IndexError, [])
  | Some onset0 =>
      let peaks := peaks_after rsp_peaks onset0 in
      hrv_rsa_methods lm su la input sampling_rate continuous window window_number
        rsp_onsets (trimmed_peaks peaks rsp_onsets)
        (if cycles_mismatch peaks rsp_onsets then [CyclesWarning] else [])
  end.
Proof.
  intros rsp_onsets rsp_peaks.
  unfold hrv_rsa, run. fold rsp_onsets. fold rsp_peaks.
  unfold wbind at 1. unfold lift at 1. unfold getitem.
  destruct (rsp_onsets !! 0%nat) as [onset0|]; [|reflexivity].
  fold (trimmed_peaks (peaks_after rsp_peaks onset0) rsp_onsets).
  fold (cycles_mismatch (peaks_after rsp_peaks onset0) rsp_onsets).
  unfold wbind at 1.
  destruct (cycles_mismatch (peaks_after rsp_peaks onset0) rsp_onsets);
    reflexivity.
Qed.

(** The estimators only ever add the short-recording warning. *)
Lemma hrv_rsa_methods_warnings lm su la input sampling_rate continuous window
    window_number rsp_onsets rsp_peaks ws :
  let out := hrv_rsa_methods lm su la input sampling_rate continuous window
               window_number rsp_onsets rsp_peaks ws in
  out.2 = ws ∨ out.2 = ws ++ [ShortRecordingWarning (default 32%Z window)].
Proof.
  unfold hrv_rsa_methods, wbind, lift, warn, wret. simpl.
  repeat destruct_innermost; auto.
Qed.

Lemma cycles_mismatch_iff peaks rsp_onsets :
  rsp_onsets ≠ [] →
  cycles_mismatch peaks rsp_onsets = true ↔
  length peaks ≠ length rsp_onsets ∧ S (length peaks) ≠ length rsp_onsets.
Proof.
  intros Hne. unfold cycles_mismatch, trimmed_peaks.
  assert (0 < length rsp_onsets)%nat by (destruct rsp_onsets; simpl; [congruence | lia]).
  destruct (Z.eqb_spec (Z.of_nat (length peaks) - Z.of_nat (length rsp_onsets)) 0)
    as [Heq|Hneq].
  - assert (length (removelast peaks) = (length peaks - 1)%nat) as ->.
    { destruct peaks as [|x l] using rev_ind; [reflexivity|].
      rewrite removelast_last, length_app. simpl. lia. }
    rewrite negb_true_iff, Z.eqb_neq. lia.
  - rewrite negb_true_iff, Z.eqb_neq. lia.
Qed.

(** C5, as the code has it.  [hrv_rsa] issues the cycle warning exactly
    when there is a first inspiration onset and the number of respiration
    peaks after it is neither the number of onsets nor one less: no warning
    when the counts agree or when the peaks are one fewer than the onsets,
    a warning in every other case, one more peak than onsets included. *)
Theorem cycles_warning_iff (lm : Libm) (su : SignalUtils)
    (la : Window.LinAlg npfloat) (input : formatted) (sampling_rate : Z)
    (continuous : bool) (window : option Z) (window_number : option nat) :
  let rsp_onsets := RSP_Inspiration_Onsets (_hrv_rsa_cycles (signals input)) in
  let rsp_peaks := np_where (column_eq RSP_Peaks 1 (signals input)) in
  CyclesWarning ∈
    (run (hrv_rsa lm su la input sampling_rate continuous window window_number)).2
  ↔ ∃ onset0,
      rsp_onsets !! 0%nat = Some onset0 ∧
      length (peaks_after rsp_peaks onset0) ≠ length rsp_onsets ∧
      S (length (peaks_after rsp_peaks onset0)) ≠ length rsp_onsets.
Proof.
  intros rsp_onsets rsp_peaks.
  rewrite hrv_rsa_run. fold rsp_onsets. fold rsp_peaks.
  destruct (rsp_onsets !! 0%nat) as [onset0|] eqn:H0.
  - assert (Hne : rsp_onsets ≠ []) by (intros E; rewrite E in H0; discriminate).
    pose proof (cycles_mismatch_iff (peaks_after rsp_peaks onset0) rsp_onsets Hne) as Hm.
    simpl.
    match goal with
    | |- context [hrv_rsa_methods ?a ?b ?c ?d ?e ?f ?g ?h ?i ?j ?ws] =>
        pose proof (hrv_rsa_methods_warnings a b c d e f g h i j ws) as Hw;
        simpl in Hw; destruct Hw as [-> | ->]
    end.
    + destruct (cycles_mismatch _ _).
      * split; [intros _; exists onset0; split; [reflexivity | apply Hm; reflexivity]|].
        intros _. apply list_elem_of_singleton. reflexivity.
      * split; [intros H; inversion H|].
        intros (o & [= <-] & Hp). apply Hm in Hp. discriminate.
    + destruct (cycles_mismatch _ _).
      * split; [intros _; exists onset0; split; [reflexivity | apply Hm; reflexivity]|].
        intros _. apply elem_of_app. left. apply list_elem_of_singleton. reflexivity.
      * split.
        -- intros H. apply elem_of_app in H as [H|H]; [inversion H|].
           apply list_elem_of_singleton in H. discriminate.
        -- intros (o & [= <-] & Hp). apply Hm in Hp. discriminate.
  - simpl. split; [intros H; inversion H | intros (o & Ho & _); discriminate].
Qed.

(** C5 as stated fails: one onset and two later peaks differ by exactly one,
    and the warning is issued. *)
Lemma cycles_warning_counterexample :
  let input := Stub.recording 4 [0%nat] [1%nat; 2%nat] [1; 3]%Z in
  let rsp_onsets := RSP_Inspiration_Onsets (_hrv_rsa_cycles (signals input)) in
  let rsp_peaks :=
    peaks_after (np_where (column_eq RSP_Peaks 1 (signals input))) 0 in
  ¬ (CyclesWarning ∈
       (run (hrv_rsa Stub.lm Stub.su Stub.la input 100 false None None)).2
     ↔ (1 < Z.abs (Z.of_nat (length rsp_peaks) - Z.of_nat (length rsp_onsets)))%Z).
Proof.
  intros input rsp_onsets rsp_peaks [Hwarn _].
  assert (Hrun : (run (hrv_rsa Stub.lm Stub.su Stub.la input 100 false None None)).2
                 = [CyclesWarning; ShortRecordingWarning 32]).
  { vm_compute. reflexivity. }
  assert (Hp : length rsp_peaks = 2%nat) by (vm_compute; reflexivity).
  assert (Ho : length rsp_onsets = 1%nat) by (vm_compute; reflexivity).
  rewrite Hrun, Hp, Ho in Hwarn.
  specialize (Hwarn ltac:(left)). simpl in Hwarn. lia.
Qed.

(** **** Recordings shorter than the window *)

Lemma hrv_rsa_p2t_summary_dict lm su rsp_onsets rpeaks sampling_rate ecg_period
    rsp_peaks :
  ∃ m l s n,
    _hrv_rsa_p2t lm su rsp_onsets rpeaks sampling_rate false ecg_period rsp_peaks
    = Ok (ODict (<[ "RSA_P2T_NoRSA" := VInt n ]>
                 (<[ "RSA_P2T_SD" := VFloat s ]>
                  (<[ "RSA_P2T_Mean_log" := VFloat l ]>
                   {[ "RSA_P2T_Mean" := VFloat m ]})))).
Proof.
  destruct (p2t_values_closed rsp_onsets rpeaks sampling_rate) as (c & _ & _ & Hv).
  eexists _, _, _, _. apply hrv_rsa_p2t_summary, Hv.
Qed.

Lemma hrv_rsa_pb_summary_dict lm su ecg_period sampling_rate r :
  _hrv_rsa_pb lm su ecg_period sampling_rate false = Ok r →
  ∃ m, r = ODict {[ "RSA_PorgesBohrer" := VFloat m ]}.
Proof.
  unfold _hrv_rsa_pb. simpl.
  destruct (epoch_log_variances _ _) as [v|]; simpl; [|discriminate].
  destruct (concat_mean _) as [m|]; simpl; [|discriminate].
  intros [= <-]. eauto.
Qed.

(** C2 (the code departs from the claim, in summary mode).  When the last
    R-peak lies before the end of the first window, [hrv_rsa] in summary
    mode never returns: [rsa_gates] is the double NaN, and [rsa.update] of a
    double is a [TypeError]. *)
Theorem short_recording_summary_raises (lm : Libm) (su : SignalUtils)
    (la : Window.LinAlg npfloat) (input : formatted) (sampling_rate : Z)
    (window : option Z) (window_number : option nat) (rpeak_last : Z) :
  getlast (rpeaks input) = Ok rpeak_last →
  fleb (of_Z (default 32%Z window)) (fdiv (of_Z rpeak_last) (of_Z sampling_rate))
  = false →
  ∃ e, (run (hrv_rsa lm su la input sampling_rate false window window_number)).1
       = Raise e.
Proof.
  intros Hlast Hshort. rewrite hrv_rsa_run.
  destruct (_ !! 0%nat) as [onset0|]; [|eexists; reflexivity].
  simpl. unfold hrv_rsa_methods, wbind, lift, warn, wret. simpl.
  destruct (_hrv_rsa_p2t _ _ _ _ _ _ _ _) as [p2t|]; simpl; [|eexists; reflexivity].
  destruct (_hrv_rsa_pb _ _ _ _ _) as [pb|]; simpl; [|eexists; reflexivity].
  rewrite Hlast. simpl. simpl in Hshort. rewrite Hshort. simpl.
  destruct (dict_update ∅ p2t) as [d1|]; simpl; [|eexists; reflexivity].
  destruct (dict_update d1 pb) as [d2|]; simpl; eexists; reflexivity.
Qed.

Lemma short_recording_summary_raises_witness :
  ∃ e, (run (hrv_rsa Stub.lm Stub.su Stub.la
               (Stub.recording 400 [0%nat; 200%nat] [100%nat] [50; 150; 250; 350]%Z)
               100 false None None)).1 = Raise e.
Proof.
  apply (short_recording_summary_raises Stub.lm Stub.su Stub.la
           (Stub.recording 400 [0%nat; 200%nat] [100%nat] [50; 150; 250; 350]%Z)
           100 None None 350);
    vm_compute; reflexivity.
Defined.

(** The same call, in full: both warnings aside, the exception is the
    [TypeError] of [rsa.update(np.nan)]. *)
Example short_recording_summary_example :
  run (hrv_rsa Stub.lm Stub.su Stub.la
         (Stub.recording 400 [0%nat; 200%nat] [100%nat] [50; 150; 250; 350]%Z)
         100 false None None)
  = (Raise TypeError, [ShortRecordingWarning 32]).
Proof. vm_compute. reflexivity. Qed.

(** When the two other estimators return, the exception is that
    [TypeError], and the warning has been issued. *)
Lemma short_recording_summary_type_error lm su la input sampling_rate window
    window_number onset0 rpeak_last pb :
  RSP_Inspiration_Onsets (_hrv_rsa_cycles (signals input)) !! 0%nat = Some onset0 →
  _hrv_rsa_pb lm su (ecg_period input) sampling_rate false = Ok pb →
  getlast (rpeaks input) = Ok rpeak_last →
  fleb (of_Z (default 32%Z window)) (fdiv (of_Z rpeak_last) (of_Z sampling_rate))
  = false →
  ∃ ws, run (hrv_rsa lm su la input sampling_rate false window window_number)
        = (Raise TypeError, ws ++ [ShortRecordingWarning (default 32%Z window)]).
Proof.
  intros H0 Hpb Hlast Hshort. rewrite hrv_rsa_run, H0. simpl.
  unfold hrv_rsa_methods, wbind, lift, warn, wret. simpl.
  match goal with
  | |- context [_hrv_rsa_p2t ?a ?b ?c ?d ?e false ?f ?g] =>
      destruct (hrv_rsa_p2t_summary_dict a b c d e f g) as (m & l & s & n & ->)
  end.
  simpl. rewrite Hpb. simpl.
  destruct (hrv_rsa_pb_summary_dict _ _ _ _ _ Hpb) as (v & ->).
  rewrite Hlast. simpl. simpl in Hshort. rewrite Hshort. simpl. eexists. reflexivity.
Qed.

(** In continuous mode the same recording does get its answer: the
    [RSA_Gates] column is NaN throughout. *)
Lemma short_recording_continuous_returns lm su la input sampling_rate window
    window_number onset0 rpeak_last p2t :
  let rsp_onsets := RSP_Inspiration_Onsets (_hrv_rsa_cycles (signals input)) in
  let rsp_peaks :=
    peaks_after (np_where (column_eq RSP_Peaks 1 (signals input))) onset0 in
  rsp_onsets !! 0%nat = Some onset0 →
  _hrv_rsa_p2t lm su rsp_onsets (rpeaks input) sampling_rate true (ecg_period input)
    (trimmed_peaks rsp_peaks rsp_onsets) = Ok (OArray p2t) →
  getlast (rpeaks input) = Ok rpeak_last →
  fleb (of_Z (default 32%Z window)) (fdiv (of_Z rpeak_last) (of_Z sampling_rate))
  = false →
  ∃ ws, run (hrv_rsa lm su la input sampling_rate true window window_number)
        = (Ok (Continuous p2t (replicate (length p2t) NaN)),
           ws ++ [ShortRecordingWarning (default 32%Z window)]).
Proof.
  intros rsp_onsets rsp_peaks H0 Hp2t Hlast Hshort.
  rewrite hrv_rsa_run. fold rsp_onsets. rewrite H0. simpl.
  unfold hrv_rsa_methods, wbind, lift, warn, wret. simpl.
  fold rsp_peaks. rewrite Hp2t. simpl. rewrite Hlast. simpl. simpl in Hshort. rewrite Hshort. simpl.
  unfold np_full. rewrite length_replicate, Nat.eqb_refl.
  eexists. reflexivity.
Qed.

(** *** The Gates estimator *)

Lemma elem_of_rev_tail {A} (x : A) (l : list A) : x ∈ rev (tail l) → x ∈ l.
Proof.
  rewrite !list_elem_of_In, <- in_rev. destruct l; simpl; auto.
Qed.

Lemma select_windows_shape {F} {ops : Window.FloatOps F} (n K : nat)
    (Fm : Window.matrix F) (RD : list F) :
  let '(multipeak, weight) := Window.select_windows n K Fm RD in
  length multipeak = Nat.min K (length RD - 1) ∧
  length weight = Nat.min K (length RD - 1) ∧
  Forall (fun taper => length taper = n) multipeak.
Proof.
  unfold Window.select_windows. split; [|split].
  - rewrite length_take, length_rev, length_tl, !length_map, !length_seq. lia.
  - rewrite length_map, length_take, length_rev, length_tl.
    unfold Window.np_sort.
    rewrite (Permutation_length (merge_sort_Permutation _ _)). lia.
  - apply Forall_forall. intros taper Hin.
    apply elem_of_take in Hin as (i & Hin & _).
    apply list_elem_of_lookup_2, elem_of_rev_tail in Hin.
    apply list_elem_of_fmap in Hin as (c & -> & _).
    unfold Window.normalised_column, Window.column.
    rewrite !length_map, length_seq. reflexivity.
Qed.

Lemma generalised_basis_length {F} {ops : Window.FloatOps F} (la : Window.LinAlg F)
    (n : nat) (rpeak rpen : list F) :
  length (Window.generalised_basis la n rpeak rpen).2 = n.
Proof. simpl. rewrite length_map, length_seq. reflexivity. Qed.

(** The window generator returns [min K (n - 1)] windows of [n] samples
    each, and as many weights. *)
Lemma multipeak_window_shape {F} {ops : Window.FloatOps F} (la : Window.LinAlg F)
    (nperseg : Z) (window_number : nat) multipeak weight :
  Window._get_multipeak_window la nperseg window_number = Ok (multipeak, weight) →
  length multipeak = Nat.min window_number (Z.to_nat nperseg - 1) ∧
  length weight = Nat.min window_number (Z.to_nat nperseg - 1) ∧
  Forall (fun taper => length taper = Z.to_nat nperseg) multipeak.
Proof.
  unfold Window._get_multipeak_window.
  destruct (nperseg =? 0)%Z; [discriminate|].
  destruct (nperseg <? 0)%Z; [discriminate|].
  destruct (Window.covariances nperseg window_number) as [rpeak rpen].
  pose proof (generalised_basis_length la (Z.to_nat nperseg) rpeak rpen) as Hlen.
  destruct (Window.generalised_basis la (Z.to_nat nperseg) rpeak rpen) as [Fm RD].
  simpl in Hlen.
  pose proof (select_windows_shape (Z.to_nat nperseg) window_number Fm RD) as Hs.
  destruct (Window.select_windows _ _ _ _) as [mp wt].
  intros [= <- <-]. rewrite Hlen in Hs. exact Hs.
Qed.

Arguments Window._get_multipeak_window : simpl never.

Lemma getitem_Ok_inv {A} (a : list A) i x : getitem a i = Ok x → a !! i = Some x.
Proof. unfold getitem. destruct (a !! i); [intros [= ->]; reflexivity | discriminate]. Qed.

(** The loop stops with an exception as soon as it asks for a window that
    the set does not have. *)
Lemma gates_loop_missing_window su rri sr window overlap multipeak weight :
  ∀ idxs st,
    (∃ i, i ∈ idxs ∧ (length multipeak <= i)%nat) →
    ∃ e, gates_loop su rri sr window overlap multipeak weight idxs st = Raise e.
Proof.
  induction idxs as [|i rest IH]; intros st (j & Hj & Hlen).
  - inversion Hj.
  - simpl.
    destruct (getitem multipeak i) as [taper|] eqn:Hi; simpl; [|eexists; reflexivity].
    apply getitem_Ok_inv in Hi.
    destruct (signal_timefrequency su rri _) as [time psd].
    destruct (getitem weight i) as [w|]; simpl; [|eexists; reflexivity].
    destruct (madd _ _) as [rsa|]; simpl; [|eexists; reflexivity].
    apply IH. exists j. split; [|exact Hlen].
    apply elem_of_cons in Hj as [->|Hj]; [|exact Hj].
    apply lookup_lt_Some in Hi. lia.
Qed.

(** With fewer than four windows the estimator never returns. *)
Lemma hrv_rsa_gates_few_windows lm su la len rpeaks sampling_rate window
    (window_number : nat) continuous :
  (window_number < 4)%nat →
  ∃ e, _hrv_rsa_gates lm su la len rpeaks sampling_rate window (Some window_number)
         continuous = Raise e.
Proof.
  intros HK. unfold _hrv_rsa_gates.
  destruct (_hrv_get_rri su rpeaks sampling_rate true) as [rri sr].
  cbn -[gates_loop].
  destruct (Window._get_multipeak_window _ _ _) as [[multipeak weight]|e] eqn:Hw;
    cbn -[gates_loop]; [|eexists; reflexivity].
  apply multipeak_window_shape in Hw as (Hlen & _ & _).
  match goal with
  | |- context [gates_loop ?a ?b ?c ?d ?e ?f ?g ?h ?i] =>
      destruct (gates_loop_missing_window a b c d e f g h i) as (e' & ->)
  end.
  - exists 3%nat. split; [|lia]. repeat constructor.
  - simpl. eexists. reflexivity.
Qed.

(** Only the first four windows and weights reach the loop. *)
Lemma gates_loop_first_four su rri sr window overlap multipeak weight multipeak'
    weight' :
  take 4 multipeak = take 4 multipeak' → take 4 weight = take 4 weight' →
  ∀ idxs st,
    Forall (fun i => (i < 4)%nat) idxs →
    gates_loop su rri sr window overlap multipeak weight idxs st
    = gates_loop su rri sr window overlap multipeak' weight' idxs st.
Proof.
  intros Hm Hw. induction idxs as [|i rest IH]; intros st Hall; [reflexivity|].
  apply Forall_cons in Hall as [Hi Hall]. simpl.
  assert (Hgm : getitem multipeak i = getitem multipeak' i).
  { unfold getitem. rewrite <- (lookup_take_lt multipeak 4 i) by lia.
    rewrite <- (lookup_take_lt multipeak' 4 i) by lia. rewrite Hm. reflexivity. }
  assert (Hgw : getitem weight i = getitem weight' i).
  { unfold getitem. rewrite <- (lookup_take_lt weight 4 i) by lia.
    rewrite <- (lookup_take_lt weight' 4 i) by lia. rewrite Hw. reflexivity. }
  rewrite Hgm, Hgw.
  destruct (getitem multipeak' i) as [taper|]; simpl; [|reflexivity].
  destruct (signal_timefrequency su rri _) as [time psd].
  destruct (getitem weight' i) as [w|]; simpl; [|reflexivity].
  destruct (madd _ _) as [rsa|]; simpl; [|reflexivity].
  apply IH, Hall.
Qed.

(** The summary dictionary of [_hrv_rsa_gates]. *)
Lemma hrv_rsa_gates_summary_dict lm su la len rpeaks sampling_rate window
    window_number r :
  _hrv_rsa_gates lm su la len rpeaks sampling_rate window window_number false = Ok r →
  ∃ m l s,
    r = ODict (<[ "RSA_Gates_SD" := VFloat s ]>
               (<[ "RSA_Gates_Mean_log" := VFloat l ]>
                {[ "RSA_Gates_Mean" := VFloat m ]})).
Proof.
  unfold _hrv_rsa_gates.
  destruct (_hrv_get_rri su rpeaks sampling_rate true) as [rri sr].
  cbn -[gates_loop].
  destruct (Window._get_multipeak_window _ _ _) as [[multipeak weight]|e];
    cbn -[gates_loop]; [|discriminate].
  destruct (gates_loop _ _ _ _ _ _ _ _ _) as [[time rsa]|e]; simpl; [|discriminate].
  intros [= <-]. eauto.
Qed.

(** C1 (the code departs from the claim).  A recording of 3.5 s at 100 Hz,
    windows of 3 s, the default eight windows: the window generator returns
    eight windows with eight weights, here 1/8 each, and every spectrogram
    of the example is constant 1.  The loop of [_hrv_rsa_gates] runs over
    [range(4)]: its power is 4 * (1/8) = 1/2, where the weighted sum over the
    eight windows is 1, and [RSA_Gates_Mean] is computed from the former
    (2 * (1/2) / 12, the logarithm of the example being the identity). *)
Theorem gates_sums_four_of_eight_windows :
  let rpeaks := [50; 150; 250; 350]%Z in
  let rri := (_hrv_get_rri Stub.su rpeaks 100 true).1 in
  let half := Fin (Q2Qc (1 # 2)) in
  ∃ multipeak weight,
    Window._get_multipeak_window (ops := Window.npfloat_ops Stub.lm) Stub.la 12 8
    = Ok (multipeak, weight) ∧
    length multipeak = 8%nat ∧
    fsame_list weight (replicate 8 (Fin (Q2Qc (1 # 8)))) = true ∧
    (* the loop as the code runs it, and over each of the eight windows *)
    power_is (gates_loop Stub.su rri 4 3 8 multipeak weight (seq 0 4) ([], []))
             [[half; half]] = true ∧
    power_is (gates_loop Stub.su rri 4 3 8 multipeak weight (seq 0 8) ([], []))
             [[of_Z 1; of_Z 1]] = true ∧
    entry_is (_hrv_rsa_gates Stub.lm Stub.su Stub.la 400 rpeaks 100 3 None false)
             "RSA_Gates_Mean" (Fin (Q2Qc (1 # 12))) = true.
Proof.
  intros rpeaks rri half.
  destruct (Window._get_multipeak_window (ops := Window.npfloat_ops Stub.lm)
              Stub.la 12 8) as [[multipeak weight]|] eqn:Hw;
    [|vm_compute in Hw; discriminate].
  exists multipeak, weight. split; [reflexivity|].
  split; [apply (multipeak_window_shape _ _ _ _ _ Hw)|].
  vm_compute in Hw. injection Hw as <- <-.
  repeat split; vm_compute; reflexivity.
Qed.

(** With two windows, a value the documentation allows, the loop asks for
    a third one. *)
Example gates_two_windows_example :
  _hrv_rsa_gates Stub.lm Stub.su Stub.la 400 [50; 150; 250; 350]%Z 100 3
    (Some 2%nat) false = Raise IndexError.
Proof. vm_compute. reflexivity. Qed.

(** **** The keys of the summary *)


(** C3 (the code departs from the claim for two and three windows).  A
    recording at least as long as the window, summary mode, and a window
    number below four: the loop over [range(4)] asks for a window the set
    does not have, and [hrv_rsa] never returns its mapping. *)
Theorem few_windows_summary_raises (lm : Libm) (su : SignalUtils)
    (la : Window.LinAlg npfloat) (input : formatted) (sampling_rate : Z)
    (window : option Z) (window_number : nat) (rpeak_last : Z) :
  (window_number < 4)%nat →
  getlast (rpeaks input) = Ok rpeak_last →
  fleb (of_Z (default 32%Z window)) (fdiv (of_Z rpeak_last) (of_Z sampling_rate))
  = true →
  ∃ e, (run (hrv_rsa lm su la input sampling_rate false window
               (Some window_number))).1 = Raise e.
Proof.
  intros HK Hlast Hlong. rewrite hrv_rsa_run.
  destruct (_ !! 0%nat) as [onset0|]; [|eexists; reflexivity].
  simpl. unfold hrv_rsa_methods, wbind, lift, warn, wret. simpl.
  destruct (_hrv_rsa_p2t _ _ _ _ _ _ _ _) as [p2t|]; simpl; [|eexists; reflexivity].
  destruct (_hrv_rsa_pb _ _ _ _ _) as [pb|]; simpl; [|eexists; reflexivity].
  rewrite Hlast. simpl. simpl in Hlong. rewrite Hlong. simpl.
  match goal with
  | |- context [_hrv_rsa_gates ?a ?b ?c ?d ?e ?f ?g (Some window_number) ?h] =>
      destruct (hrv_rsa_gates_few_windows a b c d e f g window_number h HK)
        as (e' & ->)
  end.
  simpl. eexists. reflexivity.
Qed.

Lemma few_windows_summary_raises_witness :
  ∃ e, (run (hrv_rsa Stub.lm Stub.su Stub.la
               (Stub.recording 400 [0%nat; 200%nat] [100%nat] [50; 150; 250; 350]%Z)
               100 false (Some 3%Z) (Some 2%nat))).1 = Raise e.
Proof.
  apply (few_windows_summary_raises Stub.lm Stub.su Stub.la
           (Stub.recording 400 [0%nat; 200%nat] [100%nat] [50; 150; 250; 350]%Z)
           100 (Some 3%Z) 2 350).
  - lia.
  - vm_compute. reflexivity.
  - vm_compute. reflexivity.
Defined.

(** The same recording with the default eight windows, and with two. *)
Example summary_example :
  match (run (hrv_rsa Stub.lm Stub.su Stub.la
                (Stub.recording 400 [0%nat; 200%nat] [100%nat] [50; 150; 250; 350]%Z)
                100 false (Some 3%Z) None)).1 with
  | Ok (Summary d) => bool_decide (dom d = summary_keys)
  | _ => false
  end = true.
Proof. vm_compute. reflexivity. Qed.

Example two_windows_example :
  run (hrv_rsa Stub.lm Stub.su Stub.la
         (Stub.recording 400 [0%nat; 200%nat] [100%nat] [50; 150; 250; 350]%Z)
         100 false (Some 3%Z) (Some 2%nat))
  = (Raise IndexError, []).
Proof. vm_compute. reflexivity. Qed.

(** *** The window generator in real arithmetic *)

Section real_windows.
Import Window.
Local Open Scope R_scope.

Lemma fold_left_Rplus (l : list R) : ∀ acc : R,
  fold_left Rplus l acc = acc + fold_left Rplus l 0.
Proof.
  induction l as [|x l IH]; intros acc; simpl; [lra|].
  rewrite (IH (acc + x)), (IH (0 + x)). lra.
Qed.

Lemma f_sum_nil : f_sum (@nil R) = 0.
Proof. reflexivity. Qed.

Lemma f_sum_cons (x : R) (l : list R) : f_sum (x :: l) = x + f_sum l.
Proof.
  unfold f_sum. simpl. rewrite fold_left_Rplus.
  change (IZR 0 + x) with (0 + x). lra.
Qed.

Lemma f_sum_map_div (l : list R) (s : R) :
  f_sum (map (fun x => x / s) l) = f_sum l / s.
Proof.
  induction l as [|x l IH]; simpl.
  - rewrite f_sum_nil. unfold Rdiv. lra.
  - rewrite !f_sum_cons, IH. unfold Rdiv. lra.
Qed.

Lemma vdot_cons (x y : R) (u v : list R) :
  vdot (x :: u) (y :: v) = x * y + vdot u v.
Proof. unfold vdot. simpl. apply f_sum_cons. Qed.

Lemma vdot_self_nonneg (v : list R) : 0 <= vdot v v.
Proof.
  induction v as [|x v IH]; [unfold vdot; simpl; rewrite f_sum_nil; lra|].
  rewrite vdot_cons. nra.
Qed.

Lemma vdot_scaled (v : list R) (s : R) :
  vdot (map (fun x => x / s) v) (map (fun x => x / s) v) = vdot v v / (s * s).
Proof.
  destruct (Req_dec s 0) as [->|Hs].
  - induction v as [|x v IH]; simpl.
    + unfold vdot. simpl. rewrite f_sum_nil. unfold Rdiv. lra.
    + rewrite !vdot_cons, IH. unfold Rdiv. rewrite Rmult_0_l, Rinv_0. lra.
  - induction v as [|x v IH]; simpl.
    + unfold vdot. simpl. rewrite f_sum_nil. unfold Rdiv. lra.
    + rewrite !vdot_cons, IH. field. exact Hs.
Qed.

(** Lines 449-451: a column that is not zero, divided by its norm, has
    norm one. *)
Lemma normalised_column_unit (n : nat) (Fm : matrix R) (c : nat) :
  vdot (column n Fm c) (column n Fm c) ≠ 0 →
  R_sqrt.sqrt (vdot (normalised_column n Fm c) (normalised_column n Fm c)) = 1.
Proof.
  intros Hnz. unfold normalised_column.
  set (v := column n Fm c) in *.
  change (f_sqrt (vdot v v)) with (R_sqrt.sqrt (vdot v v)).
  change (fun x : R => f_div x (R_sqrt.sqrt (vdot v v)))
    with (fun x : R => x / R_sqrt.sqrt (vdot v v)).
  rewrite vdot_scaled.
  pose proof (vdot_self_nonneg v) as Hge.
  rewrite sqrt_sqrt by exact Hge.
  unfold Rdiv. rewrite Rinv_r by exact Hnz. apply sqrt_1.
Qed.

(** [np.argsort] returns positions of the array. *)
Lemma np_argsort_range (a : list R) (i : nat) :
  (0 < length a)%nat → (nth i (np_argsort a) 0%nat < length a)%nat.
Proof.
  intros Hpos. unfold np_argsort.
  match goal with
  | |- (nth i ?l _ < _)%nat =>
      destruct (nth_in_or_default i l 0%nat) as [Hin | Heq];
        [|rewrite Heq; exact Hpos]
  end.
  apply list_elem_of_In in Hin.
  apply list_elem_of_fmap in Hin as ([k x] & Hk & Hin). rewrite Hk.
  rewrite merge_sort_Permutation in Hin.
  apply elem_of_zip_l in Hin. apply elem_of_seq in Hin. simpl. lia.
Qed.

(** Lines 446-457 in real arithmetic: when no column of [F] vanishes and the
    selected values of [RD] do not sum to zero, each window has norm one and
    the weights sum to one. *)
Lemma select_windows_normalised (n K : nat) (Fm : matrix R) (RD : list R) :
  (0 < n)%nat → length RD = n →
  (∀ c, (c < n)%nat → vdot (column n Fm c) (column n Fm c) ≠ 0) →
  f_sum (take K (rev (tail (np_sort RD)))) ≠ 0 →
  Forall (fun taper => R_sqrt.sqrt (vdot taper taper) = 1) (select_windows n K Fm RD).1 ∧
  f_sum (select_windows n K Fm RD).2 = 1.
Proof.
  intros Hn Hlen Hcol Hsum. unfold select_windows. simpl. split.
  - apply Forall_forall. intros taper Hin.
    apply elem_of_take in Hin as (i & Hin & _).
    apply list_elem_of_lookup_2, elem_of_rev_tail in Hin.
    apply list_elem_of_fmap in Hin as (c & -> & _).
    apply normalised_column_unit, Hcol.
    rewrite <- Hlen. apply np_argsort_range. lia.
  - change (fun x : R => f_div x (f_sum (take K (rev (tail (np_sort RD))))))
      with (fun x : R => x / f_sum (take K (rev (tail (np_sort RD))))).
    rewrite f_sum_map_div. unfold Rdiv. apply Rinv_r, Hsum.
Qed.

(** C8.  In real arithmetic, for a segment of 128 samples and 8 windows:
    provided no column of the basis [F] that the factorisations return
    vanishes, and the eight largest values of [RD] do not sum to zero, the
    generator returns 8 windows of 128 samples, each of norm one, and 8
    weights that sum to one. *)
Theorem multipeak_window_unit_norm (la : LinAlg R) :
  let cov := covariances 128 8 in
  let basis := generalised_basis la 128 cov.1 cov.2 in
  (∀ c, (c < 128)%nat →
        vdot (column 128 basis.1 c) (column 128 basis.1 c) ≠ 0) →
  f_sum (take 8 (rev (tail (np_sort basis.2)))) ≠ 0 →
  ∃ multipeak weight,
    _get_multipeak_window la 128 8 = Ok (multipeak, weight) ∧
    length multipeak = 8%nat ∧
    Forall (fun taper => length taper = 128%nat ∧ R_sqrt.sqrt (vdot taper taper) = 1)
           multipeak ∧
    length weight = 8%nat ∧
    f_sum weight = 1.
Proof.
  intros cov basis Hcol Hsum.
  assert (Hw : _get_multipeak_window la 128 8
               = Ok (select_windows 128 8 basis.1 basis.2)).
  { unfold _get_multipeak_window. simpl (_ =? _)%Z. simpl (_ <? _)%Z. cbv iota.
    fold cov. destruct cov as [rpeak rpen] eqn:Hc. simpl in basis.
    change (Z.to_nat 128) with 128%nat. fold basis.
    destruct basis as [Fm RD]. reflexivity. }
  pose proof (generalised_basis_length la 128 cov.1 cov.2) as Hlen. fold basis in Hlen.
  destruct (select_windows_normalised 128 8 basis.1 basis.2) as [Hunit Hone];
    [lia | exact Hlen | exact Hcol | exact Hsum |].
  destruct (select_windows 128 8 basis.1 basis.2) as [multipeak weight] eqn:Hs.
  exists multipeak, weight. split; [exact Hw|].
  apply multipeak_window_shape in Hw as (Hl1 & Hl2 & Hl3).
  change (Z.to_nat 128) with 128%nat in *.
  split; [exact Hl1|]. split; [|split; [exact Hl2 | exact Hone]].
  simpl in Hunit. rewrite Forall_forall in *. intros t Ht. split; auto.
Qed.

Lemma f_sum_delta_r (f : nat → R) (i n : nat) : ∀ s,
  f_sum (map (fun k => f k * eyeR k i) (seq s n))
  = if bool_decide (s <= i < s + n)%nat then f i else 0.
Proof.
  induction n as [|n IH]; intros s; simpl.
  - rewrite f_sum_nil. case_bool_decide; [lia | reflexivity].
  - rewrite f_sum_cons, IH. unfold eyeR at 1.
    destruct (Nat.eqb_spec s i) as [->|Hne].
    + rewrite bool_decide_eq_false_2 by lia. rewrite bool_decide_eq_true_2 by lia. lra.
    + repeat case_bool_decide; try lia; lra.
Qed.

Lemma f_sum_delta_l (f : nat → R) (i n : nat) :
  f_sum (map (fun k => eyeR k i * f k) (seq 0 n))
  = if bool_decide (i < n)%nat then f i else 0.
Proof.
  rewrite (map_ext _ (fun k => f k * eyeR k i)) by (intros; lra).
  rewrite f_sum_delta_r. repeat case_bool_decide; try lia; reflexivity.
Qed.

Lemma dot_eye (n i j : nat) : (j < n)%nat → dot n eyeR eyeR i j = eyeR i j.
Proof.
  intros Hj. unfold dot.
  change (fun k : nat => f_mul (eyeR i k) (eyeR k j))
    with (fun k : nat => eyeR i k * eyeR k j).
  rewrite f_sum_delta_r. rewrite bool_decide_eq_true_2 by lia. reflexivity.
Qed.

Lemma identity_basis_column (n c : nat) rpeak rpen :
  (c < n)%nat →
  let Fm := (generalised_basis identity_la n rpeak rpen).1 in
  vdot (column n Fm c) (column n Fm c) = 1.
Proof.
  intros Hc. simpl. unfold vdot, column.
  rewrite zip_with_diag, map_map.
  rewrite (map_ext _ (fun k => eyeR k c * eyeR k c)).
  - rewrite f_sum_delta_l, bool_decide_eq_true_2 by lia.
    unfold eyeR. rewrite Nat.eqb_refl. reflexivity.
  - intros k. rewrite dot_eye by exact Hc. reflexivity.
Qed.

Lemma identity_basis_values (n : nat) rpeak rpen x :
  x ∈ (generalised_basis identity_la n rpeak rpen).2 → x = nth 0 rpeak 0.
Proof.
  simpl. intros Hin. apply list_elem_of_fmap in Hin as (i & -> & Hi).
  apply elem_of_seq in Hi. unfold dot at 1.
  rewrite (map_ext _ (fun k => dot n (transpose (dot n eyeR eyeR)) (toeplitz rpeak) i k
                               * eyeR k i)).
  - rewrite f_sum_delta_r, bool_decide_eq_true_2 by lia.
    unfold dot at 1, transpose.
    rewrite (map_ext _ (fun k => eyeR k i * toeplitz rpeak k i)).
    + rewrite f_sum_delta_l, bool_decide_eq_true_2 by lia.
      unfold toeplitz. rewrite Nat.ltb_irrefl, Nat.sub_diag. reflexivity.
    + intros k. rewrite dot_eye by lia. reflexivity.
  - intros k. rewrite dot_eye by lia. reflexivity.
Qed.

(** The first covariance of the peaked spectrum, [r0], for 128 samples and
    8 windows. *)
Lemma covariances_r0_positive : 0 < nth 0 (covariances 128 8).1 0.
Proof.
  unfold covariances. cbv zeta. cbn [fst nth].
  change (f_of_Z (Z.of_nat 8 + 2)) with 10.
  change (f_of_Z 128) with 128.
  change (f_of_Z (2 * 20)) with 40.
  change (f_of_Z 10) with 10.
  change (f_of_Z 2) with 2.
  change (f_of_Z 1) with 1.
  change (f_log10 (f_exp 1)) with (ln (exp 1) / ln 10).
  cbn [f_div f_mul f_sub f_neg f_exp R_ops].
  rewrite ln_exp.
  assert (Hln : 0 < ln 10).
  { rewrite <- ln_1. apply ln_increasing; lra. }
  set (C := 40 / 10 / (10 / 128) / (1 / ln 10)).
  assert (HC : 0 < C).
  { unfold C. repeat apply Rdiv_lt_0_compat; lra. }
  assert (He : exp (- C * (10 / 128) / 2) < 1).
  { rewrite <- exp_0. apply exp_increasing. nra. }
  apply Rmult_lt_0_compat; [apply Rdiv_lt_0_compat; lra | lra].
Qed.

Lemma f_sum_positive (l : list R) :
  l ≠ [] → Forall (fun x => 0 < x) l → 0 < f_sum l.
Proof.
  intros Hne Hall. induction Hall as [|x l Hx Hall IH]; [congruence|].
  rewrite f_sum_cons. destruct l as [|y l].
  - rewrite f_sum_nil. lra.
  - specialize (IH ltac:(discriminate)). lra.
Qed.

Lemma multipeak_window_unit_norm_witness :
  ∃ multipeak weight,
    _get_multipeak_window identity_la 128 8 = Ok (multipeak, weight) ∧
    length multipeak = 8%nat ∧
    Forall (fun taper => length taper = 128%nat ∧ R_sqrt.sqrt (vdot taper taper) = 1)
           multipeak ∧
    length weight = 8%nat ∧
    f_sum weight = 1.
Proof.
  apply (multipeak_window_unit_norm identity_la).
  - intros c Hc. rewrite identity_basis_column by exact Hc. lra.
  - apply Rgt_not_eq, Rlt_gt, f_sum_positive.
    + intros E. apply (f_equal length) in E.
      rewrite length_take, length_rev, length_tl in E.
      unfold np_sort in E.
      rewrite (Permutation_length (merge_sort_Permutation _ _)) in E.
      rewrite generalised_basis_length in E. simpl in E. lia.
    + apply Forall_forall. intros x Hx.
      apply elem_of_take in Hx as (i & Hx & _).
      apply list_elem_of_lookup_2, elem_of_rev_tail in Hx.
      unfold np_sort in Hx. rewrite merge_sort_Permutation in Hx.
      apply identity_basis_values in Hx. rewrite Hx.
      apply covariances_r0_positive.
Defined.

End real_windows.

(** *** The orchestrator: what it returns, what it raises *)




Lemma p2t_values_length rsp_onsets rpeaks sampling_rate rsa_values :
  p2t_values rsp_onsets rpeaks sampling_rate = Ok rsa_values →
  length rsa_values = (length rsp_onsets - 1)%nat.
Proof.
  destruct (p2t_values_closed rsp_onsets rpeaks sampling_rate) as (c & Hl & _ & ->).
  intros [= <-]. rewrite length_map. exact Hl.
Qed.

Lemma compress_defined_knots (vals : list npfloat) : ∀ peaks : list Z,
  length peaks = length vals →
  compress (map (fun v => negb (isnan v)) vals) peaks = map fst (defined_knots peaks vals) ∧
  compress (map (fun v => negb (isnan v)) vals) vals = map snd (defined_knots peaks vals).
Proof.
  unfold defined_knots.
  induction vals as [|v vals IH]; intros [|p peaks] Hlen; try discriminate;
    [split; reflexivity|].
  injection Hlen as Hlen. destruct (IH peaks Hlen) as [IH1 IH2].
  simpl. rewrite filter_cons. simpl.
  destruct (isnan v); simpl; rewrite IH1, IH2; split; reflexivity.
Qed.

(** The continuous branch of [_hrv_rsa_p2t] (lines 229-234). *)
Lemma hrv_rsa_p2t_continuous lm su rsp_onsets rpeaks sampling_rate ecg_period rsp_peaks
    rsa_values :
  p2t_values rsp_onsets rpeaks sampling_rate = Ok rsa_values →
  _hrv_rsa_p2t lm su rsp_onsets rpeaks sampling_rate true ecg_period rsp_peaks
  = if (length rsp_peaks =? length rsa_values)%nat then
      let knots := defined_knots rsp_peaks rsa_values in
      Ok (OArray (signal_interpolate su (map fst knots) (map snd knots)
                    (XArray (map Z.of_nat (seq 0 (length ecg_period)))) None))
    else Raise IndexError.
Proof.
  intros Hv. unfold _hrv_rsa_p2t. rewrite Hv. simpl. unfold bool_index.
  rewrite length_map.
  destruct (Nat.eqb_spec (length rsp_peaks) (length rsa_values)) as [Hlen|Hlen];
    [|reflexivity].
  simpl. rewrite Nat.eqb_refl. simpl.
  destruct (compress_defined_knots rsa_values rsp_peaks Hlen) as [-> ->].
  reflexivity.
Qed.

(** X8.  In continuous mode [_hrv_rsa_p2t] interpolates through one knot per
    cycle with a defined estimate: the respiration peak of the cycle and the
    estimate, over the positions [0 .. len(ecg_period) - 1].  It needs one
    respiration peak per cycle: with any other number the boolean index of
    line 231 is an [IndexError]. *)
Theorem p2t_continuous_knots (lm : Libm) (su : SignalUtils)
    (rsp_onsets rpeaks : list Z) (sampling_rate : Z)
    (ecg_period : list npfloat) (rsp_peaks : list Z) :
  ∃ rsa_values,
    p2t_values rsp_onsets rpeaks sampling_rate = Ok rsa_values ∧
    length rsa_values = (length rsp_onsets - 1)%nat ∧
    let knots := defined_knots rsp_peaks rsa_values in
    _hrv_rsa_p2t lm su rsp_onsets rpeaks sampling_rate true ecg_period rsp_peaks
    = if (length rsp_peaks =? length rsp_onsets - 1)%nat then
        Ok (OArray (signal_interpolate su (map fst knots) (map snd knots)
                      (XArray (map Z.of_nat (seq 0 (length ecg_period)))) None))
      else Raise IndexError.
Proof.
  destruct (p2t_values_closed rsp_onsets rpeaks sampling_rate) as (c & Hl & _ & Hv).
  eexists. split; [exact Hv|].
  pose proof (p2t_values_length _ _ _ _ Hv) as Hlen.
  split; [exact Hlen|]. intros knots.
  rewrite (hrv_rsa_p2t_continuous _ _ _ _ _ _ _ _ Hv), Hlen. reflexivity.
Qed.












(** X7.  The summary [hrv_rsa] returns is made of the dictionaries of the
    three estimators, each entry as its estimator computed it: the keys do
    not collide, so no [update] overwrites an earlier entry. *)
Theorem summary_is_union (lm : Libm) (su : SignalUtils)
    (la : Window.LinAlg npfloat) (input : formatted) (sampling_rate : Z)
    (window : option Z) (window_number : option nat)
    (d : gmap string pyval) (ws : list warning) :
  run (hrv_rsa lm su la input sampling_rate false window window_number)
  = (Ok (Summary d), ws) →
  let rsp_onsets := RSP_Inspiration_Onsets (_hrv_rsa_cycles (signals input)) in
  ∃ onset0 p2t pb gates,
    rsp_onsets !! 0%nat = Some onset0 ∧
    _hrv_rsa_p2t lm su rsp_onsets (rpeaks input) sampling_rate false (ecg_period input)
      (trimmed_peaks
         (peaks_after (np_where (column_eq RSP_Peaks 1 (signals input))) onset0)
         rsp_onsets)
    = Ok (ODict p2t) ∧
    _hrv_rsa_pb lm su (ecg_period input) sampling_rate false = Ok (ODict pb) ∧
    _hrv_rsa_gates lm su la (ecg_signals_len input) (rpeaks input) sampling_rate
      (default 32%Z window) window_number false = Ok (ODict gates) ∧
    p2t ⊆ d ∧ pb ⊆ d ∧ gates ⊆ d ∧
    dom d = dom p2t ∪ dom pb ∪ dom gates.
Proof.
  rewrite hrv_rsa_run. cbv zeta.
  set (rsp_onsets := RSP_Inspiration_Onsets (_hrv_rsa_cycles (signals input))).
  destruct (rsp_onsets !! 0%nat) as [onset0|]; [|discriminate].
  unfold hrv_rsa_methods, wbind, lift, warn, wret.
  match goal with
  | |- context [_hrv_rsa_p2t ?a ?b ?c ?d ?e false ?f ?g] =>
      destruct (hrv_rsa_p2t_summary_dict a b c d e f g) as (m & l & s & n & Hp);
      rewrite Hp
  end.
  destruct (_hrv_rsa_pb _ _ _ _ _) as [pb|] eqn:Hpb; [|discriminate].
  destruct (hrv_rsa_pb_summary_dict _ _ _ _ _ Hpb) as (v & ->).
  destruct (getlast _) as [rpeak_last|]; [|discriminate].
  cbv zeta. destruct (fleb _ _); [|discriminate].
  destruct (_hrv_rsa_gates _ _ _ _ _ _ _ _ _) as [gates|] eqn:Hg; [|discriminate].
  destruct (hrv_rsa_gates_summary_dict _ _ _ _ _ _ _ _ _ Hg) as (gm & gl & gs & ->).
  simpl. intros [= <- _].
  eexists onset0, _, _, _.
  split; [reflexivity|]. split; [exact Hp|]. split; [reflexivity|].
  split; [first [exact Hg | reflexivity]|].
  rewrite (right_id_L ∅ (∪)).
  set (p2t := <["RSA_P2T_NoRSA":=VInt n]> _).
  set (pbd := ({["RSA_PorgesBohrer" := VFloat v]} : gmap string pyval)).
  set (gd := <["RSA_Gates_SD":=VFloat gs]> _).
  assert (Hd1 : pbd ##ₘ p2t).
  { apply map_disjoint_dom. unfold pbd, p2t.
    rewrite !dom_insert_L, !dom_singleton_L.
    apply (bool_decide_unpack _). vm_compute. exact I. }
  assert (Hd2 : gd ##ₘ pbd ∪ p2t).
  { apply map_disjoint_dom. unfold gd, pbd, p2t.
    rewrite dom_union_L, !dom_insert_L, !dom_singleton_L.
    apply (bool_decide_unpack _). vm_compute. exact I. }
  split; [|split; [|split]].
  - etrans; [apply (map_union_subseteq_r pbd p2t Hd1)|].
    apply map_union_subseteq_r, Hd2.
  - etrans; [apply (map_union_subseteq_l pbd p2t)|].
    apply map_union_subseteq_r, Hd2.
  - apply map_union_subseteq_l.
  - rewrite !dom_union_L. rewrite (comm_L (∪) (dom gd)), (comm_L (∪) (dom pbd)).
    reflexivity.
Qed.

Lemma summary_is_union_witness :
  ∃ d p2t,
    (run (hrv_rsa Stub.lm Stub.su Stub.la
            (Stub.recording 400 [0%nat; 200%nat] [100%nat] [50; 150; 250; 350]%Z)
            100 false (Some 3%Z) None)).1 = Ok (Summary d) ∧
    _hrv_rsa_p2t Stub.lm Stub.su [0; 200]%Z [50; 150; 250; 350]%Z 100 false
      (replicate 400 (of_Z 800)) [100%Z] = Ok (ODict p2t) ∧
    p2t ⊆ d.
Proof.
  destruct (run (hrv_rsa Stub.lm Stub.su Stub.la
                   (Stub.recording 400 [0%nat; 200%nat] [100%nat] [50; 150; 250; 350]%Z)
                   100 false (Some 3%Z) None)) as [[[d|p g]|e] ws] eqn:Hrun;
    [|vm_compute in Hrun; discriminate..].
  destruct (summary_is_union _ _ _ _ _ _ _ _ _ Hrun)
    as (onset0 & p2t & pb & gates & H0 & Hp & _ & _ & Hsub & _).
  exists d, p2t. split; [reflexivity|]. split; [|exact Hsub].
  vm_compute in H0. injection H0 as <-. rewrite <- Hp. reflexivity.
Defined.

(** *** The peak-to-trough estimator: invariances *)

(** Lines 209-222 as one expression over the pairs of consecutive onsets. *)
Lemma p2t_values_zip rsp_onsets rpeaks sampling_rate :
  p2t_values rsp_onsets rpeaks sampling_rate
  = Ok (map (fun c => cycle_estimate sampling_rate (peaks_within rpeaks c.1 c.2))
            (zip rsp_onsets (tail rsp_onsets))).
Proof.
  destruct (p2t_values_closed rsp_onsets rpeaks sampling_rate) as (c & Hl & Hk & ->).
  f_equal.
  assert (c = map (fun c => peaks_within rpeaks c.1 c.2)
                  (zip rsp_onsets (tail rsp_onsets))) as ->;
    [|rewrite map_map; reflexivity].
  apply list_eq. intros k.
  rewrite list_lookup_fmap, lookup_zip_with, lookup_tail.
  destruct (rsp_onsets !! k) as [a|] eqn:Ha; simpl.
  - destruct (rsp_onsets !! S k) as [b|] eqn:Hb; simpl.
    + apply Hk; assumption.
    + apply lookup_ge_None. apply lookup_ge_None in Hb. lia.
  - apply lookup_ge_None. apply lookup_ge_None in Ha. lia.
Qed.

Lemma np_diff_cons x y l : np_diff (x :: y :: l) = (y - x)%Z :: np_diff (y :: l).
Proof. reflexivity. Qed.

Lemma np_diff_shift d a : np_diff (map (Z.add d) a) = np_diff a.
Proof.
  induction a as [|x [|y l] IH]; try reflexivity.
  change (map (Z.add d) (x :: y :: l))
    with ((d + x)%Z :: (d + y)%Z :: map (Z.add d) l).
  rewrite !np_diff_cons. f_equal; [lia|]. exact IH.
Qed.

Lemma peaks_within_shift d rpeaks a b :
  peaks_within (map (Z.add d) rpeaks) (d + a) (d + b)
  = map (Z.add d) (peaks_within rpeaks a b).
Proof.
  unfold peaks_within. induction rpeaks as [|r rest IH]; [reflexivity|].
  simpl. rewrite IH.
  replace ((d + a <=? d + r)%Z && (d + r <? d + b)%Z)
    with ((a <=? r)%Z && (r <? b)%Z).
  - destruct ((a <=? r)%Z && (r <? b)%Z); reflexivity.
  - f_equal; [destruct (Z.leb_spec a r), (Z.leb_spec (d + a) (d + r))
             | destruct (Z.ltb_spec r b), (Z.ltb_spec (d + r) (d + b))];
      try reflexivity; lia.
Qed.

Lemma cycle_estimate_shift sampling_rate d cycle :
  cycle_estimate sampling_rate (map (Z.add d) cycle) = cycle_estimate sampling_rate cycle.
Proof. unfold cycle_estimate, intervals. rewrite np_diff_shift. reflexivity. Qed.

Lemma p2t_values_shift d rsp_onsets rpeaks sampling_rate :
  p2t_values (map (Z.add d) rsp_onsets) (map (Z.add d) rpeaks) sampling_rate
  = p2t_values rsp_onsets rpeaks sampling_rate.
Proof.
  rewrite !p2t_values_zip. f_equal.
  assert (Hz : zip (map (Z.add d) rsp_onsets) (tail (map (Z.add d) rsp_onsets))
               = map (fun c => ((d + c.1)%Z, (d + c.2)%Z))
                     (zip rsp_onsets (tail rsp_onsets))).
  { replace (tail (map (Z.add d) rsp_onsets)) with (map (Z.add d) (tail rsp_onsets))
      by (destruct rsp_onsets; reflexivity).
    generalize (tail rsp_onsets). induction rsp_onsets as [|a l IH]; intros [|b t];
      try reflexivity.
    simpl. f_equal. apply IH. }
  rewrite Hz, <- list_fmap_compose. apply list_fmap_ext. intros _ [a b] _. simpl.
  rewrite peaks_within_shift. apply cycle_estimate_shift.
Qed.

(** X9.  The summary of the peak-to-trough estimator is a function of the
    onsets, the R-peaks and the sampling rate alone ([ecg_period] and
    [rsp_peaks] are not read), and it does not change when the onsets and
    the R-peaks are shifted in time by one offset. *)
Theorem p2t_summary_shift_invariant (lm : Libm) (su : SignalUtils)
    (rsp_onsets rpeaks : list Z) (sampling_rate d : Z)
    (ecg_period ecg_period' : list npfloat) (rsp_peaks rsp_peaks' : list Z) :
  _hrv_rsa_p2t lm su (map (Z.add d) rsp_onsets) (map (Z.add d) rpeaks) sampling_rate
    false ecg_period rsp_peaks
  = _hrv_rsa_p2t lm su rsp_onsets rpeaks sampling_rate false ecg_period' rsp_peaks'.
Proof.
  unfold _hrv_rsa_p2t. rewrite p2t_values_shift. reflexivity.
Qed.

Lemma sorted_lookup_le (l : list Z) i j x y :
  StronglySorted Z.le l → l !! i = Some x → l !! j = Some y → (i <= j)%nat →
  (x <= y)%Z.
Proof.
  intros Hs. revert i j. induction Hs as [|a l Hs IH Hall]; intros i j Hi Hj Hij.
  - discriminate.
  - destruct i as [|i], j as [|j]; simpl in *; try lia.
    + injection Hi as <-. injection Hj as <-. lia.
    + injection Hi as <-. rewrite Forall_forall in Hall.
      apply Hall. eapply list_elem_of_lookup_2, Hj.
    + eapply IH; eauto. lia.
Qed.

Lemma peaks_within_restrict (P : Z → bool) rpeaks a b :
  (∀ r, (a <= r < b)%Z → P r = true) →
  peaks_within (List.filter P rpeaks) a b = peaks_within rpeaks a b.
Proof.
  intros HP. unfold peaks_within. induction rpeaks as [|r rest IH]; [reflexivity|].
  simpl. destruct (P r) eqn:E; simpl; rewrite IH; [reflexivity|].
  destruct ((a <=? r)%Z && (r <? b)%Z) eqn:Hin; [|reflexivity].
  apply andb_true_iff in Hin as [H1 H2].
  apply Z.leb_le in H1. apply Z.ltb_lt in H2. rewrite HP in E by lia. discriminate.
Qed.

(** X10.  R-peaks before the first inspiration onset, and at or after the
    last one, belong to no cycle: with onsets in increasing order the
    estimator returns the same with and without them, in both modes. *)
Theorem p2t_ignores_outer_peaks (lm : Libm) (su : SignalUtils)
    (rsp_onsets rpeaks : list Z) (sampling_rate : Z) (continuous : bool)
    (ecg_period : list npfloat) (rsp_peaks : list Z) (first final : Z) :
  StronglySorted Z.le rsp_onsets →
  head rsp_onsets = Some first → last rsp_onsets = Some final →
  _hrv_rsa_p2t lm su rsp_onsets
    (List.filter (fun r => (first <=? r)%Z && (r <? final)%Z) rpeaks)
    sampling_rate continuous ecg_period rsp_peaks
  = _hrv_rsa_p2t lm su rsp_onsets rpeaks sampling_rate continuous ecg_period rsp_peaks.
Proof.
  intros Hs Hfirst Hfinal.
  assert (Hv : p2t_values rsp_onsets
                 (List.filter (fun r => (first <=? r)%Z && (r <? final)%Z) rpeaks)
                 sampling_rate
               = p2t_values rsp_onsets rpeaks sampling_rate).
  { rewrite !p2t_values_zip. f_equal. apply list_fmap_ext. intros k [a b] Hk. simpl.
    f_equal.
    rewrite lookup_zip_with, lookup_tail in Hk.
    destruct (rsp_onsets !! k) as [a'|] eqn:Ha; simpl in Hk; [|discriminate].
    destruct (rsp_onsets !! S k) as [b'|] eqn:Hb; simpl in Hk; [|discriminate].
    injection Hk as -> ->.
    rewrite head_lookup in Hfirst. rewrite last_lookup in Hfinal.
    pose proof (sorted_lookup_le _ _ _ _ _ Hs Hfirst Ha ltac:(lia)).
    apply lookup_lt_Some in Hb as Hlt.
    pose proof (sorted_lookup_le _ _ _ _ _ Hs Hb Hfinal ltac:(lia)).
    apply peaks_within_restrict. intros r Hr.
    apply andb_true_iff. split; [apply Z.leb_le | apply Z.ltb_lt]; lia. }
  unfold _hrv_rsa_p2t. rewrite Hv. reflexivity.
Qed.

Lemma p2t_ignores_outer_peaks_witness :
  _hrv_rsa_p2t Stub.lm Stub.su [0; 1000; 2000]%Z
    (List.filter (fun r => (0 <=? r)%Z && (r <? 2000)%Z)
       [-50; 100; 400; 800; 1300; 1700; 2000; 2400]%Z)
    100 false [] []
  = _hrv_rsa_p2t Stub.lm Stub.su [0; 1000; 2000]%Z
      [-50; 100; 400; 800; 1300; 1700; 2000; 2400]%Z 100 false [] [].
Proof.
  apply (p2t_ignores_outer_peaks Stub.lm Stub.su [0; 1000; 2000]%Z).
  - repeat constructor; lia.
  - reflexivity.
  - reflexivity.
Defined.

Lemma peaks_within_sorted rpeaks a b :
  StronglySorted Z.lt rpeaks → StronglySorted Z.lt (peaks_within rpeaks a b).
Proof.
  unfold peaks_within. induction 1 as [|r rest Hs IH Hall]; simpl; [constructor|].
  destruct ((a <=? r)%Z && (r <? b)%Z); [|exact IH].
  constructor; [exact IH|].
  rewrite Forall_forall in *. intros x Hx. apply Hall.
  clear -Hx. induction rest as [|y rest IH]; simpl in Hx; [inversion Hx|].
  destruct ((a <=? y)%Z && (y <? b)%Z).
  - apply elem_of_cons in Hx as [->|Hx]; [left | right; auto].
  - right; auto.
Qed.

Lemma fold_fmax_PInf n : fold_left fmax (replicate n PInf) PInf = PInf.
Proof. induction n as [|n IH]; [reflexivity | exact IH]. Qed.

Lemma fold_fmin_PInf n : fold_left fmin (replicate n PInf) PInf = PInf.
Proof. induction n as [|n IH]; [reflexivity | exact IH]. Qed.

Lemma intervals_zero_rate cycle :
  StronglySorted Z.lt cycle →
  intervals cycle 0 = replicate (length cycle - 1) PInf.
Proof.
  intros Hs. apply np_diff_positive in Hs. unfold intervals.
  rewrite <- np_diff_length.
  induction Hs as [|d l Hd _ IH]; [reflexivity|].
  simpl. rewrite IH. f_equal.
  unfold fdiv, of_Z. simpl. unfold finf.
  replace (0 <? Z.sgn (Qnum (Qred (inject_Z d))))%Z with true; [reflexivity|].
  symmetry. apply Z.ltb_lt.
  pose proof (Qred_correct (inject_Z d)) as E. unfold Qeq in E. simpl in E.
  destruct (Qred (inject_Z d)) as [n m]. simpl in *.
  destruct n; simpl; lia.
Qed.

Lemma cycle_estimate_zero_rate cycle :
  StronglySorted Z.lt cycle → cycle_estimate 0 cycle = NaN.
Proof.
  intros Hs. unfold cycle_estimate. rewrite intervals_zero_rate by exact Hs.
  rewrite length_replicate.
  destruct (length cycle - 1)%nat as [|[|n]]; try reflexivity.
  change (1 <? S (S n))%nat with true. cbv iota.
  change (replicate (S (S n)) PInf) with (PInf :: replicate (S n) PInf).
  unfold fold_max, fold_min. rewrite fold_fmax_PInf, fold_fmin_PInf. reflexivity.
Qed.

Lemma nanmean_all_nan n : nanmean (replicate n NaN) = NaN.
Proof.
  rewrite nanmean_defined. unfold mean, defined.
  assert (filter (fun v => isnan v = false) (replicate n NaN) = []) as ->.
  { induction n as [|n IH]; [reflexivity|]. simpl. rewrite filter_cons.
    case_decide; [discriminate | exact IH]. }
  reflexivity.
Qed.

(** X11.  A sampling rate of zero raises nothing: with R-peaks in increasing
    order every interval is a division by zero, [inf], every cycle gets [inf
    - inf], which is NaN, or nothing at all, and the summary reports a NaN
    mean and every cycle as undefined. *)
Theorem p2t_zero_sampling_rate (lm : Libm) (su : SignalUtils)
    (rsp_onsets rpeaks : list Z) (ecg_period : list npfloat) (rsp_peaks : list Z) :
  StronglySorted Z.lt rpeaks →
  p2t_values rsp_onsets rpeaks 0 = Ok (replicate (length rsp_onsets - 1) NaN) ∧
  ∃ rsa,
    _hrv_rsa_p2t lm su rsp_onsets rpeaks 0 false ecg_period rsp_peaks = Ok (ODict rsa) ∧
    rsa !! "RSA_P2T_Mean" = Some (VFloat NaN) ∧
    rsa !! "RSA_P2T_NoRSA" = Some (VInt (Z.of_nat (length rsp_onsets - 1))).
Proof.
  intros Hs.
  assert (Hv : p2t_values rsp_onsets rpeaks 0
               = Ok (replicate (length rsp_onsets - 1) NaN)).
  { rewrite p2t_values_zip. f_equal.
    assert (Hlen : length (zip rsp_onsets (tail rsp_onsets)) = (length rsp_onsets - 1)%nat).
    { rewrite length_zip_with, length_tl. lia. }
    rewrite <- Hlen. generalize (zip rsp_onsets (tail rsp_onsets)).
    induction l as [|[a b] l IH]; [reflexivity|]. simpl. rewrite IH. f_equal.
    apply cycle_estimate_zero_rate, peaks_within_sorted, Hs. }
  split; [exact Hv|]. eexists. split; [apply hrv_rsa_p2t_summary, Hv|].
  rewrite nanmean_all_nan. split; [reflexivity|].
  rewrite lookup_insert. f_equal. f_equal.
  rewrite count_null_filter. f_equal.
  generalize (length rsp_onsets - 1)%nat. induction n as [|n IH]; [reflexivity|].
  simpl. f_equal. exact IH.
Qed.

Lemma p2t_zero_sampling_rate_witness :
  p2t_values [0; 1000; 2000]%Z [100; 400; 800; 1300; 1700]%Z 0 = Ok [NaN; NaN].
Proof.
  apply (p2t_zero_sampling_rate Stub.lm Stub.su [0; 1000; 2000]%Z
           [100; 400; 800; 1300; 1700]%Z [] []).
  repeat constructor; lia.
Defined.

(** *** The cycle extractor: rows and spans *)

Lemma onset_at_row phase signals i :
  onset_at phase signals i → (0 <= i < Z.of_nat (length signals))%Z.
Proof.
  intros (k & s & -> & Hk & _). apply lookup_lt_Some in Hk. lia.
Qed.

(** X12.  Every onset is a row of the table, and no row starts both an
    inspiration and an expiration. *)
Theorem onsets_are_disjoint_rows (signals : list sample) :
  let c := _hrv_rsa_cycles signals in
  (∀ i, i ∈ RSP_Inspiration_Onsets c →
        (0 <= i < Z.of_nat (length signals))%Z ∧ i ∉ RSP_Expiration_Onsets c) ∧
  (∀ i, i ∈ RSP_Expiration_Onsets c → (0 <= i < Z.of_nat (length signals))%Z).
Proof.
  intros c.
  destruct (onsets_spec 1 signals) as [_ Hin].
  destruct (onsets_spec 0 signals) as [_ Hex].
  simpl in Hin, Hex. unfold c. simpl. split.
  - intros i Hi. apply Hin in Hi. split; [eapply onset_at_row, Hi|].
    intros Hi'. apply Hex in Hi'.
    destruct Hi as (k & s & -> & Hk & H1 & _).
    destruct Hi' as (k' & s' & Hkk & Hk' & H0 & _).
    apply Nat2Z.inj in Hkk. subst k'. rewrite Hk in Hk'. injection Hk' as <-.
    unfold holds in *. rewrite H1 in H0. vm_compute in H0. discriminate.
  - intros i Hi. apply Hex in Hi. eapply onset_at_row, Hi.
Qed.

Lemma np_diff_telescope (a : list Z) x y :
  head a = Some x → last a = Some y → foldr Z.add 0%Z (np_diff a) = (y - x)%Z.
Proof.
  revert x. induction a as [|a0 [|a1 l] IH]; intros x Hx Hy; try discriminate.
  - injection Hx as <-. injection Hy as <-. simpl. lia.
  - injection Hx as <-. rewrite np_diff_cons. simpl foldr.
    rewrite (IH a1); [lia | reflexivity | exact Hy].
Qed.

(** X13.  The cycle lengths add up to the span from the first inspiration
    onset to the last one. *)
Theorem cycle_lengths_span (signals : list sample) (first final : Z) :
  let c := _hrv_rsa_cycles signals in
  head (RSP_Inspiration_Onsets c) = Some first →
  last (RSP_Inspiration_Onsets c) = Some final →
  foldr Z.add 0%Z (RSP_Cycles_Length c) = (final - first)%Z.
Proof. intros c. apply np_diff_telescope. Qed.

Lemma cycle_lengths_span_witness :
  foldr Z.add 0%Z
    (RSP_Cycles_Length (_hrv_rsa_cycles (Stub.table 10 [1%nat; 4%nat; 9%nat] [])))
  = (9 - 1)%Z.
Proof.
  apply (cycle_lengths_span (Stub.table 10 [1%nat; 4%nat; 9%nat] []));
    vm_compute; reflexivity.
Defined.

(** *** The Porges-Bohrer estimator: epochs and aggregate *)

(** [time // 30] at 2 Hz: sample [i] belongs to epoch [i / 60]. *)
Lemma epoch_index_div (i : nat) : epoch_index i = Z.of_nat (i / 60).
Proof.
  unfold epoch_index.
  assert (E : (inject_Z (Z.of_nat i) / 2 / 30 == Z.of_nat i # 60)%Q).
  { unfold Qeq, Qdiv, Qmult, Qinv, inject_Z. simpl. lia. }
  rewrite E. unfold Qfloor. rewrite Nat2Z.inj_div. reflexivity.
Qed.

Lemma compress_interval {A} (l : list A) : ∀ s lo hi : nat,
  compress (map (fun i => (lo <=? i)%nat && (i <? hi)%nat) (seq s (length l))) l
  = take (hi - Nat.max lo s) (drop (lo - s) l).
Proof.
  induction l as [|x l IH]; intros s lo hi.
  - rewrite drop_nil, take_nil. reflexivity.
  - simpl length. simpl seq. simpl map. simpl compress.
    destruct (Nat.leb_spec lo s) as [Hlo|Hlo]; simpl.
    + destruct (Nat.ltb_spec s hi) as [Hhi|Hhi].
      * rewrite IH.
        replace (lo - s)%nat with 0%nat by lia.
        replace (lo - S s)%nat with 0%nat by lia.
        replace (hi - Nat.max lo s)%nat with (S (hi - Nat.max lo (S s))) by lia.
        reflexivity.
      * rewrite IH.
        replace (hi - Nat.max lo s)%nat with 0%nat by lia.
        replace (hi - Nat.max lo (S s))%nat with 0%nat by lia.
        reflexivity.
    + rewrite IH.
      replace (lo - s)%nat with (S (lo - S s)) by lia.
      replace (Nat.max lo (S s)) with (Nat.max lo s) by lia.
      reflexivity.
Qed.

(** [time.loc[e]]: the samples [60 e .. 60 e + 59]. *)
Lemma epoch_block signal e : epoch signal e = take 60 (drop (60 * e) signal).
Proof.
  unfold epoch.
  rewrite (map_ext _ (fun i => (60 * e <=? i)%nat && (i <? 60 * e + 60)%nat)).
  - rewrite compress_interval. f_equal; [lia | f_equal; lia].
  - intros i. rewrite epoch_index_div.
    pose proof (Nat.div_mod_eq i 60) as Hd.
    pose proof (Nat.mod_upper_bound i 60 ltac:(lia)) as Hm.
    destruct (Z.eqb_spec (Z.of_nat (i / 60)) (Z.of_nat e)) as [E|E];
      destruct (Nat.leb_spec (60 * e) i), (Nat.ltb_spec i (60 * e + 60));
      simpl; try reflexivity; exfalso; nia.
Qed.

Lemma foldr_max_upper (l : list Z) x : x ∈ l → (x <= foldr Z.max 0%Z l)%Z.
Proof.
  induction l as [|y l IH]; intros Hx; [inversion Hx|].
  apply elem_of_cons in Hx as [->|Hx]; simpl; [lia|].
  specialize (IH Hx). lia.
Qed.

Lemma foldr_max_attained (l : list Z) :
  foldr Z.max 0%Z l = 0%Z ∨ foldr Z.max 0%Z l ∈ l.
Proof.
  induction l as [|y l IH]; [left; reflexivity|]. simpl.
  destruct (Z.max_spec y (foldr Z.max 0%Z l)) as [[_ ->] | [_ ->]].
  - destruct IH as [IH|IH]; [left; exact IH | right; right; exact IH].
  - right. left.
Qed.

(** [int(np.max(time.index.values)) + 1] epochs for a series that is not
    empty. *)
Lemma epoch_count_blocks n :
  (0 < n)%nat → epoch_count n = Ok ((n + 60 - 1) / 60)%nat.
Proof.
  intros Hn. unfold epoch_count. destruct n as [|m]; [lia|]. f_equal.
  set (l := map epoch_index (seq 0 (S m))).
  assert (Hmax : foldr Z.max 0%Z l = Z.of_nat (m / 60)).
  { apply Z.le_antisymm.
    - destruct (foldr_max_attained l) as [-> | Hin]; [lia|].
      apply list_elem_of_fmap in Hin as (i & -> & Hi). apply elem_of_seq in Hi.
      rewrite epoch_index_div. apply Nat2Z.inj_le, Nat.Div0.div_le_mono. lia.
    - apply foldr_max_upper. rewrite <- epoch_index_div.
      apply list_elem_of_fmap. exists m. split; [reflexivity|].
      apply elem_of_seq. lia. }
  rewrite Hmax, Nat2Z.id.
  replace (S m + 60 - 1)%nat with (m + 1 * 60)%nat by lia.
  rewrite Nat.div_add by lia. reflexivity.
Qed.

Lemma concat_blocks (size : nat) (signal : list npfloat) :
  (0 < size)%nat → concat (blocks size signal) = signal.
Proof.
  intros Hsize. unfold blocks.
  assert (H : ∀ m, concat (map (fun e => take size (drop (size * e) signal)) (seq 0 m))
                   = take (size * m) signal).
  { induction m as [|m IH]; [rewrite Nat.mul_0_r; reflexivity|].
    rewrite seq_S, map_app, concat_app, IH. simpl. rewrite app_nil_r.
    rewrite take_take_drop. f_equal. lia. }
  rewrite H. apply take_ge.
  pose proof (Nat.div_mod_eq (length signal + size - 1) size) as Hd.
  pose proof (Nat.mod_upper_bound (length signal + size - 1) size ltac:(lia)) as Hm.
  nia.
Qed.

Lemma epoch_log_variances_blocks lm signal :
  signal ≠ [] →
  epoch_log_variances lm signal = Ok (map (epoch_log_variance lm) (blocks 60 signal)).
Proof.
  intros Hne. unfold epoch_log_variances.
  rewrite epoch_count_blocks by (destruct signal; simpl; [congruence | lia]).
  simpl. f_equal. f_equal. unfold blocks.
  apply map_ext. intros e. apply epoch_block.
Qed.

(** X14.  The epochs of the Porges-Bohrer estimator are the consecutive
    blocks of 60 samples (30 s at 2 Hz) of the band-passed series: together
    they are the whole series, none is empty, and one log-variance is
    computed per block.  An empty series has no epoch: the maximum of its
    index is a [ValueError]. *)
Theorem pb_epochs_are_blocks (lm : Libm) (signal : list npfloat) :
  concat (blocks 60 signal) = signal ∧
  Forall (fun block => (0 < length block <= 60)%nat) (blocks 60 signal) ∧
  epoch_log_variances lm signal
  = match signal with
    | [] => Raise ValueError
    | _ => Ok (map (epoch_log_variance lm) (blocks 60 signal))
    end.
Proof.
  split; [apply concat_blocks; lia|]. split.
  - apply Forall_forall. intros block Hb. unfold blocks in Hb.
    apply list_elem_of_fmap in Hb as (e & -> & He). apply elem_of_seq in He.
    rewrite length_take, length_drop.
    pose proof (Nat.div_mod_eq (length signal + 60 - 1) 60) as Hd.
    pose proof (Nat.mod_upper_bound (length signal + 60 - 1) 60 ltac:(lia)) as Hm.
    lia.
  - destruct signal as [|x l] eqn:E; [reflexivity|].
    apply epoch_log_variances_blocks. discriminate.
Qed.

Lemma defined_idemp a : defined (defined a) = defined a.
Proof.
  unfold defined. induction a as [|x a IH]; [reflexivity|].
  rewrite filter_cons. case_decide as Hx; [|exact IH].
  rewrite filter_cons. case_decide; [|contradiction]. f_equal. exact IH.
Qed.

(** X15.  In summary mode [RSA_PorgesBohrer] is the mean of the
    log-variances of the 60-sample blocks of the band-passed series, over
    the blocks whose log-variance is defined; when there is none (an empty
    series included) the estimator raises [ValueError]. *)
Theorem pb_mean_of_block_log_variances (lm : Libm) (su : SignalUtils)
    (ecg_period : list npfloat) (sampling_rate : Z) :
  let residual := pb_residual su ecg_period sampling_rate in
  let kept := defined (map (epoch_log_variance lm) (blocks 60 residual)) in
  _hrv_rsa_pb lm su ecg_period sampling_rate false
  = match kept with
    | [] => Raise ValueError
    | _ => Ok (ODict {[ "RSA_PorgesBohrer" := VFloat (mean kept) ]})
    end.
Proof.
  intros residual. cbv zeta. unfold _hrv_rsa_pb. cbn [negb]. cbv zeta. fold residual.
  destruct residual as [|x l] eqn:E; [reflexivity|].
  rewrite epoch_log_variances_blocks by discriminate.
  cbn [mbind result_bind].
  fold (defined (map (epoch_log_variance lm) (blocks 60 (x :: l)))).
  destruct (defined (map (epoch_log_variance lm) (blocks 60 (x :: l))))
    as [|v kept'] eqn:Hk; [reflexivity|].
  cbn [concat_mean mbind result_bind]. rewrite nanmean_defined, <- Hk.
  rewrite defined_idemp. reflexivity.
Qed.

(** *** The window generator: how many windows, in which order *)

(** X16.  For every positive segment length the generator returns (the
    factorisations of scipy being taken to return), with [min(window_number,
    nperseg - 1)] windows of [nperseg] samples each and one weight per
    window: the column of the smallest value of [RD] is always left out, so
    asking for [nperseg] windows or more gives fewer than asked for. *)
Theorem multipeak_window_count {F : Type} {ops : Window.FloatOps F}
    (la : Window.LinAlg F) (nperseg : Z) (window_number : nat) :
  (0 < nperseg)%Z →
  ∃ multipeak weight,
    Window._get_multipeak_window la nperseg window_number = Ok (multipeak, weight) ∧
    length multipeak = Nat.min window_number (Z.to_nat nperseg - 1) ∧
    length weight = length multipeak ∧
    Forall (fun taper => length taper = Z.to_nat nperseg) multipeak.
Proof.
  intros Hpos.
  destruct (Window._get_multipeak_window la nperseg window_number)
    as [[multipeak weight]|e] eqn:Hw.
  - exists multipeak, weight. split; [reflexivity|].
    apply multipeak_window_shape in Hw as (H1 & H2 & H3).
    split; [exact H1|]. split; [congruence | exact H3].
  - exfalso. revert Hw. unfold Window._get_multipeak_window.
    destruct (Z.eqb_spec nperseg 0); [lia|].
    destruct (Z.ltb_spec nperseg 0); [lia|].
    destruct (Window.covariances nperseg window_number) as [rpeak rpen].
    destruct (Window.generalised_basis la (Z.to_nat nperseg) rpeak rpen) as [Fm RD].
    discriminate.
Qed.

Lemma multipeak_window_count_witness :
  ∃ multipeak weight,
    Window._get_multipeak_window (ops := Window.npfloat_ops Stub.lm) Stub.la 4 8
    = Ok (multipeak, weight) ∧
    length multipeak = 3%nat.
Proof.
  destruct (multipeak_window_count (ops := Window.npfloat_ops Stub.lm) Stub.la 4 8
              ltac:(lia)) as (multipeak & weight & Hw & Hl & _).
  exists multipeak, weight. split; [exact Hw | exact Hl].
Defined.

(** X17.  A window of one second or less never gets through the Gates
    estimator, whatever the number of windows asked for: zero is a
    [ZeroDivisionError] (the resolution [B] divides by [nperseg]), a
    negative one a [ValueError] ([np.zeros] of a negative size), and one
    second gives three windows, one fewer than the loop reads. *)
Theorem gates_short_window_raises (lm : Libm) (su : SignalUtils)
    (la : Window.LinAlg npfloat) (ecg_signals_len : nat) (rpeaks : list Z)
    (sampling_rate window : Z) (window_number : option nat) (continuous : bool) :
  (window <= 1)%Z →
  ∃ e, _hrv_rsa_gates lm su la ecg_signals_len rpeaks sampling_rate window
         window_number continuous = Raise e ∧
       (window = 0%Z → e = ZeroDivisionError) ∧
       ((window < 0)%Z → e = ValueError).
Proof.
  intros Hw. unfold _hrv_rsa_gates.
  destruct (_hrv_get_rri su rpeaks sampling_rate true) as [rri sr].
  cbn -[gates_loop Z.mul].
  destruct (Z.compare_spec window 0) as [->|Hneg|Hpos].
  - exists ZeroDivisionError. split; [reflexivity|]. split; [reflexivity | lia].
  - exists ValueError. unfold Window._get_multipeak_window.
    destruct (Z.eqb_spec (window * 4) 0); [lia|].
    destruct (Z.ltb_spec (window * 4) 0); [|lia].
    split; [reflexivity|]. split; [lia | reflexivity].
  - assert (window = 1%Z) as -> by lia.
    destruct (Window._get_multipeak_window _ _ _) as [[multipeak weight]|e] eqn:Hm;
      cbn -[gates_loop Z.mul];
      [|exists e; split; [reflexivity|]; split; intros; lia].
    apply multipeak_window_shape in Hm as (Hl & _ & _).
    match goal with
    | |- context [gates_loop ?a ?b ?c ?d ?e ?f ?g ?h ?i] =>
        destruct (gates_loop_missing_window a b c d e f g h i) as (e' & ->)
    end.
    + exists 3%nat. split; [repeat constructor|].
      rewrite Hl. simpl. lia.
    + exists e'. split; [reflexivity|]. split; intros; lia.
Qed.

Lemma gates_short_window_raises_witness :
  ∃ e, _hrv_rsa_gates Stub.lm Stub.su Stub.la 400 [50; 150; 250; 350]%Z 100 1 None false
       = Raise e.
Proof.
  destruct (gates_short_window_raises Stub.lm Stub.su Stub.la 400
              [50; 150; 250; 350]%Z 100 1 None false ltac:(lia)) as (e & He & _).
  exists e. exact He.
Defined.

(** *** The window generator in real arithmetic: every size *)

Section real_windows_general.
Import Window.
Local Open Scope R_scope.

Lemma leF_Rle (x y : R) : leF x y ↔ x <= y.
Proof.
  unfold leF. simpl. destruct (Rle_dec x y); simpl; tauto.
Qed.

#[local] Instance leF_R_transitive : Transitive (leF (F := R)).
Proof. intros x y z. rewrite !leF_Rle. lra. Qed.

#[local] Instance leF_R_total : Total (leF (F := R)).
Proof. intros x y. rewrite !leF_Rle. lra. Qed.

Lemma np_sort_sorted (a : list R) : StronglySorted Rle (np_sort a).
Proof.
  unfold np_sort.
  pose proof (StronglySorted_merge_sort (leF (F := R)) a) as Hs.
  induction Hs as [|x l Hs IH Hall]; constructor; [exact IH|].
  eapply Forall_impl; [exact Hall|]. intros y. apply leF_Rle.
Qed.

Lemma StronglySorted_rev_flip (l : list R) :
  StronglySorted Rle l → StronglySorted (flip Rle) (rev l).
Proof.
  induction 1 as [|x l Hs IH Hall]; simpl; [constructor|].
  apply StronglySorted_app_2.
  - intros x1 x2 H1 H2. apply list_elem_of_singleton in H2 as ->.
    rewrite Forall_forall in Hall. apply Hall.
    apply list_elem_of_In. apply in_rev. apply list_elem_of_In. exact H1.
  - exact IH.
  - repeat constructor.
Qed.

Lemma StronglySorted_tail (P : relation R) (l : list R) :
  StronglySorted P l → StronglySorted P (tail l).
Proof. destruct 1; [constructor | assumption]. Qed.

Lemma StronglySorted_take (P : relation R) (k : nat) (l : list R) :
  StronglySorted P l → StronglySorted P (take k l).
Proof.
  intros Hs. rewrite <- (take_drop k l) in Hs.
  eapply StronglySorted_app_1_l, Hs.
Qed.

Lemma sorted_flip_lookup (l : list R) i j x y :
  StronglySorted (flip Rle) l → l !! i = Some x → l !! j = Some y → (i <= j)%nat →
  y <= x.
Proof.
  intros Hs. revert i j. induction Hs as [|a l Hs IH Hall]; intros i j Hi Hj Hij.
  - discriminate.
  - destruct i as [|i], j as [|j]; simpl in *; try lia.
    + injection Hi as <-. injection Hj as <-. lra.
    + injection Hi as <-. rewrite Forall_forall in Hall.
      apply Hall. eapply list_elem_of_lookup_2, Hj.
    + eapply IH; eauto. lia.
Qed.

(** The values of [RD] the generator keeps, largest first. *)
Lemma selected_values_sorted (K : nat) (RD : list R) :
  StronglySorted (flip Rle) (take K (rev (tail (np_sort RD)))).
Proof.
  apply StronglySorted_take, StronglySorted_rev_flip, StronglySorted_tail,
    np_sort_sorted.
Qed.

Lemma selected_values_elem (K : nat) (RD : list R) x :
  x ∈ take K (rev (tail (np_sort RD))) → x ∈ RD.
Proof.
  intros Hx. apply elem_of_take in Hx as (i & Hx & _).
  apply list_elem_of_lookup_2, elem_of_rev_tail in Hx.
  unfold np_sort in Hx. rewrite merge_sort_Permutation in Hx. exact Hx.
Qed.

Lemma f_sum_upper (l : list R) x :
  Forall (fun y => 0 < y) l → x ∈ l → x <= f_sum l.
Proof.
  intros Hall. induction Hall as [|y l Hy Hall IH]; intros Hx; [inversion Hx|].
  rewrite f_sum_cons.
  assert (0 <= f_sum l).
  { clear -Hall. induction Hall as [|z l Hz _ IH]; [rewrite f_sum_nil; lra|].
    rewrite f_sum_cons. lra. }
  apply elem_of_cons in Hx as [->|Hx]; [lra|]. specialize (IH Hx). lra.
Qed.

Lemma get_multipeak_window_select (la : LinAlg R) (nperseg : Z) (K : nat) :
  (0 < nperseg)%Z →
  let cov := covariances nperseg K in
  let basis := generalised_basis la (Z.to_nat nperseg) cov.1 cov.2 in
  _get_multipeak_window la nperseg K
  = Ok (select_windows (Z.to_nat nperseg) K basis.1 basis.2).
Proof.
  intros Hpos cov basis. unfold _get_multipeak_window.
  destruct (Z.eqb_spec nperseg 0); [lia|].
  destruct (Z.ltb_spec nperseg 0); [lia|].
  fold cov. destruct cov as [rpeak rpen]. simpl in basis. fold basis.
  destruct basis as [Fm RD]. reflexivity.
Qed.

(** X18.  In real arithmetic, for every segment length and every number of
    windows: provided no column of the basis [F] vanishes and the selected
    values of [RD] do not sum to zero, every window the generator returns
    has norm one and the weights sum to one. *)
Theorem multipeak_windows_normalised (la : LinAlg R) (nperseg : Z) (K : nat) :
  (0 < nperseg)%Z →
  let n := Z.to_nat nperseg in
  let cov := covariances nperseg K in
  let basis := generalised_basis la n cov.1 cov.2 in
  (∀ c, (c < n)%nat → vdot (column n basis.1 c) (column n basis.1 c) ≠ 0) →
  f_sum (take K (rev (tail (np_sort basis.2)))) ≠ 0 →
  ∃ multipeak weight,
    _get_multipeak_window la nperseg K = Ok (multipeak, weight) ∧
    Forall (fun taper => R_sqrt.sqrt (vdot taper taper) = 1) multipeak ∧
    f_sum weight = 1.
Proof.
  intros Hpos n cov basis Hcol Hsum.
  pose proof (get_multipeak_window_select la nperseg K Hpos) as Hw.
  cbv zeta in Hw. fold cov n in Hw. fold basis in Hw.
  pose proof (generalised_basis_length la n cov.1 cov.2) as Hlen. fold basis in Hlen.
  destruct (select_windows_normalised n K basis.1 basis.2) as [Hunit Hone];
    [lia | exact Hlen | exact Hcol | exact Hsum |].
  destruct (select_windows n K basis.1 basis.2) as [multipeak weight].
  exists multipeak, weight. split; [exact Hw|]. split; assumption.
Qed.

(** X19.  In real arithmetic, when the values of [RD] are positive: the
    weights come in decreasing order (the window of the largest value
    first), and each lies in (0, 1]. *)
Theorem multipeak_weights_decreasing (la : LinAlg R) (nperseg : Z) (K : nat) :
  (0 < nperseg)%Z →
  let cov := covariances nperseg K in
  let RD := (generalised_basis la (Z.to_nat nperseg) cov.1 cov.2).2 in
  Forall (fun x => 0 < x) RD →
  ∃ multipeak weight,
    _get_multipeak_window la nperseg K = Ok (multipeak, weight) ∧
    Forall (fun w => 0 < w <= 1) weight ∧
    ∀ i j wi wj, (i <= j)%nat → weight !! i = Some wi → weight !! j = Some wj →
                 wj <= wi.
Proof.
  intros Hpos cov RD HRD.
  pose proof (get_multipeak_window_select la nperseg K Hpos) as Hw.
  cbv zeta in Hw. fold cov in Hw.
  set (basis := generalised_basis la (Z.to_nat nperseg) cov.1 cov.2) in *.
  eexists _, _. split; [exact Hw|].
  unfold select_windows. cbn [snd].
  set (top := take K (rev (tail (np_sort basis.2)))).
  assert (Htop : Forall (fun x => 0 < x) top).
  { apply Forall_forall. intros x Hx. apply selected_values_elem in Hx.
    rewrite Forall_forall in HRD. apply HRD, Hx. }
  change (fun x : R => f_div x (f_sum top)) with (fun x : R => x / f_sum top).
  split.
  - apply Forall_forall. intros w Hw'.
    apply list_elem_of_fmap in Hw' as (x & -> & Hx).
    pose proof (f_sum_upper top x Htop Hx) as Hle.
    rewrite Forall_forall in Htop. specialize (Htop x Hx).
    assert (0 < f_sum top) by lra.
    split; [apply Rdiv_lt_0_compat; lra|].
    apply (Rmult_le_reg_r (f_sum top)); [lra|].
    unfold Rdiv. rewrite Rmult_assoc, Rinv_l by lra. lra.
  - intros i j wi wj Hij Hi Hj.
    rewrite list_lookup_fmap in Hi, Hj.
    destruct (top !! i) as [x|] eqn:Hx; [|discriminate].
    destruct (top !! j) as [y|] eqn:Hy; [|discriminate].
    injection Hi as <-. injection Hj as <-.
    pose proof (sorted_flip_lookup top i j x y (selected_values_sorted K basis.2)
                  Hx Hy Hij) as Hle.
    apply list_elem_of_lookup_2 in Hx.
    pose proof (f_sum_upper top x Htop Hx).
    rewrite Forall_forall in Htop. specialize (Htop x Hx).
    assert (0 < f_sum top) by lra.
    unfold Rdiv. apply Rmult_le_compat_r; [|exact Hle].
    apply Rlt_le, Rinv_0_lt_compat. assumption.
Qed.

(** The first covariance of the peaked spectrum is positive for every
    positive segment length. *)
Lemma covariances_r0_pos (nperseg : Z) (K : nat) :
  (0 < nperseg)%Z → 0 < nth 0 (covariances nperseg K).1 0.
Proof.
  intros Hpos. unfold covariances. cbv zeta. cbn [fst nth].
  change (f_log10 (f_exp (f_of_Z 1))) with (ln (exp 1) / ln 10).
  cbn [f_div f_mul f_sub f_neg f_exp f_of_Z R_ops].
  rewrite ln_exp.
  assert (Hln : 0 < ln 10).
  { rewrite <- ln_1. apply ln_increasing; lra. }
  assert (HK : 0 < IZR (Z.of_nat K + 2)) by (apply IZR_lt; lia).
  assert (Hn : 0 < IZR nperseg) by (apply IZR_lt; lia).
  set (B := IZR (Z.of_nat K + 2) / IZR nperseg).
  assert (HB : 0 < B) by (apply Rdiv_lt_0_compat; assumption).
  change (IZR (2 * 20)) with 40.
  set (C := 40 / 10 / B / (1 / ln 10)).
  assert (HC : 0 < C).
  { unfold C. repeat apply Rdiv_lt_0_compat; lra. }
  assert (He : exp (- C * B / 2) < 1).
  { rewrite <- exp_0. apply exp_increasing. nra. }
  apply Rmult_lt_0_compat; [apply Rdiv_lt_0_compat; lra | lra].
Qed.

Lemma identity_basis_positive (nperseg : Z) (K : nat) :
  (0 < nperseg)%Z →
  let cov := covariances nperseg K in
  Forall (fun x => 0 < x)
         (generalised_basis identity_la (Z.to_nat nperseg) cov.1 cov.2).2.
Proof.
  intros Hpos cov. apply Forall_forall. intros x Hx.
  apply identity_basis_values in Hx. rewrite Hx.
  apply covariances_r0_pos, Hpos.
Qed.

Lemma multipeak_windows_normalised_witness :
  ∃ multipeak weight,
    _get_multipeak_window identity_la 12 4 = Ok (multipeak, weight) ∧
    Forall (fun taper => R_sqrt.sqrt (vdot taper taper) = 1) multipeak ∧
    f_sum weight = 1.
Proof.
  apply (multipeak_windows_normalised identity_la 12 4); [lia | |].
  - intros c Hc. rewrite identity_basis_column by exact Hc. lra.
  - apply Rgt_not_eq, Rlt_gt, f_sum_positive.
    + intros E. apply (f_equal length) in E.
      rewrite length_take, length_rev, length_tl in E.
      unfold np_sort in E.
      rewrite (Permutation_length (merge_sort_Permutation _ _)) in E.
      rewrite generalised_basis_length in E. simpl in E. lia.
    + apply Forall_forall. intros x Hx. apply selected_values_elem in Hx.
      pose proof (identity_basis_positive 12 4 ltac:(lia)) as Hall.
      rewrite Forall_forall in Hall. apply Hall, Hx.
Defined.

Lemma multipeak_weights_decreasing_witness :
  ∃ multipeak weight,
    _get_multipeak_window identity_la 12 4 = Ok (multipeak, weight) ∧
    Forall (fun w => 0 < w <= 1) weight.
Proof.
  destruct (multipeak_weights_decreasing identity_la 12 4 ltac:(lia)
              (identity_basis_positive 12 4 ltac:(lia)))
    as (multipeak & weight & Hw & Hall & _).
  exists multipeak, weight. split; [exact Hw | exact Hall].
Defined.

End real_windows_general.

(** *** The input formatter *)

Section formatter.
Import Format.

(** X20.  A table with no column whose label contains [ECG_Rate] or
    [ECG_R_Peaks], passed as such or as the first item of a tuple, is
    refused with [ValueError] before anything else is looked at: no
    collaborator result matters and no warning is issued. *)
Theorem formatinput_no_heart_rate (co : Collaborators)
    (ecg_signals rsp_signals rpeaks : pyarg) (sampling_rate : Z) (df : frame) :
  table_of ecg_signals = Some df →
  columns_with "ECG_Rate" df = [] →
  columns_with "ECG_R_Peaks" df = [] →
  frun (_hrv_rsa_formatinput co ecg_signals rsp_signals rpeaks sampling_rate)
  = (Throw (Builtin ValueError), []).
Proof.
  intros Ht Hrate Hpeaks. run_formatter.
  destruct ecg_signals as [|df'|[|[|df'| | |] rest]| |]; try discriminate;
    injection Ht as ->; simpl; rewrite Hrate, Hpeaks; reflexivity.
Qed.

Lemma formatinput_no_heart_rate_witness :
  frun (_hrv_rsa_formatinput FormatStub.co
          (AFrame {| nrows := 2; cols := [("ECG_Clean", [of_Z 1; of_Z 2])] |})
          ANone ANone 100)
  = (Throw (Builtin ValueError), []).
Proof.
  apply (formatinput_no_heart_rate FormatStub.co _ ANone ANone 100
           {| nrows := 2; cols := [("ECG_Clean", [of_Z 1; of_Z 2])] |});
    reflexivity.
Defined.

(** X21.  Passing a tuple is passing its first item with [rpeaks=None]: the
    R-peaks given by the caller are not used. *)
Theorem formatinput_tuple_drops_rpeaks (co : Collaborators)
    (first : pyarg) (rest : list pyarg) (rsp_signals rpeaks : pyarg)
    (sampling_rate : Z) :
  (∀ items, first ≠ ATuple items) →
  _hrv_rsa_formatinput co (ATuple (first :: rest)) rsp_signals rpeaks sampling_rate
  = _hrv_rsa_formatinput co first rsp_signals ANone sampling_rate.
Proof.
  intros Hfirst. unfold _hrv_rsa_formatinput, unpack_ecg, fbind, fret.
  destruct first as [|df|items| |]; try reflexivity.
  exfalso. eapply Hfirst. reflexivity.
Qed.

Lemma formatinput_tuple_drops_rpeaks_witness :
  _hrv_rsa_formatinput FormatStub.co (ATuple [AFrame FormatStub.bio; ADict []])
    ANone (AArray [1; 2]%Z) 100
  = _hrv_rsa_formatinput FormatStub.co (AFrame FormatStub.bio) ANone ANone 100.
Proof.
  apply formatinput_tuple_drops_rpeaks. intros items. discriminate.
Defined.

(** Which steps can warn. *)
Lemma unpack_ecg_ws ecg_signals rpeaks ws : (unpack_ecg ecg_signals rpeaks ws).2 = ws.
Proof. destruct ecg_signals as [| |[|first rest]| |]; reflexivity. Qed.

Lemma heart_period_ws co ecg_signals rpeaks sampling_rate ws :
  (heart_period co ecg_signals rpeaks sampling_rate ws).2 = ws.
Proof.
  unfold heart_period, fbind, flift, fret, throw.
  destruct ecg_signals as [|df| | |]; try reflexivity.
  destruct (columns_with "ECG_Rate" df) as [|col cs].
  - destruct (columns_with "ECG_R_Peaks" df); [reflexivity|].
    destruct (signal_rate co rpeaks sampling_rate (nrows df)); reflexivity.
  - destruct (frame_values df col); reflexivity.
Qed.

Lemma derive_rsp_ws co ecg_period sampling_rate w ws :
  (∃ e, derive_rsp co ecg_period sampling_rate w ws = (Throw e, ws)) ∨
  (∃ df, derive_rsp co ecg_period sampling_rate w ws = (Return (AFrame df), ws ++ [w])).
Proof.
  unfold derive_rsp, read_local, fbind, flift, fret, fwarn, throw.
  destruct ecg_period as [period|]; [|left; eexists; reflexivity].
  destruct (ecg_rsp co period sampling_rate) as [edr|e]; [|left; eexists; reflexivity].
  destruct (rsp_process co edr sampling_rate) as [df|e]; [|left; eexists; reflexivity].
  right. eexists. reflexivity.
Qed.

Lemma rsp_from_argument_ws co ecg_signals rsp_signals ecg_period sampling_rate ws :
  let out := rsp_from_argument co ecg_signals rsp_signals ecg_period sampling_rate ws in
  out.2 = ws ∨ (out.2 = ws ++ [RspMissingWarning] ∧ rsp_signals = ANone).
Proof.
  unfold rsp_from_argument, get_columns, fbind, flift, fret, throw.
  destruct rsp_signals as [|df|[|first rest]| |]; try (left; reflexivity).
  destruct ecg_signals as [|df| | |]; try (left; reflexivity).
  destruct (negb _); [|left; reflexivity].
  destruct (derive_rsp_ws co ecg_period sampling_rate RspMissingWarning ws)
    as [(e & ->) | (f & ->)]; [left; reflexivity | right; split; reflexivity].
Qed.

Lemma rsp_checked_ws co rsp_signals ecg_period sampling_rate ws :
  let out := rsp_checked co rsp_signals ecg_period sampling_rate ws in
  out.2 = ws ∨ out.2 = ws ++ [RspColumnsWarning].
Proof.
  unfold rsp_checked, fret.
  destruct rsp_signals as [|df| | |]; try (left; reflexivity).
  destruct (negb _); [|left; reflexivity].
  destruct (derive_rsp_ws co ecg_period sampling_rate RspColumnsWarning ws)
    as [(e & ->) | (f & ->)]; [left; reflexivity | right; reflexivity].
Qed.

Lemma sanitized_rpeaks_ws co ecg_signals rpeaks ws :
  (sanitized_rpeaks co ecg_signals rpeaks ws).2 = ws.
Proof.
  unfold sanitized_rpeaks, flift, fret, throw.
  destruct rpeaks; try reflexivity.
  destruct (_signal_formatpeaks_sanitize co ecg_signals) as [r|e]; [reflexivity|].
  destruct (is_name_error e); reflexivity.
Qed.

Lemma rsp_signal_of_ws signals ws : (rsp_signal_of signals ws).2 = ws.
Proof.
  unfold rsp_signal_of, fbind, flift, fret.
  repeat case_bool_decide; try reflexivity;
    match goal with |- context [frame_values ?s ?n] => destruct (frame_values s n) end;
    reflexivity.
Qed.

Lemma read_local_ws {A} (x : option A) ws : (read_local x ws).2 = ws.
Proof. destruct x; reflexivity. Qed.

(** The formatter, step by step, for a call that returns. *)
Lemma formatinput_inv co ecg_signals rsp_signals rpeaks sampling_rate r ws :
  frun (_hrv_rsa_formatinput co ecg_signals rsp_signals rpeaks sampling_rate)
  = (Return r, ws) →
  ∃ ecg' rpeaks' period rsp1 ws1 rsp2 peaks signals rsp_signal,
    unpack_ecg ecg_signals rpeaks [] = (Return (ecg', rpeaks'), []) ∧
    heart_period co ecg' rpeaks' sampling_rate [] = (Return (Some period), []) ∧
    rsp_from_argument co ecg' rsp_signals (Some period) sampling_rate []
    = (Return rsp1, ws1) ∧
    rsp_checked co rsp1 (Some period) sampling_rate ws1 = (Return rsp2, ws) ∧
    sanitized_rpeaks co ecg' rpeaks' ws = (Return peaks, ws) ∧
    pd_concat [ecg'; rsp2] = Return signals ∧
    rsp_signal_of signals ws = (Return rsp_signal, ws) ∧
    r = (signals, period, peaks, rsp_signal).
Proof.
  unfold frun, _hrv_rsa_formatinput. unfold fbind at 1.
  pose proof (unpack_ecg_ws ecg_signals rpeaks []) as H1.
  destruct (unpack_ecg ecg_signals rpeaks []) as [[[ecg' rpeaks']|e] w1] eqn:E1;
    [|discriminate]. simpl in H1. subst w1. cbn [fst snd]. unfold fbind at 1.
  pose proof (heart_period_ws co ecg' rpeaks' sampling_rate []) as H2.
  destruct (heart_period co ecg' rpeaks' sampling_rate []) as [[period|e] w2] eqn:E2;
    [|discriminate]. simpl in H2. subst w2. unfold fbind at 1.
  destruct (rsp_from_argument co ecg' rsp_signals period sampling_rate [])
    as [[rsp1|e] ws1] eqn:E3; [|discriminate]. unfold fbind at 1.
  destruct (rsp_checked co rsp1 period sampling_rate ws1)
    as [[rsp2|e] ws2] eqn:E4; [|discriminate]. unfold fbind at 1.
  pose proof (sanitized_rpeaks_ws co ecg' rpeaks' ws2) as H5.
  destruct (sanitized_rpeaks co ecg' rpeaks' ws2) as [[peaks|e] w5] eqn:E5;
    [|discriminate]. simpl in H5. subst w5. unfold fbind at 1. unfold flift at 1.
  destruct (pd_concat [ecg'; rsp2]) as [signals|e] eqn:E6; [|discriminate].
  unfold fbind at 1.
  pose proof (rsp_signal_of_ws signals ws2) as H7.
  destruct (rsp_signal_of signals ws2) as [[rsp_signal|e] w7] eqn:E7;
    [|discriminate]. simpl in H7. subst w7. unfold fbind at 1.
  destruct period as [period|]; [|discriminate].
  simpl. intros [= <- <-].
  eexists _, _, _, _, _, _, _, _, _. repeat split; try eassumption; reflexivity.
Qed.

Lemma heart_period_frame co ecg' rpeaks' sampling_rate period ws ws' :
  heart_period co ecg' rpeaks' sampling_rate ws = (Return (Some period), ws') →
  ∃ df, ecg' = AFrame df.
Proof.
  unfold heart_period, fret. destruct ecg' as [|df| | |]; try discriminate. eauto.
Qed.

Lemma unpack_ecg_table ecg_signals rpeaks df rpeaks' ws ws' :
  unpack_ecg ecg_signals rpeaks ws = (Return (AFrame df, rpeaks'), ws') →
  table_of ecg_signals = Some df.
Proof.
  unfold unpack_ecg, fret, throw.
  destruct ecg_signals as [|df'|[|first rest]| |]; try discriminate.
  - intros [= -> _ _]. reflexivity.
  - intros [= -> _ _]. reflexivity.
Qed.

Lemma rsp_checked_kind co rsp1 period sampling_rate ws rsp2 ws' :
  rsp_checked co rsp1 period sampling_rate ws = (Return rsp2, ws') →
  rsp2 = rsp1 ∨ ∃ df, rsp2 = AFrame df.
Proof.
  unfold rsp_checked, fret. destruct rsp1 as [|df| | |];
    try (intros [= <- _]; left; reflexivity).
  destruct (negb _); [|intros [= <- _]; left; reflexivity].
  destruct (derive_rsp_ws co period sampling_rate RspColumnsWarning ws)
    as [(e & ->) | (f & ->)]; [discriminate|].
  intros [= <- _]. right. eauto.
Qed.

Lemma pd_concat_table df rsp2 signals :
  pd_concat [AFrame df; rsp2] = Return signals →
  ∃ rsp_cols,
    columns signals = columns df ++ rsp_cols ∧
    (nrows df <= nrows signals)%nat ∧
    (rsp2 = ANone → rsp_cols = []).
Proof.
  unfold pd_concat. simpl.
  destruct rsp2 as [|f| | |]; simpl; try discriminate.
  - intros [= <-]. exists []. unfold columns. simpl.
    rewrite !app_nil_r, map_map. simpl. split; [reflexivity|]. split; [lia | reflexivity].
  - intros [= <-]. exists (columns f). unfold columns. simpl.
    rewrite app_nil_r, map_map, map_app. simpl. split; [reflexivity|].
    split; [lia | discriminate].
Qed.

(** X22.  The formatter returns only for a table, passed as such or as the
    first item of a tuple; a dictionary, an array or [None] for
    [ecg_signals] ends in an exception whatever the other arguments are.
    The table it returns has at least the rows of that table and begins with
    its columns, in their order. *)
Theorem formatinput_returns_table (co : Collaborators)
    (ecg_signals rsp_signals rpeaks : pyarg) (sampling_rate : Z)
    (signals : frame) (ecg_period : values) (peaks : list Z)
    (rsp_signal : option values) (ws : list fwarning) :
  frun (_hrv_rsa_formatinput co ecg_signals rsp_signals rpeaks sampling_rate)
  = (Return (signals, ecg_period, peaks, rsp_signal), ws) →
  ∃ df rsp_cols,
    table_of ecg_signals = Some df ∧
    columns signals = columns df ++ rsp_cols ∧
    (nrows df <= nrows signals)%nat.
Proof.
  intros Hrun.
  apply formatinput_inv in Hrun
    as (ecg' & rpeaks' & period & rsp1 & ws1 & rsp2 & pk & sg & rs
        & H1 & H2 & H3 & H4 & H5 & H6 & H7 & E).
  injection E as <- <- <- <-.
  destruct (heart_period_frame _ _ _ _ _ _ _ H2) as (df & ->).
  apply unpack_ecg_table in H1.
  destruct (pd_concat_table _ _ _ H6) as (rsp_cols & Hc & Hn & _).
  exists df, rsp_cols. auto.
Qed.

Lemma formatinput_returns_table_witness :
  ∃ (signals : frame) rest,
    (frun (_hrv_rsa_formatinput FormatStub.co (AFrame FormatStub.bio) ANone
             (AArray [1]%Z) 100)).1 = Return (signals, rest.1.1, rest.1.2, rest.2) ∧
    ∃ rsp_cols, columns signals = columns FormatStub.bio ++ rsp_cols.
Proof.
  destruct (frun (_hrv_rsa_formatinput FormatStub.co (AFrame FormatStub.bio) ANone
                    (AArray [1]%Z) 100)) as [[[[[sg pd] pk] rs]|e] ws] eqn:Hrun;
    [|vm_compute in Hrun; discriminate].
  destruct (formatinput_returns_table _ _ _ _ _ _ _ _ _ _ Hrun)
    as (df & rsp_cols & Ht & Hc & _).
  injection Ht as <-.
  exists sg, (pd, pk, rs). split; [reflexivity|]. exists rsp_cols. exact Hc.
Defined.

(** X23.  The formatter warns at most twice, each message at most once, the
    message for a missing [rsp_signals] argument first; that message is only
    issued when [rsp_signals] is [None]. *)
Theorem formatinput_warnings (co : Collaborators)
    (ecg_signals rsp_signals rpeaks : pyarg) (sampling_rate : Z) :
  let ws :=
    (frun (_hrv_rsa_formatinput co ecg_signals rsp_signals rpeaks sampling_rate)).2 in
  (ws = [] ∨ ws = [RspMissingWarning] ∨ ws = [RspColumnsWarning] ∨
   ws = [RspMissingWarning; RspColumnsWarning]) ∧
  (RspMissingWarning ∈ ws → rsp_signals = ANone).
Proof.
  intros ws.
  set (P := fun l : list fwarning =>
              (l = [] ∨ l = [RspColumnsWarning]) ∨
              (rsp_signals = ANone ∧
               (l = [RspMissingWarning] ∨ l = [RspMissingWarning; RspColumnsWarning]))).
  assert (H : P ws).
  { unfold ws, frun, _hrv_rsa_formatinput. unfold fbind at 1.
    pose proof (unpack_ecg_ws ecg_signals rpeaks []) as H1.
    destruct (unpack_ecg ecg_signals rpeaks []) as [[[ecg' rpeaks']|e] w1];
      simpl in H1; subst w1; [|left; left; reflexivity].
    cbn [fst snd]. unfold fbind at 1.
    pose proof (heart_period_ws co ecg' rpeaks' sampling_rate []) as H2.
    destruct (heart_period co ecg' rpeaks' sampling_rate []) as [[period|e] w2];
      simpl in H2; subst w2; [|left; left; reflexivity].
    unfold fbind at 1.
    pose proof (rsp_from_argument_ws co ecg' rsp_signals period sampling_rate []) as H3.
    destruct (rsp_from_argument co ecg' rsp_signals period sampling_rate [])
      as [[rsp1|e] ws1]; simpl in H3;
      [|destruct H3 as [-> | [-> E]];
        [left; left | right; split; [exact E | left]]; reflexivity].
    unfold fbind at 1.
    pose proof (rsp_checked_ws co rsp1 period sampling_rate ws1) as H4.
    assert (Hend : ∀ (o : outcome (frame * values * list Z * option values)) ws2,
              (ws2 = ws1 ∨ ws2 = ws1 ++ [RspColumnsWarning]) → P (o, ws2).2).
    { intros o ws2 Hws2. unfold P. simpl.
      destruct H3 as [-> | [-> E]], Hws2 as [-> | ->]; simpl; auto. }
    destruct (rsp_checked co rsp1 period sampling_rate ws1) as [[rsp2|e] ws2];
      simpl in H4; [|apply Hend, H4].
    unfold fbind at 1.
    pose proof (sanitized_rpeaks_ws co ecg' rpeaks' ws2) as H5.
    destruct (sanitized_rpeaks co ecg' rpeaks' ws2) as [[peaks|e] w5];
      simpl in H5; subst w5; [|apply Hend, H4].
    unfold fbind at 1. unfold flift at 1.
    destruct (pd_concat [ecg'; rsp2]) as [signals|e]; [|apply Hend, H4].
    unfold fbind at 1.
    pose proof (rsp_signal_of_ws signals ws2) as H7.
    destruct (rsp_signal_of signals ws2) as [[rsp_signal|e] w7];
      simpl in H7; subst w7; [|apply Hend, H4].
    unfold fbind at 1.
    destruct period as [period|]; apply Hend, H4. }
  unfold P in H. clear P.
  split.
  - destruct H as [[H|H] | [_ [H|H]]]; auto.
  - intros Hin. destruct H as [[H|H] | [Hr _]]; [| |exact Hr]; rewrite H in Hin.
    + inversion Hin.
    + apply list_elem_of_singleton in Hin. discriminate.
Qed.

(** X24.  When the table has a column whose label contains [ECG_Rate], the
    heart period the formatter returns is the content of the first such
    column: [signal_rate] and the R-peaks play no part in it. *)
Theorem formatinput_heart_period (co : Collaborators)
    (ecg_signals rsp_signals rpeaks : pyarg) (sampling_rate : Z)
    (signals : frame) (ecg_period : values) (peaks : list Z)
    (rsp_signal : option values) (ws : list fwarning)
    (df : frame) (col : string) (others : list string) :
  frun (_hrv_rsa_formatinput co ecg_signals rsp_signals rpeaks sampling_rate)
  = (Return (signals, ecg_period, peaks, rsp_signal), ws) →
  table_of ecg_signals = Some df →
  columns_with "ECG_Rate" df = col :: others →
  frame_values df col = Return ecg_period.
Proof.
  intros Hrun Ht Hcols.
  apply formatinput_inv in Hrun
    as (ecg' & rpeaks' & period & rsp1 & ws1 & rsp2 & pk & sg & rs
        & H1 & H2 & H3 & H4 & H5 & H6 & H7 & E).
  injection E as <- <- <- <-.
  destruct (heart_period_frame _ _ _ _ _ _ _ H2) as (df' & ->).
  apply unpack_ecg_table in H1. rewrite Ht in H1. injection H1 as <-.
  revert H2. unfold heart_period, fbind, flift, fret. rewrite Hcols.
  destruct (frame_values df col); [intros [= ->]; reflexivity | discriminate].
Qed.

Lemma formatinput_heart_period_witness :
  ∃ r, (frun (_hrv_rsa_formatinput FormatStub.co (AFrame FormatStub.bio) ANone
                (AArray [1]%Z) 100)).1 = Return r ∧
       frame_values FormatStub.bio "ECG_Rate" = Return r.1.1.2.
Proof.
  destruct (frun (_hrv_rsa_formatinput FormatStub.co (AFrame FormatStub.bio) ANone
                    (AArray [1]%Z) 100)) as [[[[[sg pd] pk] rs]|e] ws] eqn:Hrun;
    [|vm_compute in Hrun; discriminate].
  exists (sg, pd, pk, rs). split; [reflexivity|].
  apply (formatinput_heart_period _ _ _ _ _ _ _ _ _ _ FormatStub.bio "ECG_Rate" []
           Hrun); reflexivity.
Defined.

Lemma pad_well_formed (df : frame) :
  well_formed df → map (pad (nrows df)) (cols df) = cols df.
Proof.
  unfold well_formed. intros Hwf. induction Hwf as [|[name c] l Hc _ IH]; [reflexivity|].
  simpl in *. rewrite IH. unfold pad. simpl.
  rewrite Hc, Nat.sub_diag, app_nil_r. reflexivity.
Qed.

(** X25.  With [rsp_signals=None], a call that returns warns that the
    respiration is missing exactly when the table does not have two columns
    whose label contains [RSP_Phase]; when it has them, nothing is derived
    and nothing is warned about, and a well-formed table is returned as it
    was given. *)
Theorem formatinput_rsp_from_table (co : Collaborators)
    (ecg_signals rpeaks : pyarg) (sampling_rate : Z)
    (signals : frame) (ecg_period : values) (peaks : list Z)
    (rsp_signal : option values) (ws : list fwarning) (df : frame) :
  frun (_hrv_rsa_formatinput co ecg_signals ANone rpeaks sampling_rate)
  = (Return (signals, ecg_period, peaks, rsp_signal), ws) →
  table_of ecg_signals = Some df →
  (length (columns_with "RSP_Phase" df) = 2%nat →
     ws = [] ∧ (well_formed df → signals = df)) ∧
  (length (columns_with "RSP_Phase" df) ≠ 2%nat → RspMissingWarning ∈ ws).
Proof.
  intros Hrun Ht.
  apply formatinput_inv in Hrun
    as (ecg' & rpeaks' & period & rsp1 & ws1 & rsp2 & pk & sg & rs
        & H1 & H2 & H3 & H4 & H5 & H6 & H7 & E).
  injection E as <- <- <- <-.
  destruct (heart_period_frame _ _ _ _ _ _ _ H2) as (df' & ->).
  apply unpack_ecg_table in H1. rewrite Ht in H1. injection H1 as <-.
  revert H3. unfold rsp_from_argument, get_columns, fbind, flift, fret.
  destruct (Nat.eqb_spec (length (columns_with "RSP_Phase" df)) 2) as [Hlen|Hlen];
    cbn [negb].
  - intros [= <- <-]. simpl in H4. injection H4 as <- <-.
    split; [|contradiction]. intros _. split; [reflexivity|]. intros Hwf.
    revert H6. unfold pd_concat. simpl. intros [= <-].
    rewrite app_nil_r, Nat.max_0_r, (pad_well_formed df Hwf).
    destruct df; reflexivity.
  - destruct (derive_rsp_ws co (Some ecg_period) sampling_rate RspMissingWarning [])
      as [(e & Hd) | (f & Hd)]; rewrite Hd; [discriminate|].
    intros [= <- <-]. split; [contradiction|]. intros _.
    pose proof (rsp_checked_ws co (AFrame f) (Some ecg_period) sampling_rate
                  [RspMissingWarning]) as Hw.
    cbv zeta in Hw. rewrite H4 in Hw. cbn [snd app] in Hw.
    destruct Hw as [-> | ->]; left.
Qed.

Lemma formatinput_rsp_from_table_witness :
  ∃ r, frun (_hrv_rsa_formatinput FormatStub.co (AFrame FormatStub.bio) ANone
               (AArray [1]%Z) 100) = (Return r, []) ∧
       r.1.1.1 = FormatStub.bio.
Proof.
  destruct (frun (_hrv_rsa_formatinput FormatStub.co (AFrame FormatStub.bio) ANone
                    (AArray [1]%Z) 100)) as [[[[[sg pd] pk] rs]|e] ws] eqn:Hrun;
    [|vm_compute in Hrun; discriminate].
  destruct (formatinput_rsp_from_table _ _ _ _ _ _ _ _ _ FormatStub.bio Hrun
              eq_refl) as [Hsame _].
  destruct (Hsame eq_refl) as [-> Hdf].
  exists (sg, pd, pk, rs). split; [reflexivity|].
  apply Hdf. repeat constructor.
Defined.

End formatter.

(** *** [eda_intervalrelated] *)

Section eda.
Import Format Eda.

#[local] Instance append_inj (prefix : string) : Inj (=) (=) (String.append prefix).
Proof.
  intros x y. induction prefix as [|c prefix IH]; simpl; [auto|].
  intros [= H]. auto.
Qed.

Lemma prefixed_row (n mean : npfloat) :
  kmap (String.append "SCR_")
    (<[ "Peaks_Amplitude_Mean" := mean ]> ({[ "Peaks_N" := n ]} : gmap string npfloat))
  = eda_row n mean.
Proof.
  unfold eda_row.
  rewrite (kmap_insert (String.append "SCR_")), (kmap_singleton (String.append "SCR_")).
  reflexivity.
Qed.

(** A label that alone contains [needle] labels exactly one column. *)
Lemma unique_label_values (needle label : string) (df : frame) :
  columns_with needle df = [label] →
  ∃ a, frame_values df label = Return (Values1 a).
Proof.
  unfold columns_with, columns, frame_values. intros Hcols.
  assert (Hin : py_in needle label = true).
  { assert (In label (List.filter (py_in needle) (map fst (cols df))))
      by (rewrite Hcols; left; reflexivity).
    apply filter_In in H as [_ H]. exact H. }
  revert Hcols. induction (cols df) as [|[l c] cs IH]; simpl; [discriminate|].
  destruct (py_in needle l) eqn:Hl.
  - intros [= -> Hrest]. rewrite String.eqb_refl.
    assert (List.filter (fun c0 => String.eqb c0.1 label) cs = []) as ->.
    { clear IH. induction cs as [|[l' c'] cs IH]; [reflexivity|]. simpl in *.
      destruct (py_in needle l') eqn:Hl'; [discriminate|].
      destruct (String.eqb_spec l' label) as [->|_]; [congruence|]. apply IH, Hrest. }
    eexists. reflexivity.
  - intros Hrest. destruct (String.eqb_spec l label) as [->|_]; [congruence|].
    apply IH, Hrest.
Qed.

(** X26.  One table, with one column labelled [SCR_Peaks] and one labelled
    [SCR_Amplitude] and no other label containing either, a peak count that
    is not zero and no NaN among the amplitudes: given as such, or as the
    only entry of a dictionary, [eda_intervalrelated] returns one row with
    the same two entries. *)
Theorem eda_branches_agree (df : frame) (key : string)
    (peaks amplitude : list npfloat) :
  columns_with "SCR_Peaks" df = ["SCR_Peaks"] →
  columns_with "SCR_Amplitude" df = ["SCR_Amplitude"] →
  frame_values df "SCR_Peaks" = Return (Values1 peaks) →
  frame_values df "SCR_Amplitude" = Return (Values1 amplitude) →
  feqb (np_sum peaks) (of_Z 0) = false →
  Forall (fun v => isnan v = false) amplitude →
  let row := eda_row (np_sum peaks) (fdiv (np_sum amplitude) (np_sum peaks)) in
  eda_intervalrelated (EFrame df) = Return [(RowInt 0, row)] ∧
  eda_intervalrelated (EDict [(key, AFrame df)]) = Return [(RowKey key, row)].
Proof.
  intros Hp Ha Hpv Hav Hn Hnan row. split.
  - unfold eda_intervalrelated. rewrite Hp, Hpv, Ha, Hav.
    unfold values_nansum, values_sum. simpl values_entries.
    rewrite prefixed_row.
    assert (fst (replace_nan amplitude) = amplitude) as ->; [|reflexivity].
    unfold replace_nan. simpl. clear -Hnan.
    induction Hnan as [|v l Hv _ IH]; [reflexivity|]. simpl. rewrite Hv, IH. reflexivity.
  - unfold eda_intervalrelated. cbn [format_intervals].
    unfold _eda_intervalrelated_formatinput. cbn [get_columns].
    rewrite Hp, Ha, Hpv, Hav. cbn [length Nat.eqb].
    unfold values_sum. cbn [values_entries]. rewrite Hn.
    unfold row, eda_row. rewrite insert_empty. reflexivity.
Qed.

Lemma eda_branches_agree_witness :
  ∃ row,
    eda_intervalrelated (EFrame (eda_table "SCR_Peaks")) = Return [(RowInt 0, row)] ∧
    eda_intervalrelated (EDict [("epoch", AFrame (eda_table "SCR_Peaks"))])
    = Return [(RowKey "epoch", row)].
Proof.
  eexists.
  apply (eda_branches_agree (eda_table "SCR_Peaks") "epoch"
           [of_Z 0; of_Z 1; of_Z 0; of_Z 1] [of_Z 0; of_Z 3; of_Z 0; of_Z 1]);
    try reflexivity.
  repeat constructor.
Defined.

Lemma formatinput_row interval output row :
  _eda_intervalrelated_formatinput interval output = Return row →
  ∃ n mean,
    row = <[ "SCR_Peaks_Amplitude_Mean" := mean ]> (<[ "SCR_Peaks_N" := n ]> output) ∧
    (n = of_Z 0 → mean = NaN).
Proof.
  unfold _eda_intervalrelated_formatinput.
  destruct (get_columns interval) as [df|]; [|discriminate].
  destruct (_ =? 0)%nat; [discriminate|].
  destruct (_ =? 0)%nat; [discriminate|].
  destruct (frame_values df "SCR_Peaks") as [peaks|]; [|discriminate].
  destruct (frame_values df "SCR_Amplitude") as [amplitude|]; [|discriminate].
  destruct (feqb (values_sum peaks) (of_Z 0)) eqn:E; intros [= <-].
  - eexists _, _. split; [reflexivity|]. reflexivity.
  - eexists _, _. split; [reflexivity|]. intros Hz. rewrite Hz in E.
    vm_compute in E. discriminate.
Qed.

(** X27.  For a dictionary of tables, a call that returns gives one row per
    key, in the order of the dictionary, each with the two entries
    [SCR_Peaks_N] and [SCR_Peaks_Amplitude_Mean]; where the peak count is
    zero the mean amplitude is NaN. *)
Theorem eda_dict_rows (items : list (string * pyarg))
    (rows : list (row_label * gmap string npfloat)) :
  eda_intervalrelated (EDict items) = Return rows →
  map fst rows = map (fun item => RowKey (fst item)) items ∧
  Forall (fun row => ∃ n mean, snd row = eda_row n mean ∧ (n = of_Z 0 → mean = NaN))
         rows.
Proof.
  unfold eda_intervalrelated. revert rows.
  induction items as [|[index interval] rest IH]; intros rows; cbn [format_intervals].
  - intros [= <-]. split; [reflexivity | constructor].
  - destruct (_eda_intervalrelated_formatinput interval ∅) as [row|] eqn:Hrow;
      [|discriminate].
    destruct (format_intervals rest) as [rows'|]; [|discriminate].
    intros [= <-]. destruct (IH rows' eq_refl) as [IH1 IH2].
    split; [simpl; f_equal; exact IH1|].
    constructor; [|exact IH2].
    apply formatinput_row in Hrow as (n & mean & -> & Hz).
    exists n, mean. split; [|exact Hz]. unfold eda_row. simpl.
    rewrite insert_empty. reflexivity.
Qed.

Lemma eda_dict_rows_witness :
  ∃ rows,
    eda_intervalrelated (EDict [("1", AFrame (eda_table "SCR_Peaks"));
                                ("2", AFrame (eda_table "SCR_Peaks"))])
    = Return rows ∧
    map fst rows = [RowKey "1"; RowKey "2"].
Proof.
  assert (H : ∃ rows,
             eda_intervalrelated (EDict [("1", AFrame (eda_table "SCR_Peaks"));
                                         ("2", AFrame (eda_table "SCR_Peaks"))])
             = Return rows)
    by (eexists; reflexivity).
  destruct H as (rows & Hrun). exists rows. split; [exact Hrun|].
  apply (eda_dict_rows _ _ Hrun).
Defined.

(** X28.  The two branches do not ask the same of the labels.  A table whose
    only column with [SCR_Peaks] in its label is labelled otherwise (say
    [SCR_Peaks_N]) is accepted as such, the column being found by its
    content; inside a dictionary it passes the sanity check and then
    [interval["SCR_Peaks"]] is a [KeyError]. *)
Theorem eda_dict_needs_exact_label (df : frame) (key peaks_col amp_col : string)
    (rest : list (string * pyarg)) :
  columns_with "SCR_Peaks" df = [peaks_col] →
  columns_with "SCR_Amplitude" df = [amp_col] →
  peaks_col ≠ "SCR_Peaks" →
  (∃ row, eda_intervalrelated (EFrame df) = Return [(RowInt 0, row)]) ∧
  eda_intervalrelated (EDict ((key, AFrame df) :: rest)) = Throw KeyError.
Proof.
  intros Hp Ha Hne. split.
  - unfold eda_intervalrelated. rewrite Hp, Ha.
    destruct (unique_label_values _ _ _ Hp) as (peaks & ->).
    destruct (unique_label_values _ _ _ Ha) as (amplitude & ->).
    eexists. reflexivity.
  - unfold eda_intervalrelated. cbn [format_intervals].
    unfold _eda_intervalrelated_formatinput. cbn [get_columns].
    rewrite Hp, Ha. cbn [length Nat.eqb].
    assert (frame_values df "SCR_Peaks" = Throw KeyError) as ->; [|reflexivity].
    unfold frame_values.
    assert (List.filter (fun c => String.eqb c.1 "SCR_Peaks") (cols df) = []) as ->;
      [|reflexivity].
    revert Hp. unfold columns_with, columns.
    induction (cols df) as [|[l c] cs IH]; [reflexivity|]. cbn [map List.filter fst].
    destruct (String.eqb_spec l "SCR_Peaks") as [->|Hl].
    + change (py_in "SCR_Peaks" "SCR_Peaks") with true. cbv iota.
      intros [= E _]. congruence.
    + destruct (py_in "SCR_Peaks" l); [|exact IH].
      intros [= _ Hrest]. clear IH.
      induction cs as [|[l' c'] cs IH]; [reflexivity|]. cbn [map List.filter fst] in *.
      destruct (String.eqb_spec l' "SCR_Peaks") as [->|_].
      * change (py_in "SCR_Peaks" "SCR_Peaks") with true in Hrest. discriminate.
      * destruct (py_in "SCR_Peaks" l'); [discriminate | apply IH, Hrest].
Qed.

Lemma eda_dict_needs_exact_label_witness :
  (∃ row, eda_intervalrelated (EFrame (eda_table "SCR_Peaks_Flag"))
          = Return [(RowInt 0, row)]) ∧
  eda_intervalrelated (EDict [("1", AFrame (eda_table "SCR_Peaks_Flag"))])
  = Throw KeyError.
Proof.
  apply (eda_dict_needs_exact_label (eda_table "SCR_Peaks_Flag") "1"
           "SCR_Peaks_Flag" "SCR_Amplitude" []);
    [reflexivity | reflexivity | discriminate].
Defined.

End eda.

(** *** [hrv_time] *)

Section time_domain.
Import HrvTime.

(** X29.  Anything but a dictionary with one entry, under the key
    [ECG_R_Peaks] or [PPG_Peaks], is refused with [ValueError]. *)
Theorem hrv_time_refuses (lm : Libm) (st : Stats) (peaks : peaks_arg)
    (sampling_rate : Z) :
  (¬ ∃ key p, peaks = PDict [(key, p)] ∧ (key = "ECG_R_Peaks" ∨ key = "PPG_Peaks")) →
  hrv_time lm st peaks sampling_rate = Raise ValueError.
Proof.
  intros Hbad. unfold hrv_time.
  destruct peaks as [[|[key p] [|item rest]]|]; try reflexivity.
  cbn [length Nat.eqb negb].
  case_bool_decide as Hkey; [|reflexivity].
  exfalso. apply Hbad. exists key, p. split; [reflexivity|].
  apply elem_of_cons in Hkey as [->|Hkey]; [left; reflexivity|].
  apply list_elem_of_singleton in Hkey as ->. right; reflexivity.
Qed.

Lemma hrv_time_refuses_witness :
  hrv_time Stub.lm TimeStub.st
    (PDict [("ECG_R_Peaks", [10; 20]%Z); ("PPG_Peaks", [10; 20]%Z)]) 100
  = Raise ValueError.
Proof.
  apply hrv_time_refuses. intros (key & p & [=] & _).
Defined.

Lemma fgtb_threshold (x : npfloat) (a b : Z) :
  (a <= b)%Z → fgtb x (of_Z b) = true → fgtb x (of_Z a) = true.
Proof.
  intros Hab. unfold fgtb, of_Z.
  destruct x as [| | |q]; try (simpl; intros; assumption || discriminate).
  unfold fleb, feqb. cbn [this Q2Qc].
  intros H. apply andb_true_iff in H as [Hle Hne].
  apply Qle_bool_iff in Hle. rewrite Qred_correct in Hle.
  apply negb_true_iff in Hne.
  assert (Hq : ¬ (q == Qred (inject_Z b))%Q)
    by (intros E; apply Qeq_bool_iff in E; congruence).
  rewrite Qred_correct in Hq.
  assert (Hle' : (inject_Z a <= q)%Q).
  { eapply Qle_trans; [|exact Hle]. rewrite <- Zle_Qle. exact Hab. }
  apply andb_true_iff. split.
  - apply Qle_bool_iff. rewrite Qred_correct. exact Hle'.
  - apply negb_true_iff. destruct (Qeq_bool q (Qred (inject_Z a))) eqn:E; [|reflexivity].
    exfalso. apply Qeq_bool_iff in E. rewrite Qred_correct in E.
    apply Hq. apply Qle_antisym; [|exact Hle].
    rewrite E. rewrite <- Zle_Qle. exact Hab.
Qed.

Lemma count_true_le (f g : npfloat → bool) (l : list npfloat) :
  (∀ x, f x = true → g x = true) →
  (0 <= count_true (map f l) <= count_true (map g l))%Z ∧
  (count_true (map g l) <= Z.of_nat (length l))%Z.
Proof.
  intros Hfg. unfold count_true. induction l as [|x l IH]; simpl; [lia|].
  specialize (Hfg x).
  destruct (f x), (g x); simpl; try discriminate (Hfg eq_refl); lia.
Qed.

(** [k / n * 100] on doubles, for a positive length [n]. *)
Lemma percentage_value (k n : Z) :
  (0 < n)%Z →
  fmul (fdiv (of_Z k) (of_Z n)) (of_Z 100)
  = Fin (Q2Qc (inject_Z k) / Q2Qc (inject_Z n) * Q2Qc (inject_Z 100))%Qc.
Proof.
  intros Hn. unfold fdiv, of_Z. simpl.
  rewrite inject_Z_nonzero by lia. reflexivity.
Qed.

Lemma percentage_le (a b n : Z) :
  (0 < n)%Z → (a <= b)%Z →
  (Q2Qc (inject_Z a) / Q2Qc (inject_Z n) * Q2Qc (inject_Z 100)
   <= Q2Qc (inject_Z b) / Q2Qc (inject_Z n) * Q2Qc (inject_Z 100))%Qc.
Proof.
  intros Hn Hab. unfold Qcle, Qcdiv, Qcmult, Qcinv. cbn [this Q2Qc].
  rewrite !Qred_correct.
  destruct n as [|p|p]; try lia.
  unfold Qle, Qmult, Qinv, inject_Z. simpl. nia.
Qed.

Lemma percentage_lt_100 (a n : Z) :
  (0 < n)%Z → (a < n)%Z →
  (Q2Qc (inject_Z a) / Q2Qc (inject_Z n) * Q2Qc (inject_Z 100) < Q2Qc (inject_Z 100))%Qc.
Proof.
  intros Hn Han. unfold Qclt, Qcdiv, Qcmult, Qcinv. cbn [this Q2Qc].
  rewrite !Qred_correct.
  destruct n as [|p|p]; try lia.
  unfold Qlt, Qmult, Qinv, inject_Z. simpl. nia.
Qed.

Lemma percentage_nonneg (a n : Z) :
  (0 < n)%Z → (0 <= a)%Z →
  (0 <= Q2Qc (inject_Z a) / Q2Qc (inject_Z n) * Q2Qc (inject_Z 100))%Qc.
Proof.
  intros Hn Ha. unfold Qcle, Qcdiv, Qcmult, Qcinv. cbn [this Q2Qc].
  rewrite !Qred_correct.
  destruct n as [|p|p]; try lia.
  unfold Qle, Qmult, Qinv, inject_Z. simpl. nia.
Qed.

(** X30.  With two peaks or more, whenever [hrv_time] returns: [pNN50] and
    [pNN20] are finite percentages with [0 <= pNN50 <= pNN20 < 100].  The
    count is taken over the successive differences and divided by the number
    of intervals, one more, so 100 is never reached. *)
Theorem hrv_time_pnn_bounds (lm : Libm) (st : Stats) (key : string) (p : list Z)
    (sampling_rate : Z) (out : gmap string npfloat) :
  hrv_time lm st (PDict [(key, p)]) sampling_rate = Ok out →
  (2 <= length p)%nat →
  ∃ q50 q20 : Qc,
    out !! "pNN50" = Some (Fin q50) ∧ out !! "pNN20" = Some (Fin q20) ∧
    (0 <= q50)%Qc ∧ (q50 <= q20)%Qc ∧ (q20 < Q2Qc (inject_Z 100))%Qc.
Proof.
  intros Hrun Hlen. revert Hrun. unfold hrv_time. cbn [length Nat.eqb negb].
  destruct (negb _); [discriminate|].
  set (heart_period := map _ (np_diff p)).
  set (diff_period := fdiff heart_period).
  assert (Hn : length heart_period = (length p - 1)%nat)
    by (unfold heart_period; rewrite length_map; apply np_diff_length).
  assert (Hd : (length diff_period <= length heart_period - 1)%nat).
  { unfold diff_period, fdiff. rewrite length_zip_with, length_tl. lia. }
  destruct (count_true_le (fun v => fgtb (fabs v) (of_Z 50))
              (fun v => fgtb (fabs v) (of_Z 20)) diff_period) as [[H0 H5020] H20];
    [intros x; apply fgtb_threshold; lia|].
  set (nn50 := count_true (map (fun v => fgtb (fabs v) (of_Z 50)) diff_period)) in *.
  set (nn20 := count_true (map (fun v => fgtb (fabs v) (of_Z 20)) diff_period)) in *.
  rewrite !(percentage_value _ (Z.of_nat (length heart_period))) by lia.
  destruct (np_histogram_auto st heart_period) as [[bar_y bar_x]|]; [|discriminate].
  cbn [mbind result_bind].
  destruct (np_max bar_x) as [hi|]; [|discriminate]. cbn [mbind result_bind].
  destruct (np_min bar_x) as [lo|]; [|discriminate]. cbn [mbind result_bind].
  destruct (np_max bar_y) as [top|]; [|discriminate]. cbn [mbind result_bind].
  intros [= <-].
  eexists _, _. split; [|split].
  - rewrite lookup_insert_ne by discriminate. rewrite lookup_insert_ne by discriminate.
    rewrite lookup_insert_ne by discriminate. rewrite lookup_insert. reflexivity.
  - rewrite lookup_insert_ne by discriminate. rewrite lookup_insert_ne by discriminate.
    rewrite lookup_insert. reflexivity.
  - split; [apply percentage_nonneg; lia|].
    split; [apply percentage_le; lia | apply percentage_lt_100; lia].
Qed.

Lemma hrv_time_pnn_bounds_witness :
  ∃ out (q50 q20 : Qc),
    hrv_time Stub.lm TimeStub.st (PDict [("ECG_R_Peaks", [0; 100; 230; 310; 420]%Z)])
      100 = Ok out ∧
    out !! "pNN50" = Some (Fin q50) ∧ out !! "pNN20" = Some (Fin q20) ∧
    (q50 <= q20)%Qc.
Proof.
  assert (H : ∃ out,
             hrv_time Stub.lm TimeStub.st
               (PDict [("ECG_R_Peaks", [0; 100; 230; 310; 420]%Z)]) 100 = Ok out)
    by (eexists; reflexivity).
  destruct H as (out & Hrun).
  destruct (hrv_time_pnn_bounds _ _ _ _ _ _ Hrun ltac:(simpl; lia))
    as (q50 & q20 & H50 & H20 & _ & Hle & _).
  exists out, q50, q20. auto.
Defined.

End time_domain.
